(** * Lupito Sanity Studio: content generation, formatting and secrets

    A shallow embedding of the TypeScript sources
    - [plugins/generate-with-claude/hooks/useGenerateContent.ts]
      ([generate], [generateSlug]),
    - [plugins/generate-with-claude/utils/contentFormatter.ts]
      ([formatContentForSanity], [addImagePlaceholders]),
    - [plugins/generate-with-claude/utils/imageHandler.ts]
      ([uploadImageToSanity]),
    - [lib/secrets-manager.ts]
      ([getEnvironment], [formatSecretName], [getSecret]),
    followed by the properties of these functions.

    JavaScript strings are sequences of UTF-16 code units; they are
    modelled as [list N].  Objects used as dictionaries are [gmap]s of
    their own properties.  Effects (React state, network requests, the
    process-wide secrets cache, the clock) are threaded explicitly. *)

From Stdlib Require Import NArith ZArith Ascii String DecimalString Lia.
From stdpp Require Import gmap list fin_maps.

Set Warnings "-clear-no-such-hyp".

(** ** JavaScript strings *)

Abbreviation jsstring := (list N).

Module Js.

Local Open Scope N_scope.

(** Code points of a UTF-8 byte sequence (the encoding of the literals
    of this file). *)
Fixpoint utf8_decode (bs : list N) : list N :=
  match bs with
  | [] => []
  | b :: r =>
      if b <? 128 then b :: utf8_decode r
      else if b <? 224 then
        match r with
        | c1 :: r' => ((b - 192) * 64 + (c1 - 128)) :: utf8_decode r'
        | _ => []
        end
      else if b <? 240 then
        match r with
        | c1 :: c2 :: r' =>
            ((b - 224) * 4096 + (c1 - 128) * 64 + (c2 - 128)) :: utf8_decode r'
        | _ => []
        end
      else
        match r with
        | c1 :: c2 :: c3 :: r' =>
            ((b - 240) * 262144 + (c1 - 128) * 4096 + (c2 - 128) * 64 + (c3 - 128))
              :: utf8_decode r'
        | _ => []
        end
  end.

(** UTF-16 code units of a code point. *)
Definition utf16_encode (cp : N) : list N :=
  if cp <? 65536 then [cp]
  else [55296 + (cp - 65536) / 1024; 56320 + (cp - 65536) mod 1024].

(** The JavaScript string denoted by a literal of this file. *)
Definition lit (s : string) : jsstring :=
  utf8_decode (N_of_ascii <$> list_ascii_of_string s) ≫= utf16_encode.

(** Truthiness of a string: only the empty string is falsy. *)
Definition truthy (s : jsstring) : bool :=
  match s with [] => false | _ => true end.

(** [a || b] on strings. *)
Definition or_else (a b : jsstring) : jsstring := if truthy a then a else b.

(** [o[k] || b] where [o[k]] may be undefined. *)
Definition opt_or_else (a : option jsstring) (b : jsstring) : jsstring :=
  match a with Some s => or_else s b | None => b end.

(** LineTerminator: LF, CR, LS, PS. *)
Definition isLineTerminator (c : N) : bool :=
  (c =? 10) || (c =? 13) || (c =? 8232) || (c =? 8233).

(** WhiteSpace and LineTerminator code units: what [trim] strips and
    what [\s] matches. *)
Definition isSpace (c : N) : bool :=
  (c =? 9) || (c =? 10) || (c =? 11) || (c =? 12) || (c =? 13) || (c =? 32)
  || (c =? 160) || (c =? 5760) || ((8192 <=? c) && (c <=? 8202))
  || (c =? 8232) || (c =? 8233) || (c =? 8239) || (c =? 8287)
  || (c =? 12288) || (c =? 65279).

(** [\w] without the unicode flag: [A-Za-z0-9_]. *)
Definition isWord (c : N) : bool :=
  ((65 <=? c) && (c <=? 90)) || ((97 <=? c) && (c <=? 122))
  || ((48 <=? c) && (c <=? 57)) || (c =? 95).

Definition hyphen : N := 45.
Definition star : N := 42.
Definition newline : N := 10.

Definition isHyphen (c : N) : bool := c =? hyphen.

(** The class [\w\s-] of [generateSlug]'s first pattern. *)
Definition isSlugUnit (c : N) : bool := isWord c || isSpace c || isHyphen c.

(** Lower case of one code unit.  This is [toLowerCase] on the Basic
    Latin and Latin-1 Supplement blocks (code units below U+0100), where
    it maps one code unit to one code unit of the same blocks.  The case
    mapping above U+00FF is not modelled (the source maps, for one,
    U+212A to the letter k): code units above are left as they are, and
    the properties of [toLowerCase] below are stated for strings below
    U+0100 (see [latin1]). *)
Definition lowerUnit (c : N) : N :=
  if ((65 <=? c) && (c <=? 90))
     || ((192 <=? c) && (c <=? 222) && negb (c =? 215))
  then c + 32 else c.

(** Upper case of one code unit; [generate] applies it to language
    codes only.  This is [toUpperCase] on the Basic Latin block (code
    units below U+0080).  The case mapping above is modelled only for
    the letters of the Latin-1 Supplement whose upper case is one code
    unit of that block (U+00DF, U+00FF and U+00B5, whose upper case is
    two code units or lies outside the block, are left as they are, as
    is every code unit above U+00FF): the properties of [toUpperCase]
    below are stated for strings of the Basic Latin block (see
    [basicLatin]). *)
Definition upperUnit (c : N) : N :=
  if ((97 <=? c) && (c <=? 122))
     || ((224 <=? c) && (c <=? 254) && negb (c =? 247))
  then c - 32 else c.

Definition toLowerCase (s : jsstring) : jsstring := lowerUnit <$> s.
Definition toUpperCase (s : jsstring) : jsstring := upperUnit <$> s.

Fixpoint startsWith (p s : jsstring) : bool :=
  match p, s with
  | [], _ => true
  | a :: p', b :: s' => (a =? b) && startsWith p' s'
  | _ :: _, [] => false
  end.

Definition endsWith (p s : jsstring) : bool :=
  startsWith (reverse p) (reverse s).

(** [s.slice(a)] for [0 <= a]. *)
Definition slice_from (a : nat) (s : jsstring) : jsstring := drop a s.

(** [s.slice(a, -b)] for [0 <= a] and [0 < b]: from index [a] up to
    index [length - b], empty when the bounds cross. *)
Definition slice (a b : nat) (s : jsstring) : jsstring :=
  drop a (take (length s - b) s).

Fixpoint dropWhile (p : N → bool) (s : jsstring) : jsstring :=
  match s with
  | [] => []
  | c :: s' => if p c then dropWhile p s' else s
  end.

Definition trim (s : jsstring) : jsstring :=
  reverse (dropWhile isSpace (reverse (dropWhile isSpace s))).

(** [s.split(sep)] for a one-unit separator. *)
Fixpoint split (sep : N) (s : jsstring) : list jsstring :=
  match s with
  | [] => [[]]
  | c :: s' =>
      if c =? sep then [] :: split sep s'
      else match split sep s' with
           | l :: ls => (c :: l) :: ls
           | [] => [[c]]
           end
  end.

(** [lines.join(sep)] for a one-unit separator. *)
Fixpoint join (sep : N) (lines : list jsstring) : jsstring :=
  match lines with
  | [] => []
  | [l] => l
  | l :: rest => l ++ sep :: join sep rest
  end.

(** [s.replace(/[^C]/g, '')]: keep the units of the class. *)
Definition removeUnless (keep : N → bool) (s : jsstring) : jsstring :=
  filter (λ c, keep c = true) s.

(** [s.replace(/C+/g, r)]: every maximal run of units of the class [p]
    becomes one copy of [r]; [inrun] says that the previous unit was in
    the class. *)
Fixpoint replaceRuns (p : N → bool) (r : jsstring) (inrun : bool)
    (s : jsstring) : jsstring :=
  match s with
  | [] => []
  | c :: s' =>
      if p c then
        (if inrun then [] else r) ++ replaceRuns p r true s'
      else c :: replaceRuns p r false s'
  end.

(** Decimal digits of a number, as in a template literal. *)
Definition digits (n : nat) : jsstring :=
  lit (NilEmpty.string_of_uint (Nat.to_uint n)).

End Js.

(** ** [generateSlug] (useGenerateContent.ts) *)

Definition generateSlug (title : jsstring) : jsstring :=
  Js.trim
    (Js.replaceRuns Js.isHyphen [Js.hyphen] false
       (Js.replaceRuns Js.isSpace [Js.hyphen] false
          (Js.removeUnless Js.isSlugUnit (Js.toLowerCase title)))).

(** ** Rich-text blocks (contentFormatter.ts) *)

Inductive Mark := strong | em.

(** A span [{_type: 'span', text, marks?}]; [span_marks = None] is a
    span without the [marks] property. *)
Record Span := mkSpan { span_text : jsstring; span_marks : option (list Mark) }.

Inductive Style := h1 | h2 | h3 | blockquote | normal.

(** The two shapes of array elements this module builds:
    [{_type: 'block', style, children}] and
    [{_type: 'image', alt, caption}]. *)
Inductive Block :=
  | TextBlock (style : Style) (children : list Span)
  | ImageBlock (alt caption : jsstring).

(** *** The split of a line on its emphasis separators

    [text.split(re)] where [re] is the global pattern with one capture
    group around the alternation of [\*\*.*?\*\*] and [\*.*?\*]. *)

(** A lazy [.*?] followed by the literal [delim], matched at the start
    of [s]: the shortest run of units that are not line terminators
    after which [delim] occurs.  Returns what was consumed (run and
    delimiter) and the rest. *)
Fixpoint lazyDotThen (delim s : jsstring) {struct s}
    : option (jsstring * jsstring) :=
  if Js.startsWith delim s then Some (delim, drop (length delim) s)
  else
    match s with
    | [] => None
    | c :: s' =>
        if Js.isLineTerminator c then None
        else
          match lazyDotThen delim s' with
          | Some (m, r) => Some (c :: m, r)
          | None => None
          end
    end.

(** The separator pattern matched at the start of [s]: the first
    alternative [\*\*.*?\*\*], and when it fails the second, [\*.*?\*].
    Returns the matched text and the rest. *)
Definition matchEmphasis (s : jsstring) : option (jsstring * jsstring) :=
  let bold :=
    if Js.startsWith [Js.star; Js.star] s then
      match lazyDotThen [Js.star; Js.star] (drop 2 s) with
      | Some (m, r) => Some ([Js.star; Js.star] ++ m, r)
      | None => None
      end
    else None in
  match bold with
  | Some res => Some res
  | None =>
      if Js.startsWith [Js.star] s then
        match lazyDotThen [Js.star] (drop 1 s) with
        | Some (m, r) => Some ([Js.star] ++ m, r)
        | None => None
        end
      else None
  end.

(** The loop of [String.prototype.split] with a separator that has one
    capture group (the whole match) and never matches the empty string:
    [cur] holds, reversed, the units since the end of the last match;
    at each position the separator is tried; on a match the text before
    it and the match are pushed and the scan resumes after it, otherwise
    the scan moves one unit on.  Every step consumes a unit, so
    [length s] steps suffice. *)
Fixpoint splitLoop (steps : nat) (cur s : jsstring) : list jsstring :=
  match steps with
  | O => [reverse cur]
  | S k =>
      match matchEmphasis s with
      | Some (m, r) => reverse cur :: m :: splitLoop k [] r
      | None =>
          match s with
          | [] => [reverse cur]
          | c :: s' => splitLoop k (c :: cur) s'
          end
      end
  end.

Definition splitEmphasis (text : jsstring) : list jsstring :=
  splitLoop (length text) [] text.

(** *** [parseInlineFormatting] *)

(** The body of [parts.forEach]: the spans pushed for one part. *)
Definition spanOfPart (part : jsstring) : list Span :=
  if negb (Js.truthy part) then []
  else if Js.startsWith [Js.star; Js.star] part
          && Js.endsWith [Js.star; Js.star] part
  then [mkSpan (Js.slice 2 2 part) (Some [strong])]
  else if Js.startsWith [Js.star] part && Js.endsWith [Js.star] part
  then [mkSpan (Js.slice 1 1 part) (Some [em])]
  else [mkSpan part None].

Definition parseInlineFormatting (text : jsstring) : list Span :=
  let spans := splitEmphasis text ≫= spanOfPart in
  match spans with
  | [] => [mkSpan text None]
  | _ => spans
  end.

(** *** [formatBlockContent] *)

(** The body of the loop over the lines: the blocks pushed for one
    line. *)
Definition blockOfLine (line : jsstring) : list Block :=
  if negb (Js.truthy (Js.trim line)) then []
  else if Js.startsWith (Js.lit "# ") line
  then [TextBlock h1 [mkSpan (Js.slice_from 2 line) None]]
  else if Js.startsWith (Js.lit "## ") line
  then [TextBlock h2 [mkSpan (Js.slice_from 3 line) None]]
  else if Js.startsWith (Js.lit "### ") line
  then [TextBlock h3 [mkSpan (Js.slice_from 4 line) None]]
  else if Js.startsWith (Js.lit "> ") line
  then [TextBlock blockquote [mkSpan (Js.slice_from 2 line) None]]
  else [TextBlock normal (parseInlineFormatting line)].

Definition formatBlockContent (markdown : jsstring) : list Block :=
  Js.split Js.newline markdown ≫= blockOfLine.

(** ** Generated content (types.ts) *)

(** A value of [content[lang]]: declared as an array of blocks, but the
    formatter also accepts markdown text. *)
Inductive ContentValue :=
  | ContentText (text : jsstring)
  | ContentBlocks (blocks : list Block).

Definition contentTruthy (v : ContentValue) : bool :=
  match v with
  | ContentText s => Js.truthy s
  | ContentBlocks _ => true
  end.

Record Seo := mkSeo {
  metaTitle : gmap jsstring jsstring;
  metaDescription : gmap jsstring jsstring }.

Definition emptySeo : Seo := mkSeo ∅ ∅.

Record FeaturedImage := mkFeaturedImage {
  fi_url : jsstring;
  fi_alt : jsstring;
  fi_photographer : jsstring;
  fi_photographerUrl : jsstring;
  fi_unsplashId : jsstring }.

Record GeneratedContent := mkGeneratedContent {
  gc_title : gmap jsstring jsstring;
  gc_excerpt : gmap jsstring jsstring;
  gc_content : gmap jsstring ContentValue;
  gc_featuredImage : option FeaturedImage;
  gc_seo : option Seo;
  gc_tags : list jsstring }.

(** The object [formatContentForSanity] builds. *)
Record FormattedContent := mkFormattedContent {
  fc_title : gmap jsstring jsstring;
  fc_excerpt : gmap jsstring jsstring;
  fc_content : gmap jsstring (list Block);
  fc_seo : option Seo;
  fc_tags : list jsstring }.

(** [if (src[lang]) dst[lang] = src[lang]] on locale strings. *)
Definition copyIfTruthy (src : gmap jsstring jsstring) (lang : jsstring)
    (dst : gmap jsstring jsstring) : gmap jsstring jsstring :=
  match src !! lang with
  | Some v => if Js.truthy v then <[lang := v]> dst else dst
  | None => dst
  end.

(** ** [formatContentForSanity] *)

Definition languages5 : list jsstring :=
  [Js.lit "ro"; Js.lit "en"; Js.lit "pl"; Js.lit "hu"; Js.lit "cs"].

(** The blocks stored under [formattedContent.content[lang]] for one of
    the five languages: an array is kept, a text is converted. *)
Definition formattedBody (content : GeneratedContent) (lang : jsstring) : option (list Block) :=
  match gc_content content !! lang with
  | Some (ContentBlocks bs) => Some bs
  | Some (ContentText s) => if Js.truthy s then Some (formatBlockContent s) else None
  | None => None
  end.

(** The body of the loop over the five languages. *)
Definition formatLanguage (content : GeneratedContent)
    (fc : FormattedContent) (lang : jsstring) : FormattedContent :=
  let title := copyIfTruthy (gc_title content) lang (fc_title fc) in
  let excerpt := copyIfTruthy (gc_excerpt content) lang (fc_excerpt fc) in
  let body :=
    match gc_content content !! lang with
    | Some (ContentBlocks bs) => <[lang := bs]> (fc_content fc)
    | Some (ContentText s) =>
        if Js.truthy s then <[lang := formatBlockContent s]> (fc_content fc)
        else fc_content fc
    | None => fc_content fc
    end in
  let seo :=
    match gc_seo content, fc_seo fc with
    | Some cs, Some fs =>
        Some (mkSeo (copyIfTruthy (metaTitle cs) lang (metaTitle fs))
                    (copyIfTruthy (metaDescription cs) lang (metaDescription fs)))
    | _, fs => fs
    end in
  mkFormattedContent title excerpt body seo (fc_tags fc).

Definition formatContentForSanity (content : GeneratedContent)
    : FormattedContent :=
  foldl (formatLanguage content)
    (mkFormattedContent ∅ ∅ ∅
       (match gc_seo content with Some _ => Some emptySeo | None => None end)
       (gc_tags content))
    languages5.

(** ** [addImagePlaceholders] *)

(** Arrays are objects with identity: [addImagePlaceholders] either
    returns its argument or a copy it has spliced into.  The store maps
    the references of arrays to their elements. *)
Abbreviation loc := positive.
Abbreviation store := (gmap positive (list Block)).

(** [arr.splice(pos, 0, item)] on the elements of an array; a position
    beyond the end inserts at the end. *)
Definition splice {A} (pos : nat) (item : A) (l : list A) : list A :=
  take pos l ++ item :: drop pos l.

(** The positions of the first loop: [spacing * i] for [i = 1..count]. *)
Definition positions (totalBlocks count : nat) : list nat :=
  (λ i, (totalBlocks / (count + 1)) * i) <$> seq 1 count.

(** The object inserted by the callback called with [index]. *)
Definition placeholder (count index : nat) : Block :=
  ImageBlock
    (Js.lit "[Placeholder " ++ Js.digits (count - index)
       ++ Js.lit ": Add relevant image here]")
    (Js.lit "Replace with appropriate image").

(** [positions.reverse().forEach((pos, index) => newBlocks.splice(...))]
    on the elements of [newBlocks]. *)
Definition insertPlaceholders (count : nat) (ps : list nat)
    (l : list Block) : list Block :=
  foldl (λ acc '(index, pos), splice pos (placeholder count index) acc)
    l (imap pair (reverse ps)).

(** The same loop on the store: each call of the callback updates the
    array [newBlocks] in place. *)
Definition spliceAll (count : nat) (ps : list nat) (newBlocks : loc)
    (σ : store) : store :=
  foldl (λ σ' '(index, pos),
           alter (splice pos (placeholder count index)) newBlocks σ')
    σ (imap pair (reverse ps)).

(** [addImagePlaceholders(blocks, count)] in store [σ]: the returned
    reference and the store after the call.  [None] only when [blocks]
    is not the reference of an array of [σ]. *)
Definition addImagePlaceholders (blocks : loc) (count : nat) (σ : store)
    : option (loc * store) :=
  match σ !! blocks with
  | None => None
  | Some l =>
      let totalBlocks := length l in
      if totalBlocks <? 3 then Some (blocks, σ)
      else
        let newBlocks := fresh (dom σ) in
        let σ1 := <[newBlocks := l]> σ in
        Some (newBlocks, spliceAll count (positions totalBlocks count) newBlocks σ1)
  end.

(** ** The secrets loader (lib/secrets-manager.ts) *)

Inductive Environment := production | staging | development.

Definition CACHE_TIMEOUT : Z := 5 * 60 * 1000.

(** [process.env] is a dictionary of strings. *)
Definition getEnvironment (penv : gmap jsstring jsstring) : Environment :=
  let env := Js.opt_or_else (penv !! Js.lit "NODE_ENV") (Js.lit "development") in
  if decide (penv !! Js.lit "VERCEL_ENV" = Some (Js.lit "production")) then production
  else if decide (penv !! Js.lit "VERCEL_ENV" = Some (Js.lit "preview")) then staging
  else if decide (env = Js.lit "production") then production
  else if decide (env = Js.lit "test" ∨ env = Js.lit "staging") then staging
  else development.

Definition getProjectId (penv : gmap jsstring jsstring) : jsstring :=
  Js.opt_or_else (penv !! Js.lit "GOOGLE_CLOUD_PROJECT")
    (Js.opt_or_else (penv !! Js.lit "GCP_PROJECT_ID")
       (Js.lit "careful-drummer-468512-p0")).

Definition suffixMap (env : Environment) : jsstring :=
  match env with
  | production => Js.lit "_PROD"
  | staging => Js.lit "_STG"
  | development => Js.lit "_DEV"
  end.

(** The test "the secret already has an environment suffix". *)
Definition hasEnvironmentSuffix (secretName : jsstring) : bool :=
  Js.endsWith (Js.lit "_PROD") secretName
  || Js.endsWith (Js.lit "_STG") secretName
  || Js.endsWith (Js.lit "_DEV") secretName.

(** [formatSecretName(secretName, environment?)]; [environment = None]
    is the call without the optional argument. *)
Definition formatSecretName (penv : gmap jsstring jsstring)
    (secretName : jsstring) (environment : option Environment) : jsstring :=
  let env := match environment with
             | Some e => e
             | None => getEnvironment penv
             end in
  let suffix := suffixMap env in
  if hasEnvironmentSuffix secretName
  then secretName
  else
    match env with
    | development => secretName
    | _ => secretName ++ suffix
    end.

(** A thrown error, with the two properties the module reads. *)
Record JsError := mkError { err_code : option N; err_message : jsstring }.

(** What [accessSecretVersion] does: it rejects, or resolves to a
    version whose payload data is present or not. *)
Inductive AccessResult :=
  | AccessRejects (e : JsError)
  | AccessVersion (data : option jsstring).

(** The collaborators of [getSecret]: the process environment, the
    successive readings of [Date.now()], and the secret store, which
    answers a resource name given the calls made before. *)
Record SecretsEnv := mkSecretsEnv {
  processEnv : gmap jsstring jsstring;
  clock : nat → Z;
  accessSecretVersion : list jsstring → jsstring → AccessResult }.

(** The module state: the cache, whether the client exists, and the
    history (number of clock readings, resource names requested from
    the secret store, oldest first). *)
Record SecretsState := mkSecretsState {
  secretsCache : gmap jsstring (jsstring * Z);
  clientReady : bool;
  clockReads : nat;
  accessCalls : list jsstring }.

Record SecretOptions := mkSecretOptions {
  opt_environment : option Environment;
  opt_useCache : option bool;
  opt_projectId : option jsstring }.

Inductive Outcome (A : Type) :=
  | Returns (a : A)
  | Throws (e : JsError).
Arguments Returns {A} a.
Arguments Throws {A} e.

Definition dateNow (E : SecretsEnv) (st : SecretsState) : Z * SecretsState :=
  (clock E (clockReads st),
   mkSecretsState (secretsCache st) (clientReady st) (S (clockReads st))
     (accessCalls st)).

Definition cacheKeyOf (projectId formattedSecretName : jsstring) : jsstring :=
  projectId ++ Js.lit "/" ++ formattedSecretName.

Definition resourceName (projectId formattedSecretName : jsstring) : jsstring :=
  Js.lit "projects/" ++ projectId ++ Js.lit "/secrets/" ++ formattedSecretName
    ++ Js.lit "/versions/latest".

Definition devHelpError (formattedSecretName secretName : jsstring) : JsError :=
  mkError None
    (Js.lit "Failed to fetch secret '" ++ formattedSecretName ++ Js.lit "'. "
     ++ Js.lit "For local development, either:" ++ [Js.newline]
     ++ Js.lit "1. Set up Google Cloud credentials (recommended)" ++ [Js.newline]
     ++ Js.lit "2. Add " ++ secretName
     ++ Js.lit "=<value> to your .env.local file (temporary)").

(** The [catch] block of [getSecret]. *)
Definition rethrow (E : SecretsEnv) (formattedSecretName secretName : jsstring)
    (error : JsError) : JsError :=
  match getEnvironment (processEnv E) with
  | development => devHelpError formattedSecretName secretName
  | _ => error
  end.

(** The [try] block of [getSecret]: the remote fetch and the caching of
    its result. *)
Definition fetchRemote (E : SecretsEnv) (secretName formattedSecretName
    projectId cacheKey : jsstring) (useCache : bool) (st : SecretsState)
    : Outcome jsstring * SecretsState :=
  let name := resourceName projectId formattedSecretName in
  let st1 := mkSecretsState (secretsCache st) true (clockReads st)
               (accessCalls st ++ [name]) in
  match accessSecretVersion E (accessCalls st) name with
  | AccessRejects e =>
      (Throws (rethrow E formattedSecretName secretName e), st1)
  | AccessVersion None =>
      (Throws (rethrow E formattedSecretName secretName
                 (mkError None (Js.lit "Secret " ++ formattedSecretName
                                  ++ Js.lit " has no data"))), st1)
  | AccessVersion (Some secretValue) =>
      if useCache then
        let '(now, st2) := dateNow E st1 in
        (Returns secretValue,
         mkSecretsState (<[cacheKey := (secretValue, now)]> (secretsCache st2))
           (clientReady st2) (clockReads st2) (accessCalls st2))
      else (Returns secretValue, st1)
  end.

(** The part of [getSecret] after the cache check. *)
Definition getSecretUncached (E : SecretsEnv) (secretName formattedSecretName
    projectId cacheKey : jsstring) (useCache : bool) (st : SecretsState)
    : Outcome jsstring * SecretsState :=
  let remote := fetchRemote E secretName formattedSecretName projectId
                  cacheKey useCache st in
  match getEnvironment (processEnv E) with
  | development =>
      match processEnv E !! secretName with
      | Some envValue => if Js.truthy envValue then (Returns envValue, st) else remote
      | None => remote
      end
  | _ => remote
  end.

Definition getSecret (E : SecretsEnv) (secretName : jsstring)
    (options : option SecretOptions) (st : SecretsState)
    : Outcome jsstring * SecretsState :=
  let environment := options ≫= opt_environment in
  let useCache := default true (options ≫= opt_useCache) in
  let projectId := default (getProjectId (processEnv E)) (options ≫= opt_projectId) in
  let formattedSecretName := formatSecretName (processEnv E) secretName environment in
  let cacheKey := cacheKeyOf projectId formattedSecretName in
  let miss st' := getSecretUncached E secretName formattedSecretName projectId
                    cacheKey useCache st' in
  if useCache then
    match secretsCache st !! cacheKey with
    | Some (value, timestamp) =>
        let '(now, st1) := dateNow E st in
        if decide (now - timestamp < CACHE_TIMEOUT)%Z then (Returns value, st1)
        else miss st1
    | None => miss st
    end
  else miss st.

Definition clearSecretsCache (st : SecretsState) : SecretsState :=
  mkSecretsState ∅ (clientReady st) (clockReads st) (accessCalls st).


(** ** The generation hook (types.ts, useGenerateContent.ts) *)

Inductive Tone := professional | casual | friendly.
Inductive Length := short | medium | long.

Record ImageSettings := mkImageSettings {
  featuredImage : bool;
  imageKeywords : jsstring;
  includeInlineImages : bool }.

Record GenerationFormData := mkFormData {
  topic : jsstring;
  category : jsstring;
  keywords : list jsstring;
  languages : list jsstring;
  tone : Tone;
  length_ : Length;
  includeSeo : bool;
  imageSettings : ImageSettings }.

Inductive GenerationState :=
  | idle | validating | searching_images | generating
  | formatting | saving | complete | error.

(** The fields of [GenerationProgress] the hook writes. *)
Record GenerationProgress := mkProgress {
  p_state : GenerationState;
  completedLanguages : list jsstring;
  currentLanguage : option jsstring;
  message : option jsstring }.

(** The three pieces of React state of the hook. *)
Record HookState := mkHook {
  hook_state : GenerationState;
  hook_progress : GenerationProgress;
  hook_error : option jsstring }.

Record UnsplashImage := mkImage {
  img_id : jsstring;
  img_urls_regular : jsstring;
  img_alt_description : jsstring;
  img_description : jsstring;
  img_user_name : jsstring;
  img_user_links_html : jsstring;
  img_links_html : jsstring }.

(** A thrown value: an [Error] with its name and message, or anything
    else. *)
Inductive Thrown :=
  | ErrorObject (name message : jsstring)
  | NotAnError.

(** The settlement of a promise. *)
Inductive Completion (A : Type) :=
  | Resolved (a : A)
  | Rejected (err : Thrown).
Arguments Resolved {A} a.
Arguments Rejected {A} err.

(** The settlement of [fetch]: it rejects, or resolves to a response
    with its [ok] flag and what parsing its body gives.  A body is
    described at its declared shape; reading a body that does not have
    that shape throws, as a rejected parse does. *)
Inductive Fetch (A : Type) :=
  | FetchRejects (err : Thrown)
  | FetchResponse (ok : bool) (body : Completion A).
Arguments FetchRejects {A} err.
Arguments FetchResponse {A} ok body.

(** The body of the image search: [results] may be missing. *)
Record SearchBody := mkSearchBody { results : option (list UnsplashImage) }.

(** The body of the per-language endpoint, every property optional. *)
Record LangSeo := mkLangSeo {
  ls_metaTitle : option (gmap jsstring jsstring);
  ls_metaDescription : option (gmap jsstring jsstring) }.

Record LangContent := mkLangContent {
  lc_title : option (gmap jsstring jsstring);
  lc_excerpt : option (gmap jsstring jsstring);
  lc_content : option (gmap jsstring ContentValue);
  lc_seo : option LangSeo;
  lc_tags : option (list jsstring) }.

(** The requests a run issues, as observed on the network. *)
Inductive Request :=
  | SearchRequest (url query : jsstring) (perPage : nat)
  | GenerateRequest (url lang : jsstring)
  | ImageDownload (url : jsstring)
  | AssetUpload (filename : jsstring).

(** The collaborators of a run.  [generateArticle i url lang] is the
    settlement of the [i]-th request (from 0) of the loop. *)
Record GenEnv := mkGenEnv {
  hostname : jsstring;
  searchImages : jsstring → jsstring → Fetch SearchBody;
  generateArticle : nat → jsstring → jsstring → Fetch LangContent;
  downloadImage : jsstring → Fetch unit;
  assetsUpload : jsstring → Completion jsstring;
  isoNow : jsstring }.

(** The state threaded through a run: the hook's React state and the
    requests issued so far, oldest first. *)
Record World := mkWorld { hook : HookState; requests : list Request }.

Definition setState (s : GenerationState) (w : World) : World :=
  mkWorld (mkHook s (hook_progress (hook w)) (hook_error (hook w))) (requests w).

Definition setError (e : option jsstring) (w : World) : World :=
  mkWorld (mkHook (hook_state (hook w)) (hook_progress (hook w)) e) (requests w).

Definition setProgress (f : GenerationProgress → GenerationProgress)
    (w : World) : World :=
  mkWorld (mkHook (hook_state (hook w)) (f (hook_progress (hook w)))
             (hook_error (hook w))) (requests w).

(** [prev => ({...prev, state: s})] *)
Definition withState (s : GenerationState) (prev : GenerationProgress)
    : GenerationProgress :=
  mkProgress s (completedLanguages prev) (currentLanguage prev) (message prev).

Definition issue (r : Request) (w : World) : World :=
  mkWorld (hook w) (requests w ++ [r]).

Definition apiUrl (E : GenEnv) (path : jsstring) : jsstring :=
  if decide (hostname E = Js.lit "lupito.sanity.studio")
  then Js.lit "https://lupito.pet" ++ path
  else path.

(** *** [uploadImageToSanity] (imageHandler.ts) *)

Definition uploadImageToSanity (E : GenEnv) (imageUrl : jsstring)
    (unsplashData : UnsplashImage) (w : World) : Completion jsstring * World :=
  let failed := Rejected (ErrorObject (Js.lit "Error") (Js.lit "Failed to upload image")) in
  let w1 := issue (ImageDownload imageUrl) w in
  match downloadImage E imageUrl with
  | FetchRejects _ => (failed, w1)
  | FetchResponse false _ => (failed, w1)
  | FetchResponse true (Rejected _) => (failed, w1)
  | FetchResponse true (Resolved _) =>
      let filename := Js.lit "unsplash-" ++ img_id unsplashData ++ Js.lit ".jpg" in
      let w2 := issue (AssetUpload filename) w1 in
      match assetsUpload E filename with
      | Resolved id => (Resolved id, w2)
      | Rejected _ => (failed, w2)
      end
  end.

(** *** Step 2 of [generate]: the featured-image search *)

Definition searchFeaturedImage (E : GenEnv) (formData : GenerationFormData)
    (w : World) : Completion (option UnsplashImage) * World :=
  if featuredImage (imageSettings formData) then
    let w1 := setProgress (withState searching_images) (setState searching_images w) in
    let imageQuery := Js.or_else (imageKeywords (imageSettings formData)) (topic formData) in
    let url := apiUrl E (Js.lit "/api/unsplash-search") in
    let w2 := issue (SearchRequest url imageQuery 1) w1 in
    match searchImages E url imageQuery with
    | FetchRejects err => (Rejected err, w2)
    | FetchResponse true (Rejected err) => (Rejected err, w2)
    | FetchResponse true (Resolved imageData) =>
        match results imageData with
        | Some (first :: _) => (Resolved (Some first), w2)
        | _ => (Resolved None, w2)
        end
    | FetchResponse false _ => (Resolved None, w2)
    end
  else (Resolved None, w).

(** *** Step 3 of [generate]: the loop over the languages *)

(** [Array.from(new Set(xs))]: the elements in the order of their first
    occurrence. *)
Definition arrayFromSet (xs : list jsstring) : list jsstring :=
  foldl (λ seen x, if decide (x ∈ seen) then seen else seen ++ [x]) [] xs.

(** A statement of the merge: it updates the content, and may throw a
    [TypeError] (first component [false]) when it reads a property of
    [undefined]. *)
Definition Stmt := GeneratedContent → bool * GeneratedContent.

Definition andThen (a b : Stmt) : Stmt :=
  λ gc, let '(ok, gc1) := a gc in if ok then b gc1 else (false, gc1).

Definition mergeTitle (lang : jsstring) (lc : LangContent) : Stmt := λ gc,
  match lc_title lc with
  | None => (false, gc)
  | Some t =>
      (true, mkGeneratedContent (copyIfTruthy t lang (gc_title gc)) (gc_excerpt gc)
               (gc_content gc) (gc_featuredImage gc) (gc_seo gc) (gc_tags gc))
  end.

Definition mergeExcerpt (lang : jsstring) (lc : LangContent) : Stmt := λ gc,
  match lc_excerpt lc with
  | None => (false, gc)
  | Some t =>
      (true, mkGeneratedContent (gc_title gc) (copyIfTruthy t lang (gc_excerpt gc))
               (gc_content gc) (gc_featuredImage gc) (gc_seo gc) (gc_tags gc))
  end.

Definition mergeContent (lang : jsstring) (lc : LangContent) : Stmt := λ gc,
  match lc_content lc with
  | None => (false, gc)
  | Some c =>
      let body :=
        match c !! lang with
        | Some v => if contentTruthy v then <[lang := v]> (gc_content gc)
                    else gc_content gc
        | None => gc_content gc
        end in
      (true, mkGeneratedContent (gc_title gc) (gc_excerpt gc) body
               (gc_featuredImage gc) (gc_seo gc) (gc_tags gc))
  end.

Definition withSeo (seo : Seo) (gc : GeneratedContent) : GeneratedContent :=
  mkGeneratedContent (gc_title gc) (gc_excerpt gc) (gc_content gc)
    (gc_featuredImage gc) (Some seo) (gc_tags gc).

(** One of the two guarded assignments into [generatedContent.seo]. *)
Definition mergeSeoField (src : option (gmap jsstring jsstring))
    (lang : jsstring) (put : gmap jsstring jsstring → Seo → Seo)
    (get : Seo → gmap jsstring jsstring) : Stmt := λ gc,
  match src with
  | None => (false, gc)
  | Some m =>
      match m !! lang with
      | Some v =>
          if Js.truthy v then
            match gc_seo gc with
            | Some seo => (true, withSeo (put (<[lang := v]> (get seo)) seo) gc)
            | None => (false, gc)
            end
          else (true, gc)
      | None => (true, gc)
      end
  end.

Definition mergeSeo (includeSeo : bool) (lang : jsstring) (lc : LangContent)
    : Stmt :=
  match includeSeo, lc_seo lc with
  | true, Some ls =>
      andThen
        (mergeSeoField (ls_metaTitle ls) lang
           (λ m seo, mkSeo m (metaDescription seo)) metaTitle)
        (mergeSeoField (ls_metaDescription ls) lang
           (λ m seo, mkSeo (metaTitle seo) m) metaDescription)
  | _, _ => λ gc, (true, gc)
  end.

(** The merge of the tags; [completed] is the loop counter
    [completedLanguages]. *)
Definition mergeTags (completed : nat) (lc : LangContent) : Stmt := λ gc,
  match decide (completed = 1), lc_tags lc with
  | left _, Some tags =>
      (true, mkGeneratedContent (gc_title gc) (gc_excerpt gc) (gc_content gc)
               (gc_featuredImage gc) (gc_seo gc)
               (arrayFromSet (gc_tags gc ++ tags)))
  | _, _ => (true, gc)
  end.

(** What the loop body does with a parsed body up to the end of its
    [try] block. *)
Definition mergeLanguage (includeSeo : bool) (completed : nat)
    (lang : jsstring) (lc : LangContent) : Stmt :=
  andThen (mergeTitle lang lc)
    (andThen (mergeExcerpt lang lc)
       (andThen (mergeContent lang lc)
          (andThen (mergeSeo includeSeo lang lc) (mergeTags completed lc)))).

Definition progressMessage (lang : jsstring) (completed total : nat) : jsstring :=
  Js.lit "Generating " ++ Js.toUpperCase lang ++ Js.lit " content ("
    ++ Js.digits completed ++ Js.lit "/" ++ Js.digits total ++ Js.lit ")...".

(** One iteration, entered with the counter already incremented to
    [completed].  A failed request, a failed parse and a [TypeError] of
    the merge all end the iteration and keep what was merged before. *)
Definition generateLanguage (E : GenEnv) (formData : GenerationFormData)
    (url : jsstring) (completed : nat) (lang : jsstring)
    (st : GeneratedContent * World) : GeneratedContent * World :=
  let '(gc, w) := st in
  let total := length (languages formData) in
  let w1 := setProgress
              (λ _, mkProgress generating [] (Some lang)
                      (Some (progressMessage lang completed total))) w in
  let w2 := issue (GenerateRequest url lang) w1 in
  match generateArticle E (completed - 1) url lang with
  | FetchResponse true (Resolved langContent) =>
      (snd (mergeLanguage (includeSeo formData) completed lang langContent gc), w2)
  | _ => (gc, w2)
  end.

(** [for (const lang of formData.languages)], entered with the counter
    at [completed]. *)
Fixpoint generateLoop (E : GenEnv) (formData : GenerationFormData)
    (url : jsstring) (langs : list jsstring) (completed : nat)
    (st : GeneratedContent * World) : GeneratedContent * World :=
  match langs with
  | [] => st
  | lang :: rest =>
      generateLoop E formData url rest (S completed)
        (generateLanguage E formData url (S completed) lang st)
  end.

(** *** [generate] *)

Record ImageField := mkImageField {
  asset_ref : jsstring;
  image_alt : option jsstring;
  image_caption : option jsstring }.

Record DocumentData := mkDocumentData {
  doc_title : gmap jsstring jsstring;
  doc_slug : jsstring;
  doc_excerpt : gmap jsstring jsstring;
  doc_featuredImage : option ImageField;
  doc_content : gmap jsstring (list Block);
  doc_categories : list jsstring;
  doc_tags : list jsstring;
  doc_seo : option Seo;
  doc_publishedAt : jsstring;
  doc_featured : bool }.

(** The object [generatedContent] before the loop. *)
Definition initialContent (formData : GenerationFormData)
    (image : option UnsplashImage) : GeneratedContent :=
  mkGeneratedContent ∅ ∅ ∅
    ((λ img, mkFeaturedImage (img_urls_regular img)
               (Js.or_else (img_alt_description img)
                  (Js.lit "Image related to " ++ topic formData))
               (img_user_name img) (img_user_links_html img) (img_id img))
       <$> image)
    (if includeSeo formData then Some emptySeo else None)
    (keywords formData).

(** Step 5: the upload of the featured image, whose failure is caught. *)
Definition uploadFeaturedImage (E : GenEnv) (image : option UnsplashImage)
    (gc : GeneratedContent) (w : World) : option jsstring * World :=
  match image, gc_featuredImage gc with
  | Some img, Some fi =>
      match uploadImageToSanity E (fi_url fi) img w with
      | (Resolved id, w') => (Some id, w')
      | (Rejected _, w') => (None, w')
      end
  | _, _ => (None, w)
  end.

(** Step 6: the document data. *)
Definition documentData (E : GenEnv) (formData : GenerationFormData)
    (gc : GeneratedContent) (formattedContent : FormattedContent)
    (imageAssetId : option jsstring) : DocumentData :=
  mkDocumentData
    (fc_title formattedContent)
    (generateSlug
       (Js.opt_or_else (fc_title formattedContent !! Js.lit "ro")
          (Js.opt_or_else (fc_title formattedContent !! Js.lit "en") [])))
    (fc_excerpt formattedContent)
    (match imageAssetId with
     | Some id =>
         if Js.truthy id then
           Some (mkImageField id (fi_alt <$> gc_featuredImage gc)
                   ((λ fi, Js.lit "Photo by " ++ fi_photographer fi)
                      <$> gc_featuredImage gc))
         else None
     | None => None
     end)
    (fc_content formattedContent)
    (if Js.truthy (category formData) then [category formData] else [])
    (gc_tags gc)
    (gc_seo gc)
    (isoNow E)
    false.

(** The [catch] block of [generate]. *)
Definition errorMessageOf (err : Thrown) : jsstring :=
  match err with
  | ErrorObject name message =>
      if decide (name = Js.lit "AbortError")
      then Js.lit "Generation timed out. The request took too long. Try with a shorter article or simpler topic."
      else message
  | NotAnError => Js.lit "An error occurred during generation"
  end.

Definition fail (err : Thrown) (w : World) : Completion DocumentData * World :=
  (Rejected err,
   setProgress (withState error)
     (setError (Some (errorMessageOf err)) (setState error w))).

Definition validationError : Thrown :=
  ErrorObject (Js.lit "Error") (Js.lit "Topic and at least one language are required").

Definition generateApiUrl (E : GenEnv) : jsstring :=
  apiUrl E (Js.lit "/api/generate-article").

(** The hook after the three setters that open [generate], with no
    request issued yet. *)
Definition startWorld : World :=
  mkWorld (mkHook validating (mkProgress validating [] None None) None) [].

(** [generate(formData, documentId)]: the settlement of the returned
    promise, the React state of the hook and the requests issued.

    The bodies of the responses are taken at their declared interface
    types ([UnsplashImage], the article body with its locale strings).
    For such bodies the statements after the loop do not throw, so the
    only throws of this model are the validation error and those of the
    image search.  A body that breaks its interface (a search result
    without [urls] or [user], a title that is not a string when the slug
    is built) would throw after the search step and outside the
    [try]/[catch] of the loop; such bodies are outside this model, and
    no property below concludes, from the fact that a run threw, where
    the throw came from. *)
Definition generate (E : GenEnv) (formData : GenerationFormData)
    (documentId : jsstring) : Completion DocumentData * World :=
  let w0 := startWorld in
  if negb (Js.truthy (topic formData)) || (length (languages formData) =? 0)
  then fail validationError w0
  else
    match searchFeaturedImage E formData w0 with
    | (Rejected err, w1) => fail err w1
    | (Resolved image, w1) =>
        let w2 := setState generating w1 in
        let url := generateApiUrl E in
        let '(gc, w3) :=
          generateLoop E formData url (languages formData) 0
            (initialContent formData image, w2) in
        let w4 := setProgress (withState formatting) (setState formatting w3) in
        let formattedContent := formatContentForSanity gc in
        let '(imageAssetId, w5) := uploadFeaturedImage E image gc w4 in
        let w6 := setProgress (withState saving) (setState saving w5) in
        let data := documentData E formData gc formattedContent imageAssetId in
        let w7 :=
          setProgress (λ _, mkProgress complete (languages formData) None None)
            (setState complete w6) in
        (Resolved data, w7)
    end.

(** *** Vocabulary of the properties of [generate] *)

(** A request succeeded when [fetch] resolved to an ok response whose
    body could be read; it failed otherwise (rejected [fetch], non-ok
    response, rejected parse). *)
Definition requestSucceeded {A} (r : Fetch A) : bool :=
  match r with
  | FetchResponse true (Resolved _) => true
  | _ => false
  end.

(** The featured-image step does not throw. *)
Definition searchSettles (E : GenEnv) (formData : GenerationFormData) : bool :=
  match fst (searchFeaturedImage E formData startWorld) with
  | Resolved _ => true
  | Rejected _ => false
  end.

(** A body in which every property the merge reads is present. *)
Definition wellShaped (lc : LangContent) : Prop :=
  is_Some (lc_title lc) ∧ is_Some (lc_excerpt lc) ∧ is_Some (lc_content lc)
  ∧ ∀ ls, lc_seo lc = Some ls →
          is_Some (ls_metaTitle ls) ∧ is_Some (ls_metaDescription ls).

(** The languages under which a content has a title, an excerpt or a
    body. *)
Definition entries (gc : GeneratedContent) : gset jsstring :=
  dom (gc_title gc) ∪ dom (gc_excerpt gc) ∪ dom (gc_content gc).

(** ** Sample runs *)

(** A form asking for English then Romanian, with a featured image. *)
Definition sampleForm : GenerationFormData :=
  mkFormData (Js.lit "x") [] [Js.lit "k"] [Js.lit "en"; Js.lit "ro"]
    friendly short true (mkImageSettings true [] false).

Definition sampleMarkdown : jsstring :=
  Js.join Js.newline
    [Js.lit "# Title"; []; Js.lit "**bold** and *italic*"; Js.lit "   "].

(** The body the endpoint answers for [lang]. *)
Definition sampleBody (lang : jsstring) : LangContent :=
  mkLangContent
    (Some {[ lang := Js.lit "Câine fericit!" ]})
    (Some {[ lang := Js.lit "Un articol" ]})
    (Some {[ lang := ContentText sampleMarkdown ]})
    None
    (Some [Js.lit "a"; Js.lit "k"]).

Definition fetchFailed : Thrown :=
  ErrorObject (Js.lit "TypeError") (Js.lit "Failed to fetch").

(** A content whose English body is the sample text. *)
Definition sampleContent : GeneratedContent :=
  mkGeneratedContent ∅ ∅ {[ Js.lit "en" := ContentText sampleMarkdown ]}
    None None [].

(** Collaborators: the image search answers with a non-ok response, and
    the [failing]-th generation request (from 0) is rejected while the
    others succeed. *)
Definition sampleEnv (failing : option nat) : GenEnv :=
  mkGenEnv (Js.lit "localhost")
    (λ _ _, FetchResponse false (Rejected NotAnError))
    (λ i _ lang, if decide (failing = Some i) then FetchRejects fetchFailed
                 else FetchResponse true (Resolved (sampleBody lang)))
    (λ _, FetchRejects fetchFailed)
    (λ _, Rejected fetchFailed)
    (Js.lit "2025-09-19T00:00:00.000Z").

(** Collaborators whose image search is rejected (the network is
    down). *)
Definition offlineSearchEnv : GenEnv :=
  mkGenEnv (Js.lit "localhost")
    (λ _ _, FetchRejects fetchFailed)
    (λ _ _ lang, FetchResponse true (Resolved (sampleBody lang)))
    (λ _, FetchRejects fetchFailed)
    (λ _, Rejected fetchFailed)
    (Js.lit "2025-09-19T00:00:00.000Z").

(** A production process whose clock advances by one second per
    reading and whose secret store holds one value for every name. *)
Definition sampleSecretsEnv : SecretsEnv :=
  mkSecretsEnv {[ Js.lit "NODE_ENV" := Js.lit "production" ]}
    (λ n, 1000 * Z.of_nat n)%Z
    (λ _ _, AccessVersion (Some (Js.lit "s3cret"))).

Definition freshSecretsState : SecretsState := mkSecretsState ∅ false 0 [].

(** ** Further functions of the sources *)

(** *** [getSecretWithFallback] (lib/secrets-manager.ts) *)

(** [getSecretWithFallback(secretName, envVarName?)]: the value, or
    [None] for [undefined]; a rejected [getSecret] is caught. *)
Definition getSecretWithFallback (E : SecretsEnv) (secretName : jsstring)
    (envVarName : option jsstring) (st : SecretsState)
    : option jsstring * SecretsState :=
  let variable := Js.opt_or_else envVarName secretName in
  let viaSecretManager :=
    match getSecret E secretName None st with
    | (Returns value, st') => (Some value, st')
    | (Throws _, st') => (None, st')
    end in
  match processEnv E !! variable with
  | Some envValue =>
      if Js.truthy envValue then (Some envValue, st) else viaSecretManager
  | None => viaSecretManager
  end.

(** *** Vocabulary of the properties of the formatter *)

Definition notStar (c : N) : Prop := c ≠ Js.star.

(** The text a list of spans displays. *)
Definition spansText (spans : list Span) : jsstring :=
  concat (span_text <$> spans).

(** *** Vocabulary of the properties of [generateSlug] *)

(** The units a slug is made of: [a-z], [0-9], the underscore and the
    hyphen. *)
Definition slugAlphabet (c : N) : bool :=
  ((97 <=? c) && (c <=? 122) || (48 <=? c) && (c <=? 57) || (c =? 95)
   || (c =? 45))%N.

(** The strings whose code units all lie below U+0100 (Basic Latin and
    Latin-1 Supplement), on which [Js.toLowerCase] is the source's
    [toLowerCase]. *)
Definition latin1 (s : jsstring) : bool := forallb (λ c, (c <? 256)%N) s.

(** The strings whose code units all lie below U+0080 (Basic Latin), on
    which [Js.toUpperCase] is the source's [toUpperCase]. *)
Definition basicLatin (s : jsstring) : bool := forallb (λ c, (c <? 128)%N) s.

(** No two hyphens in a row. *)
Fixpoint noHyphenPair (s : jsstring) : Prop :=
  match s with
  | a :: (b :: _) as rest => ¬ (a = Js.hyphen ∧ b = Js.hyphen) ∧ noHyphenPair rest
  | _ => True
  end.

(** The placeholder that carries the number [n]. *)
Definition numberedPlaceholder (n : nat) : Block :=
  ImageBlock
    (Js.lit "[Placeholder " ++ Js.digits n ++ Js.lit ": Add relevant image here]")
    (Js.lit "Replace with appropriate image").

(** *** Further sample collaborators of the secrets loader *)

Definition notFound : JsError := mkError (Some 5%N) (Js.lit "NOT_FOUND").

(** A production process whose secret store rejects every request. *)
Definition failingSecretsEnv : SecretsEnv :=
  mkSecretsEnv {[ Js.lit "NODE_ENV" := Js.lit "production" ]}
    (λ n, 1000 * Z.of_nat n)%Z
    (λ _ _, AccessRejects notFound).

(** A development process with a local override of one secret, and a
    secret store that rejects every request. *)
Definition devSecretsEnv : SecretsEnv :=
  mkSecretsEnv {[ Js.lit "SANITY_API_TOKEN" := Js.lit "local" ]}
    (λ n, 1000 * Z.of_nat n)%Z
    (λ _ _, AccessRejects notFound).

(** A production process whose clock advances by ten minutes per
    reading. *)
Definition slowClockSecretsEnv : SecretsEnv :=
  mkSecretsEnv {[ Js.lit "NODE_ENV" := Js.lit "production" ]}
    (λ n, 600000 * Z.of_nat n)%Z
    (λ _ _, AccessVersion (Some (Js.lit "s3cret"))).

(** *** Further vocabulary of the properties of [generate] *)

(** The title, excerpt and body a content holds under a language. *)
Definition entryOf (gc : GeneratedContent) (k : jsstring)
    : option jsstring * option jsstring * option ContentValue :=
  (gc_title gc !! k, gc_excerpt gc !! k, gc_content gc !! k).

(** The requests of [uploadImageToSanity]. *)
Definition isUploadRequest (r : Request) : bool :=
  match r with
  | ImageDownload _ | AssetUpload _ => true
  | _ => false
  end.

(** The search request of step 2, when the featured image is asked
    for. *)
Definition searchRequests (E : GenEnv) (formData : GenerationFormData)
    : list Request :=
  if featuredImage (imageSettings formData)
  then [SearchRequest (apiUrl E (Js.lit "/api/unsplash-search"))
          (Js.or_else (imageKeywords (imageSettings formData)) (topic formData)) 1]
  else [].

(** A found image whose download and upload succeed. *)
Definition sampleImage : UnsplashImage :=
  mkImage (Js.lit "abc") (Js.lit "https://images.unsplash.com/abc") []
    (Js.lit "A dog") (Js.lit "Ana") (Js.lit "https://unsplash.com/@ana")
    (Js.lit "https://unsplash.com/photos/abc").

Definition imageEnv (uploads : bool) : GenEnv :=
  mkGenEnv (Js.lit "lupito.sanity.studio")
    (λ _ _, FetchResponse true (Resolved (mkSearchBody (Some [sampleImage]))))
    (λ _ _ lang, FetchResponse true (Resolved (sampleBody lang)))
    (λ _, FetchResponse true (Resolved tt))
    (λ _, if uploads then Resolved (Js.lit "image-1") else Rejected fetchFailed)
    (Js.lit "2025-09-19T00:00:00.000Z").

(** *** [useUnsplashSearch] (hooks/useUnsplashSearch.ts) *)

(** The three pieces of React state of the hook. *)
Record SearchHook := mkSearchHook {
  images : list UnsplashImage;
  loading : bool;
  searchError : option jsstring }.

Definition searchFailedMessage : jsstring := Js.lit "Failed to search images".

(** [err instanceof Error ? err.message : 'Failed to search images'] *)
Definition searchErrorOf (err : Thrown) : jsstring :=
  match err with
  | ErrorObject _ message => message
  | NotAnError => searchFailedMessage
  end.

(** [search(query)]: the state of the hook when the returned promise
    settles (it always resolves) and the request issued. *)
Definition search (E : GenEnv) (query : jsstring) : SearchHook * list Request :=
  let url := apiUrl E (Js.lit "/api/unsplash-search") in
  let started := mkSearchHook [] true None in
  let caught err :=
    mkSearchHook (images started) (loading started) (Some (searchErrorOf err)) in
  let settled :=
    match searchImages E url query with
    | FetchRejects err => caught err
    | FetchResponse false _ =>
        caught (ErrorObject (Js.lit "Error") searchFailedMessage)
    | FetchResponse true (Rejected err) => caught err
    | FetchResponse true (Resolved data) =>
        mkSearchHook (default [] (results data)) (loading started)
          (searchError started)
    end in
  (mkSearchHook (images settled) false (searchError settled),
   [SearchRequest url query 9]).

(** *** [ProgressIndicator] (components/ProgressIndicator.tsx) *)

(** The [switch] of [getProgressPercentage]. *)
Definition currentStep (state : GenerationState) : nat :=
  match state with
  | validating => 1
  | searching_images => 2
  | generating => 3
  | formatting => 4
  | saving | complete => 5
  | idle | error => 0
  end.

(** [Math.round(a / b)] for natural numbers [a] and [b > 0]: the
    nearest integer, halves upwards. *)
Definition roundDiv (a b : nat) : nat := (2 * a + b) / (2 * b).

(** [Math.round((currentStep / totalSteps) * 100)] with
    [totalSteps = 5]. *)
Definition getProgressPercentage (state : GenerationState) : nat :=
  roundDiv (currentStep state * 100) 5.

(** The [switch] of [getStateMessage]. *)
Definition defaultStateMessage (state : GenerationState)
    (progress : GenerationProgress) : jsstring :=
  match state with
  | validating => Js.lit "Validating input..."
  | searching_images => Js.lit "Searching for images..."
  | generating =>
      if Js.truthy (default [] (currentLanguage progress))
      then Js.lit "Generating content in " ++ default [] (currentLanguage progress)
             ++ Js.lit "..."
      else Js.lit "Generating content..."
  | formatting => Js.lit "Formatting content..."
  | saving => Js.lit "Saving document..."
  | complete => Js.lit "Generation complete!"
  | idle | error => Js.lit "Processing..."
  end.

Definition getStateMessage (state : GenerationState)
    (progress : GenerationProgress) : jsstring :=
  if Js.truthy (default [] (message progress))
  then default [] (message progress)
  else defaultStateMessage state progress.

(** The position of a phase in the order in which [generate] goes
    through them. *)
Definition phaseOrder (state : GenerationState) : nat :=
  match state with
  | idle => 0
  | validating => 1
  | searching_images => 2
  | generating => 3
  | formatting => 4
  | saving => 5
  | complete => 6
  | error => 0
  end.

(** *** The keywords field and [handleSubmit] (GenerateModal.tsx) *)

Definition comma : N := 44%N.
Definition space : N := 32%N.

(** The [onChange] of the keywords input:
    [value.split(',').map(k => k.trim()).filter(Boolean)]. *)
Definition parseKeywords (value : jsstring) : list jsstring :=
  filter (λ k, Js.truthy k = true) (Js.trim <$> Js.split comma value).

(** The [value] of the keywords input: [keywords.join(', ')]. *)
Fixpoint keywordsValue (keywords : list jsstring) : jsstring :=
  match keywords with
  | [] => []
  | [k] => k
  | k :: rest => k ++ comma :: space :: keywordsValue rest
  end.

(** What a click on the submit button leads to: the run of [generate]
    if there was one, the payload handed to [onSuccess] if it was
    called, and whether the closing of the dialog was scheduled. *)
Record Submission := mkSubmission {
  run : option (Completion DocumentData * World);
  handedOver : option DocumentData;
  closeScheduled : bool }.

(** [handleSubmit]; [onSuccess] says whether the callback was given (a
    callback that is given is taken to return). *)
Definition handleSubmit (E : GenEnv) (formData : GenerationFormData)
    (documentId : jsstring) (onSuccess : bool) : Submission :=
  if negb (Js.truthy (topic formData)) || (length (languages formData) =? 0)
  then mkSubmission None None false
  else
    match generate E formData documentId with
    | (Resolved generatedData, w) =>
        mkSubmission (Some (Resolved generatedData, w))
          (if onSuccess then Some generatedData else None) true
    | (Rejected err, w) =>
        mkSubmission (Some (Rejected err, w)) None false
    end.

(** * Properties *)

(** A decidable proposition about closed terms, settled by evaluating
    its decision procedure. *)
Ltac by_computation :=
  refine (bool_decide_unpack _ _); vm_compute; exact I.

(** ** Strings *)

Section StringFacts.

Implicit Types (s l : jsstring) (c sep : N).

Lemma split_no_sep sep l : sep ∉ l → Js.split sep l = [l].
Proof.
  induction l as [|c l IH]; intros Hl; [done|].
  apply not_elem_of_cons in Hl as [Hc Hl]. simpl.
  destruct (N.eqb_spec c sep) as [->|_]; [done|].
  by rewrite IH.
Qed.

Lemma split_app_sep sep l s :
  sep ∉ l → Js.split sep (l ++ sep :: s) = l :: Js.split sep s.
Proof.
  induction l as [|c l IH]; intros Hl; simpl.
  - by rewrite N.eqb_refl.
  - apply not_elem_of_cons in Hl as [Hc Hl].
    destruct (N.eqb_spec c sep) as [->|_]; [done|].
    by rewrite IH.
Qed.

(** Splitting what was joined gives the lines back. *)
Lemma split_join sep (lines : list jsstring) :
  Forall (λ l, sep ∉ l) lines → lines ≠ [] →
  Js.split sep (Js.join sep lines) = lines.
Proof.
  induction 1 as [|l lines Hl Hlines IH]; intros Hne; [done|].
  destruct lines as [|l' lines]; simpl.
  - by apply split_no_sep.
  - rewrite split_app_sep by done. f_equal. by apply IH.
Qed.

End StringFacts.

(** ** The formatter *)

Section Formatter.

Implicit Types (content : GeneratedContent) (fc : FormattedContent)
  (lang k : jsstring).

Lemma copyIfTruthy_lookup (src dst : gmap jsstring jsstring) lang k :
  copyIfTruthy src lang dst !! k =
    if decide (k = lang)
    then match src !! lang with
         | Some v => if Js.truthy v then Some v else dst !! k
         | None => dst !! k
         end
    else dst !! k.
Proof.
  unfold copyIfTruthy. case_decide as Hk; subst.
  - destruct (src !! lang) as [v|]; [|done].
    destruct (Js.truthy v); [by rewrite lookup_insert_eq|done].
  - destruct (src !! lang) as [v|]; [|done].
    destruct (Js.truthy v); [by rewrite lookup_insert_ne|done].
Qed.

Lemma formatLanguage_content content fc lang k :
  fc_content (formatLanguage content fc lang) !! k =
    if decide (k = lang)
    then match formattedBody content lang with
         | Some bs => Some bs
         | None => fc_content fc !! k
         end
    else fc_content fc !! k.
Proof.
  unfold formatLanguage, formattedBody; simpl.
  case_decide as Hk; subst.
  - destruct (gc_content content !! lang) as [[s|bs]|]; [|by rewrite lookup_insert_eq|done].
    destruct (Js.truthy s); [by rewrite lookup_insert_eq|done].
  - destruct (gc_content content !! lang) as [[s|bs]|]; [|by rewrite lookup_insert_ne|done].
    destruct (Js.truthy s); [by rewrite lookup_insert_ne|done].
Qed.

Lemma foldl_formatLanguage_content content langs fc k :
  fc_content (foldl (formatLanguage content) fc langs) !! k =
    if decide (k ∈ langs)
    then match formattedBody content k with
         | Some bs => Some bs
         | None => fc_content fc !! k
         end
    else fc_content fc !! k.
Proof.
  revert fc. induction langs as [|l langs IH]; intros fc.
  - case_decide as Hin; [by apply elem_of_nil in Hin|done].
  - cbn [foldl]. rewrite IH, formatLanguage_content.
    destruct (decide (k = l)) as [->|Hne].
    + rewrite (decide_True (P := l ∈ l :: langs)) by apply list_elem_of_here.
      destruct (formattedBody content l); by case_decide.
    + destruct (decide (k ∈ langs)) as [Hin|Hnin].
      * by rewrite decide_True by (by apply list_elem_of_further).
      * rewrite decide_False; [done|]. by intros [?|?]%elem_of_cons.
Qed.

(** The body of each of the five languages is formatted by
    [formatBlockContent] when it is text. *)
Lemma formatContentForSanity_content content lang :
  lang ∈ languages5 →
  fc_content (formatContentForSanity content) !! lang = formattedBody content lang.
Proof.
  intros Hin. unfold formatContentForSanity.
  rewrite foldl_formatLanguage_content, decide_True by done.
  simpl. by destruct (formattedBody content lang).
Qed.

Lemma foldl_formatLanguage_title content langs fc k v :
  fc_title (foldl (formatLanguage content) fc langs) !! k = Some v →
  fc_title fc !! k = Some v ∨ gc_title content !! k = Some v.
Proof.
  revert fc. induction langs as [|l langs IH]; intros fc; simpl; [by left|].
  intros [H|H]%IH; [|by right]. simpl in H.
  rewrite copyIfTruthy_lookup in H. case_decide; subst; [|by left].
  destruct (gc_title content !! l) as [t|] eqn:Ht; [|by left].
  destruct (Js.truthy t); [by right|by left].
Qed.

Lemma foldl_formatLanguage_excerpt content langs fc k v :
  fc_excerpt (foldl (formatLanguage content) fc langs) !! k = Some v →
  fc_excerpt fc !! k = Some v ∨ gc_excerpt content !! k = Some v.
Proof.
  revert fc. induction langs as [|l langs IH]; intros fc; simpl; [by left|].
  intros [H|H]%IH; [|by right]. simpl in H.
  rewrite copyIfTruthy_lookup in H. case_decide; subst; [|by left].
  destruct (gc_excerpt content !! l) as [t|] eqn:Ht; [|by left].
  destruct (Js.truthy t); [by right|by left].
Qed.

(** Every entry of the formatted title, excerpt and content comes from
    an entry of the generated content under the same language. *)
Lemma formatContentForSanity_entries content k :
  (is_Some (fc_title (formatContentForSanity content) !! k) →
   is_Some (gc_title content !! k))
  ∧ (is_Some (fc_excerpt (formatContentForSanity content) !! k) →
     is_Some (gc_excerpt content !! k))
  ∧ (is_Some (fc_content (formatContentForSanity content) !! k) →
     is_Some (gc_content content !! k)).
Proof.
  unfold formatContentForSanity. split_and!.
  - intros [v [H|H]%foldl_formatLanguage_title]; [done|by eexists].
  - intros [v [H|H]%foldl_formatLanguage_excerpt]; [done|by eexists].
  - rewrite foldl_formatLanguage_content. unfold formattedBody. simpl.
    destruct (gc_content content !! k); [by eexists|].
    case_decide; by intros [? ?].
Qed.

Lemma foldl_formatLanguage_title_lookup
    (content : GeneratedContent) (langs : list jsstring)
    (fc : FormattedContent) (k : jsstring) :
  fc_title (foldl (formatLanguage content) fc langs) !! k =
    if decide (k ∈ langs)
    then match gc_title content !! k with
         | Some v => if Js.truthy v then Some v else fc_title fc !! k
         | None => fc_title fc !! k
         end
    else fc_title fc !! k.
Proof.
  revert fc. induction langs as [|l langs IH]; intros fc.
  - case_decide as Hin; [by apply elem_of_nil in Hin|done].
  - cbn [foldl]. rewrite IH. cbn [formatLanguage fc_title].
    rewrite copyIfTruthy_lookup.
    destruct (decide (k = l)) as [->|Hne].
    + rewrite (decide_True (P := l ∈ l :: langs)) by apply list_elem_of_here.
      destruct (gc_title content !! l) as [v|]; [|by case_decide].
      destruct (Js.truthy v); by case_decide.
    + destruct (decide (k ∈ langs)) as [Hin|Hnin].
      * by rewrite decide_True by (by apply list_elem_of_further).
      * rewrite decide_False; [done|]. by intros [?|?]%elem_of_cons.
Qed.

Lemma foldl_formatLanguage_excerpt_lookup
    (content : GeneratedContent) (langs : list jsstring)
    (fc : FormattedContent) (k : jsstring) :
  fc_excerpt (foldl (formatLanguage content) fc langs) !! k =
    if decide (k ∈ langs)
    then match gc_excerpt content !! k with
         | Some v => if Js.truthy v then Some v else fc_excerpt fc !! k
         | None => fc_excerpt fc !! k
         end
    else fc_excerpt fc !! k.
Proof.
  revert fc. induction langs as [|l langs IH]; intros fc.
  - case_decide as Hin; [by apply elem_of_nil in Hin|done].
  - cbn [foldl]. rewrite IH. cbn [formatLanguage fc_excerpt].
    rewrite copyIfTruthy_lookup.
    destruct (decide (k = l)) as [->|Hne].
    + rewrite (decide_True (P := l ∈ l :: langs)) by apply list_elem_of_here.
      destruct (gc_excerpt content !! l) as [v|]; [|by case_decide].
      destruct (Js.truthy v); by case_decide.
    + destruct (decide (k ∈ langs)) as [Hin|Hnin].
      * by rewrite decide_True by (by apply list_elem_of_further).
      * rewrite decide_False; [done|]. by intros [?|?]%elem_of_cons.
Qed.

Lemma foldl_formatLanguage_tags
    (content : GeneratedContent) (langs : list jsstring) (fc : FormattedContent) :
  fc_tags (foldl (formatLanguage content) fc langs) = fc_tags fc.
Proof.
  revert fc. induction langs as [|l langs IH]; intros fc; [done|].
  cbn [foldl]. by rewrite IH.
Qed.

(** What [formatContentForSanity] stores under one of the five
    languages: the non-empty title and excerpt of the content. *)
Lemma formatContentForSanity_title content lang :
  lang ∈ languages5 →
  fc_title (formatContentForSanity content) !! lang
  = match gc_title content !! lang with
    | Some v => if Js.truthy v then Some v else None
    | None => None
    end.
Proof.
  intros Hin. unfold formatContentForSanity.
  rewrite foldl_formatLanguage_title_lookup, decide_True by done.
  cbn [fc_title]. rewrite lookup_empty.
  destruct (gc_title content !! lang) as [v|]; [|done]. by destruct (Js.truthy v).
Qed.

Lemma formatContentForSanity_excerpt content lang :
  lang ∈ languages5 →
  fc_excerpt (formatContentForSanity content) !! lang
  = match gc_excerpt content !! lang with
    | Some v => if Js.truthy v then Some v else None
    | None => None
    end.
Proof.
  intros Hin. unfold formatContentForSanity.
  rewrite foldl_formatLanguage_excerpt_lookup, decide_True by done.
  cbn [fc_excerpt]. rewrite lookup_empty.
  destruct (gc_excerpt content !! lang) as [v|]; [|done]. by destruct (Js.truthy v).
Qed.

(** Nothing is stored under any other language. *)
Lemma formatContentForSanity_others content lang :
  lang ∉ languages5 →
  fc_title (formatContentForSanity content) !! lang = None
  ∧ fc_excerpt (formatContentForSanity content) !! lang = None
  ∧ fc_content (formatContentForSanity content) !! lang = None.
Proof.
  intros Hout. unfold formatContentForSanity.
  rewrite foldl_formatLanguage_title_lookup, foldl_formatLanguage_excerpt_lookup,
    foldl_formatLanguage_content, !decide_False by done.
  done.
Qed.

(** The separator pattern consumes what it matches: the match is not
    empty and, followed by the rest, gives the text back. *)
Lemma startsWith_app (p s : jsstring) :
  Js.startsWith p s = true → s = p ++ drop (length p) s.
Proof.
  revert s. induction p as [|a p IH]; intros [|b s]; simpl; try done.
  intros [->%N.eqb_eq Hp]%andb_true_iff. f_equal. by apply IH.
Qed.

Lemma lazyDotThen_app (delim s m r : jsstring) :
  lazyDotThen delim s = Some (m, r) → s = m ++ r.
Proof.
  revert m r. induction s as [|c s IH]; intros m r; simpl.
  - destruct (Js.startsWith delim []) eqn:Hd; [|done].
    intros [= <- <-]. by apply startsWith_app.
  - destruct (Js.startsWith delim (c :: s)) eqn:Hd.
    + intros [= <- <-]. by apply startsWith_app.
    + destruct (Js.isLineTerminator c); [done|].
      destruct (lazyDotThen delim s) as [[m' r']|]; [|done].
      intros [= <- <-]. simpl. f_equal. by apply IH.
Qed.

Lemma matchEmphasis_app (s m r : jsstring) :
  matchEmphasis s = Some (m, r) → s = m ++ r ∧ m ≠ [].
Proof.
  unfold matchEmphasis.
  destruct (Js.startsWith [Js.star; Js.star] s) eqn:Hbold.
  - destruct (lazyDotThen [Js.star; Js.star] (drop 2 s)) as [[m' r']|] eqn:Hlazy.
    + intros [= <- <-]. split; [|done].
      apply startsWith_app in Hbold. apply lazyDotThen_app in Hlazy.
      simpl in Hbold. rewrite Hbold at 1. simpl. by rewrite Hlazy.
    + destruct (Js.startsWith [Js.star] s) eqn:Hem; [|done].
      destruct (lazyDotThen [Js.star] (drop 1 s)) as [[m' r']|] eqn:Hlazy'; [|done].
      intros [= <- <-]. split; [|done].
      apply startsWith_app in Hem. apply lazyDotThen_app in Hlazy'.
      simpl in Hem. rewrite Hem at 1. simpl. by rewrite Hlazy'.
  - destruct (Js.startsWith [Js.star] s) eqn:Hem; [|done].
    destruct (lazyDotThen [Js.star] (drop 1 s)) as [[m' r']|] eqn:Hlazy'; [|done].
    intros [= <- <-]. split; [|done].
    apply startsWith_app in Hem. apply lazyDotThen_app in Hlazy'.
    simpl in Hem. rewrite Hem at 1. simpl. by rewrite Hlazy'.
Qed.

(** The number of steps given to the split loop is enough: any larger
    number gives the same parts. *)
Lemma splitLoop_steps (n m : nat) (cur s : jsstring) :
  length s ≤ n → length s ≤ m → splitLoop n cur s = splitLoop m cur s.
Proof.
  revert m cur s. induction n as [|n IH]; intros [|m] cur s Hn Hm; try done.
  - destruct s; [|simpl in Hn; lia]. done.
  - destruct s; [|simpl in Hm; lia]. done.
  - simpl. destruct (matchEmphasis s) as [[mm r]|] eqn:Hmatch.
    + apply matchEmphasis_app in Hmatch as [-> Hne].
      rewrite length_app in Hn, Hm.
      destruct mm; [done|]. simpl in Hn, Hm.
      do 2 f_equal. apply IH; lia.
    + destruct s as [|c s]; [done|]. simpl in Hn, Hm. apply IH; lia.
Qed.

(** The parts of the split, put together again, are the text. *)
Lemma splitLoop_concat (n : nat) (cur s : jsstring) :
  length s ≤ n → concat (splitLoop n cur s) = reverse cur ++ s.
Proof.
  revert cur s. induction n as [|n IH]; intros cur s Hn.
  - destruct s; [|simpl in Hn; lia]. simpl. by rewrite !app_nil_r.
  - simpl. destruct (matchEmphasis s) as [[mm r]|] eqn:Hmatch.
    + apply matchEmphasis_app in Hmatch as [-> Hne].
      rewrite length_app in Hn. destruct mm; [done|]. simpl in Hn.
      simpl. rewrite IH by lia. by rewrite reverse_nil.
    + destruct s as [|c s]; simpl.
      * by rewrite !app_nil_r.
      * simpl in Hn. rewrite IH by lia. rewrite reverse_cons.
        by rewrite <- app_assoc.
Qed.

Lemma splitEmphasis_concat (text : jsstring) : concat (splitEmphasis text) = text.
Proof. unfold splitEmphasis. by rewrite splitLoop_concat. Qed.

(** The lines of a text are formatted one by one. *)
Lemma formatBlockContent_lines (lines : list jsstring) :
  Forall (λ l, Js.newline ∉ l) lines →
  formatBlockContent (Js.join Js.newline lines) = lines ≫= blockOfLine.
Proof.
  intros Hlines. unfold formatBlockContent.
  destruct lines as [|l lines]; [done|].
  by rewrite split_join.
Qed.

Lemma blockOfLine_blank (line : jsstring) : Js.trim line = [] → blockOfLine line = [].
Proof. unfold blockOfLine. by intros ->. Qed.

End Formatter.

(** C4: in [formatContentForSanity] the lines of a markdown body are
    classified one by one: the body stored for a language is the
    concatenation of the blocks of its lines; the line "# Title" gives
    one [h1] block whose only child is the unmarked span "Title"; the
    line "**bold** and *italic*" gives one [normal] block with the three
    spans "bold" (strong), " and " (no marks), "italic" (em); a blank
    line gives no block. *)
Theorem formatContentForSanity_markdown_lines
    (content : GeneratedContent) (lang : jsstring) (lines : list jsstring) :
  lang ∈ languages5 →
  Forall (λ l, Js.newline ∉ l) lines →
  Js.join Js.newline lines ≠ [] →
  gc_content content !! lang = Some (ContentText (Js.join Js.newline lines)) →
  fc_content (formatContentForSanity content) !! lang = Some (lines ≫= blockOfLine)
  ∧ blockOfLine (Js.lit "# Title")
    = [TextBlock h1 [mkSpan (Js.lit "Title") None]]
  ∧ blockOfLine (Js.lit "**bold** and *italic*")
    = [TextBlock normal
         [mkSpan (Js.lit "bold") (Some [strong]);
          mkSpan (Js.lit " and ") None;
          mkSpan (Js.lit "italic") (Some [em])]]
  ∧ (∀ line : jsstring, Js.trim line = [] → blockOfLine line = []).
Proof.
  intros Hlang Hlines Hne Hbody. split_and!.
  - rewrite formatContentForSanity_content by done.
    unfold formattedBody. rewrite Hbody.
    destruct (Js.join Js.newline lines) eqn:Hj; [done|].
    simpl. rewrite <- Hj. by rewrite formatBlockContent_lines.
  - by vm_compute.
  - by vm_compute.
  - apply blockOfLine_blank.
Qed.

(** The sample text: a heading, an empty line, a paragraph and a line
    of spaces give exactly the heading block and the paragraph block. *)
Lemma formatContentForSanity_markdown_lines_witness :
  fc_content (formatContentForSanity sampleContent) !! Js.lit "en"
  = Some [TextBlock h1 [mkSpan (Js.lit "Title") None];
          TextBlock normal
            [mkSpan (Js.lit "bold") (Some [strong]);
             mkSpan (Js.lit " and ") None;
             mkSpan (Js.lit "italic") (Some [em])]].
Proof.
  refine (eq_trans (proj1 (formatContentForSanity_markdown_lines sampleContent
            (Js.lit "en")
            [Js.lit "# Title"; []; Js.lit "**bold** and *italic*"; Js.lit "   "]
            _ _ _ _)) _).
  - by_computation.
  - by_computation.
  - vm_compute. discriminate.
  - vm_compute. reflexivity.
  - vm_compute. reflexivity.
Defined.

(** ** Image placeholders *)

Section Placeholders.

Implicit Types (l : list Block) (σ : store) (blocks r : loc) (count : nat).

Lemma length_splice {A} pos (x : A) (l : list A) :
  length (splice pos x l) = S (length l).
Proof.
  unfold splice. rewrite length_app, length_cons, length_take, length_drop. lia.
Qed.

Lemma sublist_splice {A} pos (x : A) (l : list A) : l `sublist_of` splice pos x l.
Proof.
  unfold splice. rewrite <- (take_drop pos l) at 1.
  apply sublist_app; [done|]. by apply sublist_cons.
Qed.

Lemma length_positions total count : length (positions total count) = count.
Proof. unfold positions. by rewrite length_fmap, length_seq. Qed.

(** The in-place loop on the array [r] is the loop on its elements. *)
Lemma foldl_alter_splice count r (xs : list (nat * nat)) l σ :
  foldl (λ σ' '(index, pos), alter (splice pos (placeholder count index)) r σ')
    (<[r := l]> σ) xs
  = <[r := foldl (λ acc '(index, pos), splice pos (placeholder count index) acc) l xs]> σ.
Proof.
  revert l. induction xs as [|[index pos] xs IH]; intros l; [done|].
  cbn [foldl]. by rewrite alter_insert_eq, IH.
Qed.

Lemma spliceAll_insert count ps r l σ :
  spliceAll count ps r (<[r := l]> σ) = <[r := insertPlaceholders count ps l]> σ.
Proof. apply foldl_alter_splice. Qed.

Lemma foldl_splice_spec count (xs : list (nat * nat)) l :
  let l' := foldl (λ acc '(index, pos), splice pos (placeholder count index) acc) l xs in
  length l' = length l + length xs ∧ l `sublist_of` l'.
Proof.
  revert l. induction xs as [|[index pos] xs IH]; intros l; cbn [foldl].
  - split; [by rewrite Nat.add_0_r|done].
  - destruct (IH (splice pos (placeholder count index) l)) as [Hlen Hsub].
    split.
    + rewrite Hlen, length_splice. simpl. lia.
    + etrans; [apply sublist_splice|done].
Qed.

Lemma insertPlaceholders_spec count ps l :
  length (insertPlaceholders count ps l) = length l + length ps
  ∧ l `sublist_of` insertPlaceholders count ps l.
Proof.
  unfold insertPlaceholders.
  destruct (foldl_splice_spec count (imap pair (reverse ps)) l) as [Hlen Hsub].
  split; [|done]. by rewrite Hlen, length_imap, length_reverse.
Qed.

(** What [addImagePlaceholders] returns on an array of at least three
    elements: a fresh array holding the elements with the placeholders
    spliced in. *)
Lemma addImagePlaceholders_copy blocks count σ l :
  σ !! blocks = Some l → 3 ≤ length l →
  addImagePlaceholders blocks count σ
  = Some (fresh (dom σ),
          <[fresh (dom σ) :=
              insertPlaceholders count (positions (length l) count) l]> σ).
Proof.
  intros Hl Hlen. unfold addImagePlaceholders. rewrite Hl.
  destruct (Nat.ltb_spec (length l) 3); [lia|].
  by rewrite spliceAll_insert.
Qed.

Lemma addImagePlaceholders_short blocks count σ l :
  σ !! blocks = Some l → length l < 3 →
  addImagePlaceholders blocks count σ = Some (blocks, σ).
Proof.
  intros Hl Hlen. unfold addImagePlaceholders. rewrite Hl.
  by destruct (Nat.ltb_spec (length l) 3); [|lia].
Qed.

Lemma fresh_loc_unused σ : σ !! fresh (dom σ) = None.
Proof. apply not_elem_of_dom, is_fresh. Qed.

End Placeholders.

(** C5: on an array of six blocks with a requested count of 2 the
    offsets are floor(6/3)*1 = 2 and floor(6/3)*2 = 4; the placeholders,
    numbered 1 and 2, are spliced in from the highest offset to the
    lowest, so that in the result placeholder 1 stands before the
    original block of index 2 and placeholder 2 before the original
    block of index 4; and on an array of fewer than three blocks the
    call returns its argument and changes nothing, whatever the count. *)
Theorem addImagePlaceholders_six_blocks
    (σ : store) (blocks : loc) (b0 b1 b2 b3 b4 b5 : Block) :
  σ !! blocks = Some [b0; b1; b2; b3; b4; b5] →
  let p1 := ImageBlock (Js.lit "[Placeholder 1: Add relevant image here]")
              (Js.lit "Replace with appropriate image") in
  let p2 := ImageBlock (Js.lit "[Placeholder 2: Add relevant image here]")
              (Js.lit "Replace with appropriate image") in
  positions 6 2 = [6 / (2 + 1) * 1; 6 / (2 + 1) * 2]
  ∧ positions 6 2 = [2; 4]
  ∧ insertPlaceholders 2 (positions 6 2) [b0; b1; b2; b3; b4; b5]
    = splice 2 p1 (splice 4 p2 [b0; b1; b2; b3; b4; b5])
  ∧ addImagePlaceholders blocks 2 σ
    = Some (fresh (dom σ),
            <[fresh (dom σ) := [b0; b1; p1; b2; b3; p2; b4; b5]]> σ)
  ∧ (∀ (σ' : store) (short : loc) (l : list Block) (count : nat),
       σ' !! short = Some l → length l < 3 →
       addImagePlaceholders short count σ' = Some (short, σ')).
Proof.
  intros Hl p1 p2.
  assert (insertPlaceholders 2 (positions 6 2) [b0; b1; b2; b3; b4; b5]
          = [b0; b1; p1; b2; b3; p2; b4; b5]) as Hins
    by (vm_compute; reflexivity).
  split_and!.
  - reflexivity.
  - reflexivity.
  - rewrite Hins. reflexivity.
  - rewrite (addImagePlaceholders_copy _ _ _ _ Hl) by (cbn [length]; lia).
    cbn [length]. rewrite Hins. reflexivity.
  - intros σ' short l count. apply addImagePlaceholders_short.
Qed.

(** A store with one array of six paragraphs. *)
Lemma addImagePlaceholders_six_blocks_witness :
  let b n := TextBlock normal [mkSpan (Js.digits n) None] in
  let σ : store := {[ 1%positive := b <$> seq 0 6 ]} in
  ∃ r σ', addImagePlaceholders 1%positive 2 σ = Some (r, σ')
          ∧ length <$> σ' !! r = Some 8.
Proof.
  intros b σ.
  destruct (addImagePlaceholders_six_blocks σ 1%positive
              (b 0) (b 1) (b 2) (b 3) (b 4) (b 5) eq_refl)
    as (_ & _ & _ & H & _).
  eexists _, _. split; [exact H|]. by rewrite lookup_insert_eq.
Defined.

(** C10: [addImagePlaceholders] leaves the array it is given as it was;
    it leaves every other array of the store alone as well; on fewer
    than three blocks it returns the very array it was given; otherwise
    it returns a new array, of length (input length + count), of which
    the input is a subsequence (the original blocks in their original
    order). *)
Theorem addImagePlaceholders_frame
    (σ : store) (blocks : loc) (l : list Block) (count : nat) :
  σ !! blocks = Some l →
  ∃ (r : loc) (σ' : store),
    addImagePlaceholders blocks count σ = Some (r, σ')
    ∧ σ' !! blocks = Some l
    ∧ (∀ k : loc, k ≠ r → σ' !! k = σ !! k)
    ∧ (length l < 3 → r = blocks ∧ σ' = σ)
    ∧ (3 ≤ length l →
       r ≠ blocks ∧ σ !! r = None
       ∧ ∃ l', σ' !! r = Some l'
               ∧ length l' = length l + count
               ∧ l `sublist_of` l').
Proof.
  intros Hl. destruct (decide (length l < 3)) as [Hshort|Hlong].
  - exists blocks, σ. rewrite (addImagePlaceholders_short _ _ _ _ Hl Hshort).
    split_and!; [done..|lia].
  - assert (3 ≤ length l) as Hlen by lia.
    pose proof (fresh_loc_unused σ) as Hfresh.
    assert (fresh (dom σ) ≠ blocks) as Hne by (intros Heq; congruence).
    eexists _, _. rewrite (addImagePlaceholders_copy _ _ _ _ Hl Hlen).
    split_and!; [done| |by intros; rewrite lookup_insert_ne|lia|].
    + by rewrite lookup_insert_ne.
    + intros _. split_and!; [done..|].
      eexists. rewrite lookup_insert_eq. split; [done|].
      destruct (insertPlaceholders_spec count (positions (length l) count) l)
        as [Hlen' Hsub].
      by rewrite Hlen', length_positions.
Qed.

(** A store with one array of four paragraphs and a count of 3. *)
Lemma addImagePlaceholders_frame_witness :
  let b n := TextBlock normal [mkSpan (Js.digits n) None] in
  let σ : store := {[ 5%positive := b <$> seq 0 4 ]} in
  ∃ r σ', addImagePlaceholders 5%positive 3 σ = Some (r, σ')
          ∧ σ' !! 5%positive = Some (b <$> seq 0 4)
          ∧ r ≠ 5%positive
          ∧ length <$> σ' !! r = Some 7.
Proof.
  intros b σ.
  destruct (addImagePlaceholders_frame σ 5%positive (b <$> seq 0 4) 3 eq_refl)
    as (r & σ' & Hcall & Hsame & _ & _ & Hlong).
  destruct (Hlong ltac:(simpl; lia)) as (Hne & _ & l' & Hl' & Hlen & _).
  exists r, σ'. split_and!; [done..|].
  rewrite Hl'. cbn [fmap option_fmap option_map]. rewrite Hlen. reflexivity.
Defined.

(** ** The secrets loader *)

(** The claim C8 as stated fails in development: the name is looked up
    without the [_DEV] suffix, with the environment given or detected. *)
Lemma formatSecretName_development_unsuffixed :
  let name := Js.lit "SANITY_API_TOKEN" in
  hasEnvironmentSuffix name = false
  ∧ formatSecretName ∅ name (Some development) = name
  ∧ formatSecretName ∅ name (Some development) ≠ name ++ suffixMap development
  ∧ getEnvironment ∅ = development
  ∧ formatSecretName ∅ name None ≠ name ++ suffixMap (getEnvironment ∅).
Proof. vm_compute. split_and!; (reflexivity || discriminate). Qed.

(** The two branches of [formatSecretName]: a suffixed name is kept,
    any other name is formatted for the environment passed, else for
    the detected one. *)
Lemma formatSecretName_suffixed
    (penv : gmap jsstring jsstring) (secretName : jsstring)
    (environment : option Environment) :
  hasEnvironmentSuffix secretName = true →
  formatSecretName penv secretName environment = secretName.
Proof. unfold formatSecretName. by intros ->. Qed.

Lemma formatSecretName_unsuffixed
    (penv : gmap jsstring jsstring) (secretName : jsstring)
    (environment : option Environment) :
  hasEnvironmentSuffix secretName = false →
  formatSecretName penv secretName environment
  = match default (getEnvironment penv) environment with
    | production => secretName ++ Js.lit "_PROD"
    | staging => secretName ++ Js.lit "_STG"
    | development => secretName
    end.
Proof.
  unfold formatSecretName. intros ->.
  replace (match environment with Some e => e | None => getEnvironment penv end)
    with (default (getEnvironment penv) environment) by (by destruct environment).
  by destruct (default (getEnvironment penv) environment).
Qed.

(** C8 (amended): a name that already ends in [_PROD], [_STG] or [_DEV]
    is returned unchanged in every environment; any other name gets
    [_PROD] appended in production and [_STG] in staging, and is
    returned unchanged in development.  The environment is the one
    passed, else the detected one. *)
Theorem formatSecretName_spec
    (penv : gmap jsstring jsstring) (secretName : jsstring)
    (environment : option Environment) :
  let env := default (getEnvironment penv) environment in
  (hasEnvironmentSuffix secretName = true →
   formatSecretName penv secretName environment = secretName)
  ∧ (hasEnvironmentSuffix secretName = false →
     formatSecretName penv secretName environment
     = match env with
       | production => secretName ++ Js.lit "_PROD"
       | staging => secretName ++ Js.lit "_STG"
       | development => secretName
       end)
  ∧ (Js.endsWith (Js.lit "_PROD") secretName = true →
     formatSecretName penv secretName environment = secretName).
Proof.
  intros env. subst env. split_and!.
  - apply formatSecretName_suffixed.
  - apply formatSecretName_unsuffixed.
  - intros H. apply formatSecretName_suffixed.
    unfold hasEnvironmentSuffix. by rewrite H.
Qed.

Lemma formatSecretName_spec_witness :
  formatSecretName ∅ (Js.lit "SANITY_API_TOKEN") (Some staging)
    = Js.lit "SANITY_API_TOKEN_STG"
  ∧ formatSecretName ∅ (Js.lit "SANITY_API_TOKEN_PROD") (Some staging)
    = Js.lit "SANITY_API_TOKEN_PROD".
Proof.
  destruct (formatSecretName_spec ∅ (Js.lit "SANITY_API_TOKEN") (Some staging))
    as (_ & Hplain & _).
  destruct (formatSecretName_spec ∅ (Js.lit "SANITY_API_TOKEN_PROD") (Some staging))
    as (_ & _ & Hprod).
  split.
  - rewrite Hplain by (vm_compute; reflexivity). vm_compute. reflexivity.
  - apply Hprod. vm_compute. reflexivity.
Defined.

Section SecretsCache.

Variable E : SecretsEnv.
Variables secretName formattedSecretName projectId cacheKey : jsstring.

Implicit Types (st : SecretsState) (value : jsstring).

Lemma app_singleton_neq {A} (l : list A) (x : A) : l ≠ l ++ [x].
Proof.
  intros H. apply (f_equal length) in H.
  rewrite length_app in H. simpl in H. lia.
Qed.

(** The [try] block issues exactly one remote call. *)
Lemma fetchRemote_calls useCache st :
  accessCalls (snd (fetchRemote E secretName formattedSecretName projectId
                      cacheKey useCache st))
  = accessCalls st ++ [resourceName projectId formattedSecretName].
Proof.
  unfold fetchRemote.
  destruct (accessSecretVersion E _ _) as [e|[v|]]; [done| |done].
  by destruct useCache.
Qed.

(** With caching enabled a successful remote fetch is stored under the
    cache key, with the clock reading taken after the fetch. *)
Lemma fetchRemote_caches st value st' :
  fetchRemote E secretName formattedSecretName projectId cacheKey true st
    = (Returns value, st') →
  secretsCache st' !! cacheKey = Some (value, clock E (clockReads st))
  ∧ clockReads st' = S (clockReads st).
Proof.
  unfold fetchRemote.
  destruct (accessSecretVersion E _ _) as [e|[v|]]; [done| |done].
  simpl. intros [= <- <-]. simpl. by rewrite lookup_insert_eq.
Qed.

(** The part after the cache check never reads the cache. *)
Lemma getSecretUncached_cache_blind useCache st cache :
  let st_c := mkSecretsState cache (clientReady st) (clockReads st) (accessCalls st) in
  fst (getSecretUncached E secretName formattedSecretName projectId cacheKey useCache st_c)
  = fst (getSecretUncached E secretName formattedSecretName projectId cacheKey useCache st)
  ∧ accessCalls (snd (getSecretUncached E secretName formattedSecretName projectId
                        cacheKey useCache st_c))
    = accessCalls (snd (getSecretUncached E secretName formattedSecretName projectId
                          cacheKey useCache st)).
Proof.
  intros st_c.
  assert (fst (fetchRemote E secretName formattedSecretName projectId cacheKey useCache st_c)
          = fst (fetchRemote E secretName formattedSecretName projectId cacheKey useCache st)
          ∧ accessCalls (snd (fetchRemote E secretName formattedSecretName projectId cacheKey useCache st_c))
            = accessCalls (snd (fetchRemote E secretName formattedSecretName projectId cacheKey useCache st)))
    as Hremote.
  { rewrite !fetchRemote_calls. split; [|done].
    unfold fetchRemote. simpl.
    destruct (accessSecretVersion E _ _) as [e|[v|]]; [done| |done].
    by destruct useCache. }
  unfold getSecretUncached.
  destruct (getEnvironment (processEnv E)); [done..|].
  destruct (processEnv E !! secretName) as [envValue|]; [|done].
  by destruct (Js.truthy envValue).
Qed.

(** Without caching the cache is left as it was. *)
Lemma getSecretUncached_keeps_cache st :
  secretsCache (snd (getSecretUncached E secretName formattedSecretName projectId
                       cacheKey false st))
  = secretsCache st.
Proof.
  unfold getSecretUncached, fetchRemote.
  destruct (getEnvironment (processEnv E));
    repeat (simpl; try done;
            match goal with
            | |- context [match ?x with _ => _ end] => destruct x
            end).
Qed.

(** A call that went past the cache check and returned after a remote
    call has stored the value it returns. *)
Lemma getSecretUncached_remote_caches st value st' :
  getSecretUncached E secretName formattedSecretName projectId cacheKey true st
    = (Returns value, st') →
  accessCalls st' ≠ accessCalls st →
  secretsCache st' !! cacheKey = Some (value, clock E (clockReads st)).
Proof.
  unfold getSecretUncached. intros Hcall Hgrown.
  assert (fetchRemote E secretName formattedSecretName projectId cacheKey true st
          = (Returns value, st')) as Hremote.
  { destruct (getEnvironment (processEnv E)); [done..|].
    destruct (processEnv E !! secretName) as [envValue|]; [|done].
    destruct (Js.truthy envValue); [|done].
    by injection Hcall as <- <-. }
  by apply fetchRemote_caches in Hremote as [? _].
Qed.

End SecretsCache.

(** C9: with caching enabled, a call of [getSecret] for a (project id,
    qualified name) pair whose cached value is less than five minutes
    old returns that value without any call to the secret store; in
    particular the call that follows a remote fetch within five minutes
    issues no second remote call; the cache is looked up before
    anything else; and with [useCache = false] the cache is neither
    read nor written, so that outside development the secret store is
    called whatever the cache holds. *)
Theorem getSecret_cached
    (E : SecretsEnv) (secretName : jsstring) (options : option SecretOptions) :
  let projectId := default (getProjectId (processEnv E)) (options ≫= opt_projectId) in
  let formatted :=
    formatSecretName (processEnv E) secretName (options ≫= opt_environment) in
  let key := cacheKeyOf projectId formatted in
  (∀ (st : SecretsState) (value : jsstring) (timestamp : Z),
     default true (options ≫= opt_useCache) = true →
     secretsCache st !! key = Some (value, timestamp) →
     (clock E (clockReads st) - timestamp < CACHE_TIMEOUT)%Z →
     ∃ st', getSecret E secretName options st = (Returns value, st')
            ∧ accessCalls st' = accessCalls st
            ∧ secretsCache st' = secretsCache st)
  ∧ (∀ (st0 st1 : SecretsState) (value : jsstring),
       default true (options ≫= opt_useCache) = true →
       getSecret E secretName options st0 = (Returns value, st1) →
       accessCalls st1 ≠ accessCalls st0 →
       ∃ fetched : Z,
         secretsCache st1 !! key = Some (value, fetched)
         ∧ ((clock E (clockReads st1) - fetched < CACHE_TIMEOUT)%Z →
            ∃ st2, getSecret E secretName options st1 = (Returns value, st2)
                   ∧ accessCalls st2 = accessCalls st1))
  ∧ (∀ st : SecretsState,
       options ≫= opt_useCache = Some false →
       getSecret E secretName options st
       = getSecretUncached E secretName formatted projectId key false st
       ∧ secretsCache (snd (getSecret E secretName options st)) = secretsCache st
       ∧ (∀ cache : gmap jsstring (jsstring * Z),
            let st_c := mkSecretsState cache (clientReady st) (clockReads st)
                          (accessCalls st) in
            fst (getSecret E secretName options st_c)
            = fst (getSecret E secretName options st)
            ∧ accessCalls (snd (getSecret E secretName options st_c))
              = accessCalls (snd (getSecret E secretName options st)))
       ∧ (getEnvironment (processEnv E) ≠ development →
          accessCalls (snd (getSecret E secretName options st))
          = accessCalls st ++ [resourceName projectId formatted])).
Proof.
  intros projectId formatted key.
  assert (∀ (st : SecretsState) (value : jsstring) (timestamp : Z),
     default true (options ≫= opt_useCache) = true →
     secretsCache st !! key = Some (value, timestamp) →
     (clock E (clockReads st) - timestamp < CACHE_TIMEOUT)%Z →
     ∃ st', getSecret E secretName options st = (Returns value, st')
            ∧ accessCalls st' = accessCalls st
            ∧ secretsCache st' = secretsCache st) as Hhit.
  { intros st value timestamp Huse Hcached Hfresh.
    unfold getSecret. rewrite Huse.
    fold projectId formatted key. rewrite Hcached. cbn [dateNow].
    rewrite decide_True by done. by eexists. }
  split_and!.
  - exact Hhit.
  - intros st0 st1 value Huse Hcall Hgrown.
    assert (∃ fetched, secretsCache st1 !! key = Some (value, fetched))
      as [fetched Hfetched].
    { unfold getSecret in Hcall. rewrite Huse in Hcall.
      fold projectId formatted key in Hcall.
      destruct (secretsCache st0 !! key) as [[v0 ts]|].
      - cbn [dateNow] in Hcall. case_decide.
        + injection Hcall as <- <-. by destruct Hgrown.
        + eexists. by eapply getSecretUncached_remote_caches.
      - eexists. by eapply getSecretUncached_remote_caches. }
    exists fetched. split; [done|]. intros Hfresh.
    destruct (Hhit st1 value fetched Huse Hfetched Hfresh) as (st2 & ? & ? & _).
    by exists st2.
  - intros st Hoff.
    assert (getSecret E secretName options st
            = getSecretUncached E secretName formatted projectId key false st)
      as Heq.
    { unfold getSecret. by rewrite Hoff. }
    split_and!.
    + done.
    + rewrite Heq. apply getSecretUncached_keeps_cache.
    + intros cache st_c.
      assert (getSecret E secretName options st_c
              = getSecretUncached E secretName formatted projectId key false st_c)
        as ->.
      { unfold getSecret. by rewrite Hoff. }
      rewrite Heq. apply getSecretUncached_cache_blind.
    + intros Hprod. rewrite Heq. unfold getSecretUncached.
      destruct (getEnvironment (processEnv E));
        [apply fetchRemote_calls..|done].
Qed.

(** In production, with the sample store and clock: the first call
    fetches remotely and the second, one second later, is served from
    the cache. *)
Lemma getSecret_cached_witness :
  ∃ st1 st2,
    getSecret sampleSecretsEnv (Js.lit "SANITY_API_TOKEN") None freshSecretsState
      = (Returns (Js.lit "s3cret"), st1)
    ∧ length (accessCalls st1) = 1
    ∧ getSecret sampleSecretsEnv (Js.lit "SANITY_API_TOKEN") None st1
      = (Returns (Js.lit "s3cret"), st2)
    ∧ accessCalls st2 = accessCalls st1.
Proof.
  pose (first := getSecret sampleSecretsEnv (Js.lit "SANITY_API_TOKEN") None
                   freshSecretsState).
  assert (first = (Returns (Js.lit "s3cret"), snd first)) as Hfirst
    by (vm_compute; reflexivity).
  destruct (getSecret_cached sampleSecretsEnv (Js.lit "SANITY_API_TOKEN") None)
    as (_ & Hagain & _).
  destruct (Hagain freshSecretsState (snd first) (Js.lit "s3cret") eq_refl Hfirst)
    as (fetched & Hfetched & Hhit).
  { vm_compute. discriminate. }
  assert (fetched = 0%Z) as ->.
  { vm_compute in Hfetched. by injection Hfetched. }
  destruct Hhit as (st2 & Hsecond & Hcalls); [vm_compute; reflexivity|].
  exists (snd first), st2. split_and!; [exact Hfirst|vm_compute; reflexivity|done..].
Defined.

(** ** The generation hook *)

Section Generate.

Variable E : GenEnv.
Variable formData : GenerationFormData.

Implicit Types (gc : GeneratedContent) (w : World) (lang k : jsstring)
  (lc : LangContent) (langs : list jsstring) (completed : nat).

(** *** The merge of one language *)

Lemma dom_copyIfTruthy (src dst : gmap jsstring jsstring) lang :
  dom (copyIfTruthy src lang dst) ⊆ dom dst ∪ {[lang]}.
Proof.
  unfold copyIfTruthy. destruct (src !! lang) as [v|]; [|set_solver].
  destruct (Js.truthy v); [|set_solver]. rewrite dom_insert_L. set_solver.
Qed.

Lemma andThen_entries (a b : Stmt) lang :
  (∀ gc, entries (snd (a gc)) ⊆ entries gc ∪ {[lang]}) →
  (∀ gc, entries (snd (b gc)) ⊆ entries gc ∪ {[lang]}) →
  ∀ gc, entries (snd (andThen a b gc)) ⊆ entries gc ∪ {[lang]}.
Proof.
  intros Ha Hb gc. unfold andThen. specialize (Ha gc).
  destruct (a gc) as [[] gc1]; simpl in *; [|done].
  specialize (Hb gc1). set_solver.
Qed.

Lemma mergeSeoField_entries src lang put get gc :
  entries (snd (mergeSeoField src lang put get gc)) = entries gc.
Proof.
  unfold mergeSeoField. destruct src as [m|]; [|done].
  destruct (m !! lang) as [v|]; [|done].
  destruct (Js.truthy v); [|done]. by destruct (gc_seo gc).
Qed.

(** Whatever the body and however far the merge gets, it only adds
    entries under the language of the request. *)
Lemma mergeLanguage_entries inc completed lang lc gc :
  entries (snd (mergeLanguage inc completed lang lc gc)) ⊆ entries gc ∪ {[lang]}.
Proof.
  revert gc. unfold mergeLanguage.
  repeat apply andThen_entries; intros gc.
  - unfold mergeTitle. destruct (lc_title lc) as [t|]; [|set_solver].
    unfold entries; simpl. pose proof (dom_copyIfTruthy t (gc_title gc) lang).
    set_solver.
  - unfold mergeExcerpt. destruct (lc_excerpt lc) as [t|]; [|set_solver].
    unfold entries; simpl. pose proof (dom_copyIfTruthy t (gc_excerpt gc) lang).
    set_solver.
  - unfold mergeContent. destruct (lc_content lc) as [c|]; [|set_solver].
    unfold entries; simpl. destruct (c !! lang) as [v|]; [|set_solver].
    destruct (contentTruthy v); [|set_solver]. rewrite dom_insert_L. set_solver.
  - unfold mergeSeo. destruct inc, (lc_seo lc) as [ls|]; try set_solver.
    unfold andThen.
    pose proof (mergeSeoField_entries (ls_metaTitle ls) lang
                  (λ m seo, mkSeo m (metaDescription seo)) metaTitle gc) as H1.
    destruct (mergeSeoField (ls_metaTitle ls) lang _ _ gc) as [[] gc1];
      simpl in *; [|set_solver].
    rewrite mergeSeoField_entries. set_solver.
  - unfold mergeTags. destruct (decide (completed = 1)), (lc_tags lc); set_solver.
Qed.

(** The tags change only in the iteration whose counter is 1, and only
    when the body carries tags. *)
Lemma mergeLanguage_tags inc completed lang lc gc :
  let gc' := snd (mergeLanguage inc completed lang lc gc) in
  gc_tags gc' = gc_tags gc
  ∨ (completed = 1 ∧ ∃ tags, lc_tags lc = Some tags
                             ∧ gc_tags gc' = arrayFromSet (gc_tags gc ++ tags)).
Proof.
  unfold mergeLanguage, andThen, mergeTitle, mergeExcerpt, mergeContent,
    mergeSeo, mergeSeoField, mergeTags, andThen.
  destruct (lc_title lc), (lc_excerpt lc), (lc_content lc); simpl; auto.
  destruct inc, (lc_seo lc) as [[[mt|] [md|]]|]; simpl; auto;
    repeat match goal with
      | |- context [match ?m !! lang with _ => _ end] => destruct (m !! lang); simpl; auto
      | |- context [if Js.truthy ?v then _ else _] => destruct (Js.truthy v); simpl; auto
      | |- context [match gc_seo ?g with _ => _ end] => destruct (gc_seo g); simpl; auto
      | |- context [decide (completed = 1)] => destruct (decide (completed = 1)); simpl; auto
      | |- context [match lc_tags lc with _ => _ end] => destruct (lc_tags lc) eqn:?; simpl; eauto
      end.
Qed.

(** *** The loop *)

Lemma generateLanguage_hook_error url completed lang gc w :
  hook_error (hook (snd (generateLanguage E formData url completed lang (gc, w))))
  = hook_error (hook w).
Proof.
  unfold generateLanguage.
  by destruct (generateArticle E _ url lang) as [|[] []].
Qed.

Lemma generateLoop_hook_error url langs completed gc w :
  hook_error (hook (snd (generateLoop E formData url langs completed (gc, w))))
  = hook_error (hook w).
Proof.
  revert completed gc w. induction langs as [|lang langs IH]; intros; [done|].
  cbn [generateLoop].
  destruct (generateLanguage E formData url (S completed) lang (gc, w))
    as [gc1 w1] eqn:Hstep.
  rewrite IH. by rewrite <- (generateLanguage_hook_error url (S completed) lang gc w), Hstep.
Qed.

(** One request per language, in order, and nothing else. *)
Lemma generateLoop_requests url langs completed gc w :
  requests (snd (generateLoop E formData url langs completed (gc, w)))
  = requests w ++ (GenerateRequest url <$> langs).
Proof.
  revert completed gc w. induction langs as [|lang langs IH]; intros.
  - simpl. by rewrite app_nil_r.
  - cbn [generateLoop].
    destruct (generateLanguage E formData url (S completed) lang (gc, w))
      as [gc1 w1] eqn:Hstep.
    rewrite IH. assert (requests w1 = requests w ++ [GenerateRequest url lang]) as ->.
    { unfold generateLanguage in Hstep.
      destruct (generateArticle E _ url lang) as [|[] []];
        by injection Hstep as <- <-. }
    by rewrite <- app_assoc.
Qed.

(** An iteration whose request failed leaves the content as it was; one
    whose request succeeded only adds entries under its language. *)
Lemma generateLanguage_entries url completed lang gc w :
  let gc' := fst (generateLanguage E formData url (S completed) lang (gc, w)) in
  (requestSucceeded (generateArticle E completed url lang) = false → gc' = gc)
  ∧ entries gc' ⊆ entries gc ∪ {[lang]}.
Proof.
  unfold generateLanguage. rewrite Nat.sub_1_r. cbn [Nat.pred].
  destruct (generateArticle E completed url lang) as [err|[] [lc|err]];
    simpl; try (split; [done|set_solver]).
  split; [done|]. apply mergeLanguage_entries.
Qed.

(** Every entry of the content after the loop was there before it or
    belongs to a language one of whose requests succeeded. *)
Lemma generateLoop_entries url langs completed gc w k :
  k ∈ entries (fst (generateLoop E formData url langs completed (gc, w))) →
  k ∈ entries gc
  ∨ ∃ j, langs !! j = Some k
         ∧ requestSucceeded (generateArticle E (completed + j) url k) = true.
Proof.
  revert completed gc w. induction langs as [|lang langs IH]; intros completed gc w.
  - by left.
  - cbn [generateLoop].
    destruct (generateLanguage E formData url (S completed) lang (gc, w))
      as [gc1 w1] eqn:Hstep.
    intros [Hk|(j & Hj & Hok)]%IH.
    + destruct (generateLanguage_entries url completed lang gc w) as [Hfail Hsub].
      rewrite Hstep in Hfail, Hsub. simpl in Hfail, Hsub.
      destruct (requestSucceeded (generateArticle E completed url lang)) eqn:Hreq.
      * apply Hsub in Hk. apply elem_of_union in Hk as [Hk|Hk]; [by left|].
        apply elem_of_singleton in Hk as ->. right. exists 0.
        by rewrite Nat.add_0_r.
      * left. by rewrite <- (Hfail eq_refl).
    + right. exists (S j). split; [done|].
      by rewrite <- Nat.add_succ_comm.
Qed.

(** After the first iteration the tags stay what they are. *)
Lemma generateLoop_tags_later url langs completed gc w :
  1 ≤ completed →
  gc_tags (fst (generateLoop E formData url langs completed (gc, w))) = gc_tags gc.
Proof.
  revert completed gc w. induction langs as [|lang langs IH]; intros completed gc w Hc.
  - done.
  - cbn [generateLoop].
    destruct (generateLanguage E formData url (S completed) lang (gc, w))
      as [gc1 w1] eqn:Hstep.
    rewrite IH by lia. unfold generateLanguage in Hstep.
    destruct (generateArticle E _ url lang) as [err|[] [lc|err]];
      injection Hstep as <- <-; try done.
    destruct (mergeLanguage_tags (includeSeo formData) (S completed) lang lc gc)
      as [H|[H _]]; [done|lia].
Qed.

(** A well-shaped body with tags, merged first into a content whose
    [seo] is set exactly when the form asks for it, has its tags merged. *)
Lemma mergeLanguage_first_tags lang lc gc tags :
  wellShaped lc → lc_tags lc = Some tags →
  (includeSeo formData = true → is_Some (gc_seo gc)) →
  gc_tags (snd (mergeLanguage (includeSeo formData) 1 lang lc gc))
  = arrayFromSet (gc_tags gc ++ tags).
Proof.
  intros ([t Ht] & [e He] & [c Hc] & Hseo) Htags Hgc.
  unfold mergeLanguage, andThen, mergeTitle, mergeExcerpt, mergeContent, mergeTags.
  rewrite Ht, He, Hc, Htags. simpl.
  unfold mergeSeo. destruct (includeSeo formData); [|done].
  destruct (lc_seo lc) as [ls|]; [|done].
  destruct (Hseo ls eq_refl) as [[mt Hmt] [md Hmd]].
  destruct (Hgc eq_refl) as [seo Hs].
  unfold andThen, mergeSeoField. rewrite Hmt, Hmd. simpl. rewrite Hs.
  destruct (mt !! lang) as [v|]; [destruct (Js.truthy v)|]; simpl;
    rewrite ?Hs; (destruct (md !! lang) as [v'|]; [destruct (Js.truthy v')|]);
    simpl; done.
Qed.

End Generate.

Section GenerateRun.

Variable E : GenEnv.
Variable formData : GenerationFormData.
Variable documentId : jsstring.

Lemma uploadFeaturedImage_hook image gc w :
  hook (snd (uploadFeaturedImage E image gc w)) = hook w.
Proof.
  unfold uploadFeaturedImage, uploadImageToSanity.
  destruct image as [img|], (gc_featuredImage gc) as [fi|]; try done.
  destruct (downloadImage E (fi_url fi)) as [|[] []]; try done.
  by destruct (assetsUpload E _).
Qed.

Lemma searchFeaturedImage_hook_error w :
  hook_error (hook (snd (searchFeaturedImage E formData w))) = hook_error (hook w).
Proof.
  unfold searchFeaturedImage.
  destruct (featuredImage (imageSettings formData)); [|done].
  destruct (searchImages E _ _) as [|[] [[[[|]|]]|]]; done.
Qed.

Lemma valid_form :
  topic formData ≠ [] → languages formData ≠ [] →
  negb (Js.truthy (topic formData)) || (length (languages formData) =? 0) = false.
Proof.
  destruct (topic formData), (languages formData); done.
Qed.

(** A run whose form is valid and whose image search does not throw
    runs to the end. *)
Lemma generate_completes image w1 :
  topic formData ≠ [] → languages formData ≠ [] →
  searchFeaturedImage E formData startWorld = (Resolved image, w1) →
  let gc := fst (generateLoop E formData (generateApiUrl E) (languages formData) 0
                   (initialContent formData image, setState generating w1)) in
  ∃ assetId w,
    generate E formData documentId
    = (Resolved (documentData E formData gc (formatContentForSanity gc) assetId), w)
    ∧ hook w = mkHook complete (mkProgress complete (languages formData) None None) None
    ∧ (image = None → assetId = None).
Proof.
  intros Htopic Hlangs Hsearch gc. unfold generate.
  rewrite valid_form by done. cbn zeta. rewrite Hsearch.
  pose proof (generateLoop_hook_error E formData (generateApiUrl E)
                (languages formData) 0 (initialContent formData image)
                (setState generating w1)) as Herr.
  subst gc.
  destruct (generateLoop E formData _ _ 0 _) as [gc w3]. simpl in Herr.
  pose proof (uploadFeaturedImage_hook image gc
                (setProgress (withState formatting) (setState formatting w3)))
    as Hup.
  assert (image = None →
          fst (uploadFeaturedImage E image gc
                 (setProgress (withState formatting) (setState formatting w3)))
          = None) as Hnone by (by intros ->).
  destruct (uploadFeaturedImage E image gc _) as [assetId w5]. simpl in Hup, Hnone.
  eexists _, _. split_and!; [done| |done].
  simpl. rewrite Hup. simpl. rewrite Herr. simpl.
  pose proof (searchFeaturedImage_hook_error startWorld) as Hs.
  rewrite Hsearch in Hs. simpl in Hs. by rewrite Hs.
Qed.

(** A run that returns passed validation and the image search. *)
Lemma generate_resolved_inv data w :
  generate E formData documentId = (Resolved data, w) →
  topic formData ≠ [] ∧ languages formData ≠ []
  ∧ ∃ image w1, searchFeaturedImage E formData startWorld = (Resolved image, w1).
Proof.
  unfold generate.
  destruct (topic formData) as [|c t] eqn:Ht; [done|].
  destruct (languages formData) as [|l ls] eqn:Hl.
  { by simpl. }
  cbn -[searchFeaturedImage generateLoop formatContentForSanity].
  destruct (searchFeaturedImage E formData startWorld) as [[image|err] w1]; [|done].
  intros _. split_and!; [done..|]. by eexists _, _.
Qed.

(** The content at the end of the loop of a run that returns [data]. *)
Lemma generate_resolved_data data w :
  generate E formData documentId = (Resolved data, w) →
  ∃ image w1 assetId,
    searchFeaturedImage E formData startWorld = (Resolved image, w1)
    ∧ let gc := fst (generateLoop E formData (generateApiUrl E) (languages formData) 0
                       (initialContent formData image, setState generating w1)) in
      data = documentData E formData gc (formatContentForSanity gc) assetId.
Proof.
  intros Hrun.
  destruct (generate_resolved_inv _ _ Hrun) as (Htopic & Hlangs & image & w1 & Hsearch).
  destruct (generate_completes image w1 Htopic Hlangs Hsearch) as (assetId & w' & Hrun' & _ & _).
  rewrite Hrun in Hrun'. injection Hrun' as -> _.
  by eexists _, _, _.
Qed.

End GenerateRun.

Section Delivered.

Variable E : GenEnv.
Variable formData : GenerationFormData.

Implicit Types (gc : GeneratedContent) (w : World) (lang k : jsstring)
  (lc : LangContent) (langs : list jsstring) (completed : nat).

Ltac merge_cases lang completed lc :=
  repeat match goal with
    | |- context [match ?m !! lang with _ => _ end] => destruct (m !! lang); simpl; auto
    | |- context [if Js.truthy ?v then _ else _] => destruct (Js.truthy v); simpl; auto
    | |- context [if contentTruthy ?v then _ else _] => destruct (contentTruthy v); simpl; auto
    | |- context [match gc_seo ?g with _ => _ end] => destruct (gc_seo g); simpl; auto
    | |- context [decide (completed = 1)] => destruct (decide (completed = 1)); simpl; auto
    | |- context [match lc_tags lc with _ => _ end] => destruct (lc_tags lc); simpl; auto
    end.

(** The merge of a language leaves the entries of the others alone. *)
Lemma mergeLanguage_other inc completed lang lc gc k :
  k ≠ lang →
  entryOf (snd (mergeLanguage inc completed lang lc gc)) k = entryOf gc k.
Proof.
  intros Hk.
  assert (∀ (src dst : gmap jsstring jsstring),
            copyIfTruthy src lang dst !! k = dst !! k) as Hcopy.
  { intros src dst. rewrite copyIfTruthy_lookup. by rewrite decide_False. }
  unfold entryOf, mergeLanguage, andThen, mergeTitle, mergeExcerpt, mergeContent,
    mergeSeo, mergeSeoField, mergeTags, andThen.
  destruct (lc_title lc), (lc_excerpt lc), (lc_content lc) as [c|];
    simpl; rewrite ?Hcopy; auto.
  assert ((match c !! lang with
           | Some v => if contentTruthy v then <[lang:=v]> (gc_content gc)
                       else gc_content gc
           | None => gc_content gc
           end) !! k = gc_content gc !! k) as Hbody.
  { destruct (c !! lang) as [v|]; [|done].
    destruct (contentTruthy v); [|done]. by rewrite lookup_insert_ne. }
  destruct inc, (lc_seo lc) as [[[mt|] [md|]]|]; simpl; rewrite ?Hcopy, ?Hbody; auto;
    merge_cases lang completed lc; rewrite ?Hcopy, ?Hbody; auto.
Qed.

(** A body with the three maps gets its entries under the language of
    the request merged, whatever becomes of the rest of the merge. *)
Lemma mergeLanguage_own inc completed lang lc gc t e c :
  lc_title lc = Some t → lc_excerpt lc = Some e → lc_content lc = Some c →
  let gc' := snd (mergeLanguage inc completed lang lc gc) in
  gc_title gc' = copyIfTruthy t lang (gc_title gc)
  ∧ gc_excerpt gc' = copyIfTruthy e lang (gc_excerpt gc)
  ∧ gc_content gc'
    = match c !! lang with
      | Some v => if contentTruthy v then <[lang := v]> (gc_content gc)
                  else gc_content gc
      | None => gc_content gc
      end.
Proof.
  intros Ht He Hc.
  unfold mergeLanguage, andThen, mergeTitle, mergeExcerpt, mergeContent,
    mergeSeo, mergeSeoField, mergeTags, andThen.
  rewrite Ht, He, Hc. simpl.
  destruct inc, (lc_seo lc) as [[[mt|] [md|]]|]; simpl; auto;
    merge_cases lang completed lc.
Qed.

Lemma generateLoop_other url langs completed gc w k :
  k ∉ langs →
  entryOf (fst (generateLoop E formData url langs completed (gc, w))) k
  = entryOf gc k.
Proof.
  revert completed gc w.
  induction langs as [|lang langs IH]; intros completed gc w Hk; [done|].
  apply not_elem_of_cons in Hk as [Hne Hk]. cbn [generateLoop].
  destruct (generateLanguage E formData url (S completed) lang (gc, w))
    as [gc1 w1] eqn:Hstep.
  rewrite IH by done. unfold generateLanguage in Hstep.
  destruct (generateArticle E _ url lang) as [err|[] [lc|err]];
    injection Hstep as <- <-; try done.
  by apply mergeLanguage_other.
Qed.

(** The entry of a language, after the loop, is the entry right after
    the last iteration of that language: the iterations of the other
    languages that follow leave it alone. *)
Lemma generateLoop_last url langs completed gc w lang i :
  langs !! i = Some lang →
  (∀ j, i < j → langs !! j ≠ Some lang) →
  ∃ gc0 w0,
    entryOf (fst (generateLoop E formData url langs completed (gc, w))) lang
    = entryOf (fst (generateLanguage E formData url (S (completed + i)) lang
                      (gc0, w0))) lang.
Proof.
  revert i completed gc w.
  induction langs as [|l langs IH]; intros i completed gc w Hi Hlast; [done|].
  cbn [generateLoop]. destruct i as [|i].
  - injection Hi as ->. exists gc, w. rewrite Nat.add_0_r.
    destruct (generateLanguage E formData url (S completed) lang (gc, w))
      as [gc1 w1].
    apply generateLoop_other. intros Hin.
    apply list_elem_of_lookup_1 in Hin as [j Hj].
    apply (Hlast (S j)); [lia|exact Hj].
  - destruct (generateLanguage E formData url (S completed) l (gc, w))
      as [gc1 w1].
    destruct (IH i (S completed) gc1 w1 Hi) as (gc0 & w0 & Hafter).
    { intros j Hj. apply (Hlast (S j)). lia. }
    exists gc0, w0. by rewrite <- Nat.add_succ_comm.
Qed.

End Delivered.

(** A language among the five whose last request is answered with a
    body holding the three maps, with a non-empty title, excerpt and
    body under that language, is in the payload of a run that returns:
    title and excerpt as generated, a text body converted to blocks and
    an array body as it is. *)
Lemma generate_delivers
    (E : GenEnv) (formData : GenerationFormData) (documentId : jsstring)
    (data : DocumentData) (w : World) (lang : jsstring) (i : nat)
    (lc : LangContent) (t e : gmap jsstring jsstring)
    (c : gmap jsstring ContentValue) (title excerpt : jsstring)
    (body : ContentValue) :
  generate E formData documentId = (Resolved data, w) →
  lang ∈ languages5 →
  languages formData !! i = Some lang →
  (∀ j, i < j → languages formData !! j ≠ Some lang) →
  generateArticle E i (generateApiUrl E) lang = FetchResponse true (Resolved lc) →
  lc_title lc = Some t → lc_excerpt lc = Some e → lc_content lc = Some c →
  t !! lang = Some title → title ≠ [] →
  e !! lang = Some excerpt → excerpt ≠ [] →
  c !! lang = Some body → contentTruthy body = true →
  doc_title data !! lang = Some title
  ∧ doc_excerpt data !! lang = Some excerpt
  ∧ doc_content data !! lang
    = Some match body with
           | ContentText markdown => formatBlockContent markdown
           | ContentBlocks blocks => blocks
           end.
Proof.
  intros Hrun Hfive Hi Hlast Hresp Ht He Hc Htitle Htne Hexc Hene Hbody Hbt.
  destruct (generate_resolved_data E formData documentId data w Hrun)
    as (image & w1 & assetId & _ & ->). cbn zeta.
  set (gc := fst (generateLoop _ _ _ _ _ _)).
  destruct (generateLoop_last E formData (generateApiUrl E) (languages formData) 0
              (initialContent formData image) (setState generating w1) lang i
              Hi Hlast) as (gc0 & w0 & Hentry).
  fold gc in Hentry. cbn [Nat.add] in Hentry.
  unfold generateLanguage in Hentry. rewrite Nat.sub_1_r in Hentry.
  cbn [Nat.pred] in Hentry. rewrite Hresp in Hentry. cbn [fst] in Hentry.
  destruct (mergeLanguage_own (includeSeo formData) (S i) lang lc gc0 t e c
              Ht He Hc) as (Hmt & Hme & Hmc).
  unfold entryOf in Hentry. rewrite Hmt, Hme, Hmc in Hentry.
  rewrite !copyIfTruthy_lookup, !decide_True, Htitle, Hexc, Hbody in Hentry by done.
  assert (Js.truthy title = true) as Htt by (by destruct title).
  assert (Js.truthy excerpt = true) as Het by (by destruct excerpt).
  rewrite Htt, Het, Hbt, lookup_insert_eq in Hentry.
  injection Hentry as Hgt Hge Hgc.
  cbn [documentData doc_title doc_excerpt doc_content].
  rewrite formatContentForSanity_title, formatContentForSanity_excerpt,
    formatContentForSanity_content by done.
  unfold formattedBody. rewrite Hgt, Hge, Hgc, Htt, Het.
  split_and!; [reflexivity..|].
  destruct body as [markdown|blocks]; [|reflexivity].
  cbn [contentTruthy] in Hbt. by rewrite Hbt.
Qed.

(** *** [Array.from(new Set(xs))] *)

Lemma foldl_seen_spec (xs seen : list jsstring) :
  let out := foldl (λ seen x, if decide (x ∈ seen) then seen else seen ++ [x])
               seen xs in
  (NoDup seen → NoDup out) ∧ ∀ x, x ∈ out ↔ x ∈ seen ∨ x ∈ xs.
Proof.
  revert seen. induction xs as [|y xs IH]; intros seen; simpl.
  - split; [done|]. intros x. rewrite elem_of_nil. tauto.
  - destruct (IH (if decide (y ∈ seen) then seen else seen ++ [y])) as [Hnd Hin].
    split.
    + intros Hseen. apply Hnd. case_decide; [done|].
      apply NoDup_app. split_and!; [done| |apply NoDup_singleton].
      intros x Hx ->%list_elem_of_singleton. done.
    + intros x. rewrite Hin, elem_of_cons. case_decide.
      * split; [tauto|]. intros [?|[->|?]]; tauto.
      * rewrite elem_of_app, list_elem_of_singleton. tauto.
Qed.

(** The result has no duplicates and the same elements. *)
Lemma arrayFromSet_spec (xs : list jsstring) :
  NoDup (arrayFromSet xs) ∧ ∀ x, x ∈ arrayFromSet xs ↔ x ∈ xs.
Proof.
  destruct (foldl_seen_spec xs []) as [Hnd Hin]. split.
  - apply Hnd, NoDup_nil_2.
  - intros x. unfold arrayFromSet. rewrite Hin, elem_of_nil. tauto.
Qed.

(** *** Validation *)

(** C2: with an empty topic or an empty list of languages [generate]
    throws to its caller, leaves the hook in the [error] state with the
    validation message, and has issued no request at all: neither the
    image search nor any generation request. *)
Theorem generate_validation_fails
    (E : GenEnv) (formData : GenerationFormData) (documentId : jsstring) :
  topic formData = [] ∨ languages formData = [] →
  ∃ w, generate E formData documentId = (Rejected validationError, w)
       ∧ hook_state (hook w) = error
       ∧ p_state (hook_progress (hook w)) = error
       ∧ hook_error (hook w)
         = Some (Js.lit "Topic and at least one language are required")
       ∧ requests w = [].
Proof.
  intros Hinvalid. unfold generate.
  assert (negb (Js.truthy (topic formData)) || (length (languages formData) =? 0)
          = true) as ->.
  { destruct Hinvalid as [->| ->]; [done|]. simpl. apply orb_true_r. }
  cbn zeta. eexists. split; [reflexivity|]. by vm_compute.
Qed.

(** The sample form with its topic erased, against collaborators that
    would all answer. *)
Lemma generate_validation_fails_witness :
  ∃ w, generate (sampleEnv None)
         (mkFormData [] [] [] [Js.lit "en"] friendly short true
            (mkImageSettings true [] false)) []
       = (Rejected validationError, w)
       ∧ hook_state (hook w) = error ∧ requests w = [].
Proof.
  destruct (generate_validation_fails (sampleEnv None)
              (mkFormData [] [] [] [Js.lit "en"] friendly short true
                 (mkImageSettings true [] false)) [] (or_introl eq_refl))
    as (w & Hrun & Hstate & _ & _ & Hreq).
  by exists w.
Defined.

(** *** Partial success *)

(** C1: for a form with a topic and at least one language, when some
    language's request fails (rejected fetch, non-ok response or
    unreadable body) and the image search does not throw, [generate]
    returns a payload; its title, excerpt and content have entries only
    under languages one of whose requests succeeded (none under a
    language whose requests all failed); the hook ends in the [complete]
    state; and the final progress lists every requested language as
    completed, the failed ones included.  The content is partial, not
    empty: each of the five languages ro, en, pl, hu and cs whose last
    request is answered with a body holding a non-empty title, excerpt
    and body under that language is in the payload, with its title and
    excerpt as generated and its body as blocks (a text converted by
    [formatBlockContent], an array as it is), whatever happened to the
    other languages. *)
Theorem generate_partial_success
    (E : GenEnv) (formData : GenerationFormData) (documentId : jsstring) :
  topic formData ≠ [] →
  languages formData ≠ [] →
  searchSettles E formData = true →
  (∃ i lang, languages formData !! i = Some lang
             ∧ requestSucceeded (generateArticle E i (generateApiUrl E) lang) = false) →
  ∃ data w,
    generate E formData documentId = (Resolved data, w)
    ∧ hook w = mkHook complete (mkProgress complete (languages formData) None None) None
    ∧ (∀ lang,
         is_Some (doc_title data !! lang) ∨ is_Some (doc_excerpt data !! lang)
         ∨ is_Some (doc_content data !! lang) →
         ∃ i, languages formData !! i = Some lang
              ∧ requestSucceeded (generateArticle E i (generateApiUrl E) lang) = true)
    ∧ (∀ lang,
         (∀ i, languages formData !! i = Some lang →
               requestSucceeded (generateArticle E i (generateApiUrl E) lang) = false) →
         doc_title data !! lang = None ∧ doc_excerpt data !! lang = None
         ∧ doc_content data !! lang = None)
    ∧ (∀ lang i lc t e c title excerpt body,
         lang ∈ languages5 →
         languages formData !! i = Some lang →
         (∀ j, i < j → languages formData !! j ≠ Some lang) →
         generateArticle E i (generateApiUrl E) lang
         = FetchResponse true (Resolved lc) →
         lc_title lc = Some t → lc_excerpt lc = Some e → lc_content lc = Some c →
         t !! lang = Some title → title ≠ [] →
         e !! lang = Some excerpt → excerpt ≠ [] →
         c !! lang = Some body → contentTruthy body = true →
         doc_title data !! lang = Some title
         ∧ doc_excerpt data !! lang = Some excerpt
         ∧ doc_content data !! lang
           = Some match body with
                  | ContentText markdown => formatBlockContent markdown
                  | ContentBlocks blocks => blocks
                  end).
Proof.
  intros Htopic Hlangs Hsearch _.
  unfold searchSettles in Hsearch.
  destruct (searchFeaturedImage E formData startWorld) as [[image|err] w1] eqn:Hs;
    [|done].
  destruct (generate_completes E formData documentId image w1 Htopic Hlangs Hs)
    as (assetId & w & Hrun & Hhook & _).
  set (gc := fst (generateLoop E formData (generateApiUrl E) (languages formData) 0
                    (initialContent formData image, setState generating w1))) in *.
  assert (∀ lang,
         is_Some (fc_title (formatContentForSanity gc) !! lang)
         ∨ is_Some (fc_excerpt (formatContentForSanity gc) !! lang)
         ∨ is_Some (fc_content (formatContentForSanity gc) !! lang) →
         ∃ i, languages formData !! i = Some lang
              ∧ requestSucceeded (generateArticle E i (generateApiUrl E) lang) = true)
    as Honly.
  { intros lang Hentry.
    destruct (formatContentForSanity_entries gc lang) as (Ht & He & Hc).
    assert (lang ∈ entries gc) as Hin.
    { unfold entries. rewrite !elem_of_union, !elem_of_dom.
      destruct Hentry as [?|[?|?]]; auto. }
    apply generateLoop_entries in Hin as [Hin|(j & Hj & Hok)].
    - unfold entries, initialContent in Hin. simpl in Hin. set_solver.
    - by exists j. }
  eexists _, _. split_and!; [exact Hrun|exact Hhook|exact Honly| |].
  - intros lang Hfailed. simpl.
    split_and!; apply eq_None_not_Some; intros Hsome;
      (destruct (Honly lang) as (i & Hi & Hok); [by auto|]);
      by rewrite (Hfailed i Hi) in Hok.
  - intros lang i lc t e c title excerpt body.
    exact (generate_delivers E formData documentId _ w lang i lc t e c
             title excerpt body Hrun).
Qed.

(** English is rejected, Romanian succeeds: the payload has no English
    title, it has the Romanian title and excerpt and the Romanian body
    converted to blocks, and both languages are listed as completed. *)
Lemma generate_partial_success_witness :
  ∃ data w,
    generate (sampleEnv (Some 0)) sampleForm [] = (Resolved data, w)
    ∧ completedLanguages (hook_progress (hook w)) = [Js.lit "en"; Js.lit "ro"]
    ∧ doc_title data !! Js.lit "en" = None
    ∧ doc_title data !! Js.lit "ro" = Some (Js.lit "Câine fericit!")
    ∧ doc_excerpt data !! Js.lit "ro" = Some (Js.lit "Un articol")
    ∧ doc_content data !! Js.lit "ro" = Some (formatBlockContent sampleMarkdown).
Proof.
  destruct (generate_partial_success (sampleEnv (Some 0)) sampleForm [])
    as (data & w & Hrun & Hhook & _ & Hnone & Hdelivered).
  - vm_compute. discriminate.
  - vm_compute. discriminate.
  - vm_compute. reflexivity.
  - exists 0, (Js.lit "en"). split; vm_compute; reflexivity.
  - exists data, w.
    split; [exact Hrun|]. split; [rewrite Hhook; reflexivity|]. split.
    + apply Hnone. intros [|[|i]] Hi; [reflexivity|vm_compute in Hi; discriminate..].
    + apply (Hdelivered (Js.lit "ro") 1 (sampleBody (Js.lit "ro"))
               {[ Js.lit "ro" := Js.lit "Câine fericit!" ]}
               {[ Js.lit "ro" := Js.lit "Un articol" ]}
               {[ Js.lit "ro" := ContentText sampleMarkdown ]}
               (Js.lit "Câine fericit!") (Js.lit "Un articol")
               (ContentText sampleMarkdown)).
      * by_computation.
      * reflexivity.
      * intros [|[|[|j]]] Hj Hlang;
          [lia|lia|vm_compute in Hlang; discriminate..].
      * reflexivity.
      * reflexivity.
      * reflexivity.
      * reflexivity.
      * apply lookup_singleton_eq.
      * vm_compute. discriminate.
      * apply lookup_singleton_eq.
      * vm_compute. discriminate.
      * apply lookup_singleton_eq.
      * vm_compute. reflexivity.
Defined.

(** *** Tags *)

(** The claim C3 as stated fails: English, requested first, is rejected
    and Romanian succeeds with the tags "a" and "k", yet the payload
    carries the caller's keyword "k" alone and not the merge of the
    keywords with the tags of the first successful language. *)
Lemma generate_tags_first_language_failed :
  ∃ data w,
    generate (sampleEnv (Some 0)) sampleForm [] = (Resolved data, w)
    ∧ requestSucceeded
        (generateArticle (sampleEnv (Some 0)) 0
           (generateApiUrl (sampleEnv (Some 0))) (Js.lit "en")) = false
    ∧ generateArticle (sampleEnv (Some 0)) 1
        (generateApiUrl (sampleEnv (Some 0))) (Js.lit "ro")
      = FetchResponse true (Resolved (sampleBody (Js.lit "ro")))
    ∧ lc_tags (sampleBody (Js.lit "ro")) = Some [Js.lit "a"; Js.lit "k"]
    ∧ doc_tags data = [Js.lit "k"]
    ∧ doc_tags data
      ≠ arrayFromSet (keywords sampleForm ++ [Js.lit "a"; Js.lit "k"]).
Proof.
  eexists _, _. split; [vm_compute; reflexivity|].
  vm_compute. split_and!; (reflexivity || discriminate).
Qed.

(** C3 (amended): in a run that returns, the payload's tags are the
    caller's keywords merged and de-duplicated with the tags of the
    language requested first, provided its request succeeds with a
    well-shaped body carrying tags; when the request of the language
    requested first fails, or its body carries no tags, the payload's
    tags are the caller's keywords as given; the tags of the languages
    requested later are never merged.  The merge keeps one copy of each
    element. *)
Theorem generate_tags_from_first_requested
    (E : GenEnv) (formData : GenerationFormData) (documentId : jsstring)
    (data : DocumentData) (w : World) (lang : jsstring) (rest : list jsstring) :
  generate E formData documentId = (Resolved data, w) →
  languages formData = lang :: rest →
  let first := generateArticle E 0 (generateApiUrl E) lang in
  (∀ lc tags,
     first = FetchResponse true (Resolved lc) → wellShaped lc →
     lc_tags lc = Some tags →
     doc_tags data = arrayFromSet (keywords formData ++ tags))
  ∧ (requestSucceeded first = false → doc_tags data = keywords formData)
  ∧ (∀ lc, first = FetchResponse true (Resolved lc) → lc_tags lc = None →
           doc_tags data = keywords formData)
  ∧ (∀ xs : list jsstring,
       NoDup (arrayFromSet xs) ∧ ∀ x, x ∈ arrayFromSet xs ↔ x ∈ xs).
Proof.
  intros Hrun Hlangs first.
  destruct (generate_resolved_data E formData documentId data w Hrun)
    as (image & w1 & assetId & _ & Hdata).
  cbn zeta in Hdata. rewrite Hlangs in Hdata. cbn [generateLoop] in Hdata.
  assert (doc_tags data
          = gc_tags (fst (generateLanguage E formData (generateApiUrl E) 1 lang
                            (initialContent formData image, setState generating w1))))
    as Htags.
  { rewrite Hdata. unfold documentData. cbn [doc_tags].
    destruct (generateLanguage E formData (generateApiUrl E) 1 lang _) as [gc1 w2].
    by rewrite generateLoop_tags_later by lia. }
  clear Hdata. unfold generateLanguage in Htags. cbn [Nat.sub] in Htags.
  fold first in Htags.
  split_and!.
  - intros lc tags Hfirst Hshape Hlc. rewrite Htags, Hfirst. simpl.
    rewrite (mergeLanguage_first_tags formData lang lc _ tags Hshape Hlc); [done|].
    simpl. by intros ->.
  - intros Hfailed. rewrite Htags.
    by destruct first as [|[] []].
  - intros lc Hfirst Hlc. rewrite Htags, Hfirst. simpl.
    destruct (mergeLanguage_tags (includeSeo formData) 1 lang lc
                (initialContent formData image)) as [H|(_ & tags & Hsome & _)];
      [done|congruence].
  - apply arrayFromSet_spec.
Qed.

(** Both requests succeed: the tags "a" and "k" of English, requested
    first, are merged with the keyword "k". *)
Lemma generate_tags_from_first_requested_witness :
  ∃ data w,
    generate (sampleEnv None) sampleForm [] = (Resolved data, w)
    ∧ doc_tags data = [Js.lit "k"; Js.lit "a"].
Proof.
  pose (run := generate (sampleEnv None) sampleForm []).
  assert (∃ data, run = (Resolved data, snd run)) as [data Hrun]
    by (eexists; vm_compute; reflexivity).
  exists data, (snd run). split; [exact Hrun|].
  destruct (generate_tags_from_first_requested (sampleEnv None) sampleForm []
              data (snd run) (Js.lit "en") [Js.lit "ro"] Hrun eq_refl)
    as (Hmerged & _).
  rewrite (Hmerged (sampleBody (Js.lit "en")) [Js.lit "a"; Js.lit "k"]).
  - vm_compute. reflexivity.
  - vm_compute. reflexivity.
  - unfold wellShaped, sampleBody. simpl. split_and!; by eexists.
  - reflexivity.
Defined.

(** *** The slug *)

(** C6: [generateSlug] turns the title "Câine fericit!" into
    "cine-fericit": lower case, punctuation removed, the space replaced
    by a single hyphen; the slug neither starts nor ends with a hyphen
    and has no two hyphens in a row.  In a run that returns, the slug
    of the payload is that of the Romanian title when there is one,
    else of the English one. *)
Theorem generateSlug_caine_fericit
    (E : GenEnv) (formData : GenerationFormData) (documentId : jsstring)
    (data : DocumentData) (w : World) :
  generate E formData documentId = (Resolved data, w) →
  let slug := generateSlug (Js.lit "Câine fericit!") in
  slug = Js.lit "cine-fericit"
  ∧ head slug ≠ Some Js.hyphen
  ∧ last slug ≠ Some Js.hyphen
  ∧ (∀ i, ¬ (slug !! i = Some Js.hyphen ∧ slug !! S i = Some Js.hyphen))
  ∧ doc_slug data
    = generateSlug
        (Js.opt_or_else (doc_title data !! Js.lit "ro")
           (Js.opt_or_else (doc_title data !! Js.lit "en") []))
  ∧ (doc_title data !! Js.lit "ro" = Some (Js.lit "Câine fericit!") →
     doc_slug data = Js.lit "cine-fericit")
  ∧ (doc_title data !! Js.lit "ro" = None →
     doc_title data !! Js.lit "en" = Some (Js.lit "Câine fericit!") →
     doc_slug data = Js.lit "cine-fericit").
Proof.
  intros Hrun slug.
  assert (slug = Js.lit "cine-fericit") as Hslug by (vm_compute; reflexivity).
  assert (doc_slug data
    = generateSlug
        (Js.opt_or_else (doc_title data !! Js.lit "ro")
           (Js.opt_or_else (doc_title data !! Js.lit "en") []))) as Hdoc.
  { destruct (generate_resolved_data E formData documentId data w Hrun)
      as (image & w1 & assetId & _ & ->). reflexivity. }
  split_and!.
  - exact Hslug.
  - rewrite Hslug. vm_compute. discriminate.
  - rewrite Hslug. vm_compute. discriminate.
  - rewrite Hslug. intros i [H1 H2]. vm_compute in H1, H2.
    do 13 (destruct i as [|i]; [discriminate|]). discriminate.
  - exact Hdoc.
  - intros Hro. rewrite Hdoc, Hro. exact Hslug.
  - intros Hro Hen. rewrite Hdoc, Hro, Hen. exact Hslug.
Qed.

(** English is rejected and Romanian answers with the title
    "Câine fericit!": the slug of the payload is "cine-fericit". *)
Lemma generateSlug_caine_fericit_witness :
  ∃ data w,
    generate (sampleEnv (Some 0)) sampleForm [] = (Resolved data, w)
    ∧ doc_title data !! Js.lit "ro" = Some (Js.lit "Câine fericit!")
    ∧ doc_slug data = Js.lit "cine-fericit".
Proof.
  pose (run := generate (sampleEnv (Some 0)) sampleForm []).
  assert (∃ data, run = (Resolved data, snd run)) as [data Hrun]
    by (eexists; vm_compute; reflexivity).
  assert (doc_title data !! Js.lit "ro" = Some (Js.lit "Câine fericit!")) as Hro.
  { vm_compute in Hrun. injection Hrun as <-. vm_compute. reflexivity. }
  exists data, (snd run). split_and!; [exact Hrun|exact Hro|].
  destruct (generateSlug_caine_fericit (sampleEnv (Some 0)) sampleForm [] data
              (snd run) Hrun) as (_ & _ & _ & _ & _ & Hslug & _).
  exact (Hslug Hro).
Defined.

(** *** The featured-image search *)

(** What the search step does with each settlement of its request: the
    query is [imageKeywords], or the topic when that is the empty
    string; a non-ok response and a response without results give no
    image; the first result is taken when there is one; a rejected
    fetch and an unreadable ok response are thrown on. *)
Lemma searchFeaturedImage_cases
    (E : GenEnv) (formData : GenerationFormData) (w : World) :
  featuredImage (imageSettings formData) = true →
  let url := apiUrl E (Js.lit "/api/unsplash-search") in
  let query := Js.or_else (imageKeywords (imageSettings formData)) (topic formData) in
  requests (snd (searchFeaturedImage E formData w))
  = requests w ++ [SearchRequest url query 1]
  ∧ fst (searchFeaturedImage E formData w)
    = match searchImages E url query with
      | FetchRejects err => Rejected err
      | FetchResponse true (Rejected err) => Rejected err
      | FetchResponse true (Resolved body) =>
          Resolved (default [] (results body) !! 0)
      | FetchResponse false _ => Resolved None
      end.
Proof.
  intros Hon url query. unfold searchFeaturedImage. rewrite Hon.
  fold url query.
  destruct (searchImages E url query) as [err|[] [[[[|first others]|]]|err]]; done.
Qed.

(** A run that finds no image returns a payload without a featured
    image. *)
Lemma generate_without_image
    (E : GenEnv) (formData : GenerationFormData) (documentId : jsstring) :
  topic formData ≠ [] → languages formData ≠ [] →
  fst (searchFeaturedImage E formData startWorld) = Resolved None →
  ∃ data w, generate E formData documentId = (Resolved data, w)
            ∧ hook_state (hook w) = complete
            ∧ doc_featuredImage data = None.
Proof.
  intros Htopic Hlangs Hsearch.
  destruct (searchFeaturedImage E formData startWorld) as [res w1] eqn:Hs.
  simpl in Hsearch. subst res.
  destruct (generate_completes E formData documentId None w1 Htopic Hlangs Hs)
    as (assetId & w & Hrun & Hhook & Hnone).
  rewrite (Hnone eq_refl) in Hrun.
  eexists _, _. split_and!; [exact Hrun|by rewrite Hhook|reflexivity].
Qed.

(** C7 (where the code departs from the claim): with the featured image
    asked for and a form that passes validation, an image search whose
    fetch is rejected ends the run: [generate] throws the rejection,
    the hook is left in the [error] state with the message of the
    error, and no generation request is issued. *)
Theorem generate_image_search_rejected_is_fatal :
  featuredImage (imageSettings sampleForm) = true
  ∧ topic sampleForm ≠ [] ∧ languages sampleForm ≠ []
  ∧ searchImages offlineSearchEnv (Js.lit "/api/unsplash-search") (topic sampleForm)
    = FetchRejects fetchFailed
  ∧ ∃ w, generate offlineSearchEnv sampleForm [] = (Rejected fetchFailed, w)
         ∧ hook_state (hook w) = error
         ∧ p_state (hook_progress (hook w)) = error
         ∧ hook_error (hook w) = Some (Js.lit "Failed to fetch")
         ∧ requests w
           = [SearchRequest (Js.lit "/api/unsplash-search") (Js.lit "x") 1].
Proof.
  split_and!; [reflexivity|discriminate|discriminate|reflexivity|].
  eexists. split; [vm_compute; reflexivity|].
  vm_compute. split_and!; reflexivity.
Qed.

(** * Further properties *)

(** ** Inline emphasis and blocks *)

Section FormatterMore.

Implicit Types (s p text part line : jsstring) (c : N).

Lemma startsWith_take p s : Js.startsWith p s = true → take (length p) s = p.
Proof.
  intros H. apply startsWith_app in H. rewrite H at 1.
  by rewrite take_app_length.
Qed.

Lemma endsWith_drop p s :
  Js.endsWith p s = true → drop (length s - length p) s = p.
Proof.
  unfold Js.endsWith. intros H. apply startsWith_take in H.
  rewrite length_reverse, take_reverse in H.
  apply (f_equal reverse) in H. by rewrite !reverse_involutive in H.
Qed.

Lemma filter_notStar_stars s :
  Forall (λ c, c = Js.star) s → filter notStar s = [].
Proof.
  induction 1 as [|c s -> _ IH]; [done|].
  rewrite filter_cons_False; [done|]. by intros H.
Qed.

(** Cutting [a] units at the front and [b] at the back of a part whose
    first [a] and last [b] units are asterisks removes asterisks only. *)
Lemma filter_notStar_slice a b s :
  Forall (λ c, c = Js.star) (take a s) →
  Forall (λ c, c = Js.star) (drop (length s - b) s) →
  filter notStar (Js.slice a b s) = filter notStar s.
Proof.
  intros Hfront Hback. unfold Js.slice.
  rewrite <- (take_drop (length s - b) s) at 3.
  rewrite filter_app, (filter_notStar_stars (drop _ s)) by done.
  rewrite app_nil_r.
  rewrite <- (take_drop a (take (length s - b) s)) at 2.
  rewrite filter_app, (filter_notStar_stars (take a (take _ s))); [done|].
  rewrite take_take. eapply Forall_take in Hfront.
  rewrite take_take in Hfront.
  replace (a `min` (length s - b)) with ((a `min` (length s - b)) `min` a) by lia.
  exact Hfront.
Qed.

Lemma spanOfPart_notStar part :
  filter notStar (spansText (spanOfPart part)) = filter notStar part.
Proof.
  unfold spanOfPart, spansText. destruct part as [|c part]; [done|].
  cbn [Js.truthy negb].
  destruct (Js.startsWith [Js.star; Js.star] (c :: part)
            && Js.endsWith [Js.star; Js.star] (c :: part)) eqn:Hbold.
  - apply andb_true_iff in Hbold as [Hs He].
    cbn [fmap list_fmap concat span_text]. rewrite app_nil_r.
    apply filter_notStar_slice.
    + apply startsWith_take in Hs. cbn [length] in Hs. rewrite Hs.
      by repeat constructor.
    + apply endsWith_drop in He. cbn [length] in He. cbn [length].
      rewrite He. by repeat constructor.
  - destruct (Js.startsWith [Js.star] (c :: part)
              && Js.endsWith [Js.star] (c :: part)) eqn:Hem.
    + apply andb_true_iff in Hem as [Hs He].
      cbn [fmap list_fmap concat span_text]. rewrite app_nil_r.
      apply filter_notStar_slice.
      * apply startsWith_take in Hs. cbn [length] in Hs. rewrite Hs.
        by repeat constructor.
      * apply endsWith_drop in He. cbn [length] in He. cbn [length].
        rewrite He. by repeat constructor.
    + cbn [fmap list_fmap concat span_text]. by rewrite app_nil_r.
Qed.

Lemma spansText_app (a b : list Span) :
  spansText (a ++ b) = spansText a ++ spansText b.
Proof. unfold spansText. by rewrite fmap_app, concat_app. Qed.

Lemma parts_notStar (parts : list jsstring) :
  filter notStar (spansText (parts ≫= spanOfPart)) = filter notStar (concat parts).
Proof.
  induction parts as [|part parts IH]; [done|].
  cbn [mbind list_bind concat]. fold (parts ≫= spanOfPart).
  by rewrite spansText_app, !filter_app, IH, spanOfPart_notStar.
Qed.

(** Where no unit is an asterisk the separator never matches. *)
Lemma splitLoop_plain (n : nat) (cur s : jsstring) :
  Js.star ∉ s → length s ≤ n → splitLoop n cur s = [reverse cur ++ s].
Proof.
  revert cur s. induction n as [|n IH]; intros cur s Hs Hn.
  - destruct s; [|simpl in Hn; lia]. simpl. by rewrite app_nil_r.
  - destruct s as [|c s]; [simpl; by rewrite app_nil_r|].
    apply not_elem_of_cons in Hs as [Hc Hs]. simpl in Hn.
    assert (matchEmphasis (c :: s) = None) as Hnone.
    { unfold matchEmphasis. cbn [Js.startsWith].
      destruct (N.eqb_spec Js.star c) as [<-|_]; done. }
    cbn [splitLoop]. rewrite Hnone, IH by (done || lia).
    by rewrite reverse_cons, <- app_assoc.
Qed.

Lemma dropWhile_snoc (p : N → bool) (l : jsstring) (c : N) :
  p c = false → Js.dropWhile p (l ++ [c]) ≠ [].
Proof.
  intros Hc. induction l as [|a l IH]; simpl.
  - by rewrite Hc.
  - by destruct (p a).
Qed.

(** A line that starts with a unit that is not white space is not
    blank. *)
Lemma trim_nonblank (c : N) (s : jsstring) :
  Js.isSpace c = false → Js.trim (c :: s) ≠ [].
Proof.
  intros Hc. unfold Js.trim. cbn [Js.dropWhile]. rewrite Hc, reverse_cons.
  intros H. apply (f_equal reverse) in H. rewrite reverse_involutive in H.
  by apply dropWhile_snoc in H.
Qed.

Lemma parseInlineFormatting_nonempty (text : jsstring) :
  parseInlineFormatting text ≠ [].
Proof.
  unfold parseInlineFormatting. by destruct (splitEmphasis text ≫= spanOfPart).
Qed.

End FormatterMore.

(** X1: inline parsing keeps every unit of the line that is not an
    asterisk, in order: the parts of the split put together are the
    line, and the texts of the spans put together differ from the line
    by asterisks only. *)
Theorem parseInlineFormatting_keeps_text (text : jsstring) :
  concat (splitEmphasis text) = text
  ∧ filter notStar (spansText (parseInlineFormatting text)) = filter notStar text.
Proof.
  split; [apply splitEmphasis_concat|].
  unfold parseInlineFormatting.
  pose proof (parts_notStar (splitEmphasis text)) as Hparts.
  rewrite splitEmphasis_concat in Hparts.
  destruct (splitEmphasis text ≫= spanOfPart) as [|span spans]; [|done].
  unfold spansText. simpl. by rewrite app_nil_r.
Qed.

(** X2: a line without any asterisk, the empty line included, is one
    span without marks that carries the line unchanged. *)
Theorem parseInlineFormatting_plain (text : jsstring) :
  Js.star ∉ text → parseInlineFormatting text = [mkSpan text None].
Proof.
  intros Hplain. unfold parseInlineFormatting, splitEmphasis.
  rewrite splitLoop_plain by done. cbn [reverse app mbind list_bind].
  rewrite reverse_nil. cbn [app]. rewrite app_nil_r.
  destruct text as [|c text]; [done|].
  apply not_elem_of_cons in Hplain as [Hc _].
  unfold spanOfPart. cbn [Js.truthy negb Js.startsWith].
  destruct (N.eqb_spec Js.star c) as [<-|_]; done.
Qed.

Lemma parseInlineFormatting_plain_witness :
  parseInlineFormatting (Js.lit "Un articol") = [mkSpan (Js.lit "Un articol") None].
Proof.
  apply parseInlineFormatting_plain. by_computation.
Defined.

(** X3: [formatBlockContent] only produces text blocks, each with at
    least one span, and never more blocks than the text has lines. *)
Theorem formatBlockContent_blocks (markdown : jsstring) :
  Forall (λ b, ∃ style children, b = TextBlock style children ∧ children ≠ [])
    (formatBlockContent markdown)
  ∧ length (formatBlockContent markdown) ≤ length (Js.split Js.newline markdown).
Proof.
  unfold formatBlockContent.
  induction (Js.split Js.newline markdown) as [|line lines [IHall IHlen]];
    [by split|].
  cbn [mbind list_bind]. fold (lines ≫= blockOfLine).
  assert (blockOfLine line = []
          ∨ ∃ style children,
              blockOfLine line = [TextBlock style children] ∧ children ≠ [])
    as [Hnone|(style & children & Hone & Hne)].
  { unfold blockOfLine.
    repeat match goal with
           | |- context [if ?b then _ else _] => destruct b
           end; try (by left); right; eexists _, _; split; try done.
    apply parseInlineFormatting_nonempty. }
  - rewrite Hnone. cbn [app length]. split; [done|lia].
  - rewrite Hone. cbn [app length]. split; [|lia].
    constructor; [by eexists _, _|done].
Qed.

(** X4: a line that starts with "# ", "## ", "### " or "> " becomes a
    block of style h1, h2, h3 or blockquote whose only span is the rest
    of the line, taken as it is: asterisks in a heading or a quote are
    not read as emphasis.  Four number signs are no heading: the line is
    a paragraph. *)
Theorem blockOfLine_prefixes (rest : jsstring) :
  blockOfLine (Js.lit "# " ++ rest) = [TextBlock h1 [mkSpan rest None]]
  ∧ blockOfLine (Js.lit "## " ++ rest) = [TextBlock h2 [mkSpan rest None]]
  ∧ blockOfLine (Js.lit "### " ++ rest) = [TextBlock h3 [mkSpan rest None]]
  ∧ blockOfLine (Js.lit "> " ++ rest) = [TextBlock blockquote [mkSpan rest None]]
  ∧ blockOfLine (Js.lit "#### " ++ rest)
    = [TextBlock normal (parseInlineFormatting (Js.lit "#### " ++ rest))].
Proof.
  assert (∀ c s, Js.isSpace c = false → negb (Js.truthy (Js.trim (c :: s))) = false)
    as Hblank.
  { intros c s Hc. pose proof (trim_nonblank c s Hc).
    by destruct (Js.trim (c :: s)). }
  unfold blockOfLine.
  change (Js.lit "# ") with [35%N; 32%N].
  change (Js.lit "## ") with [35%N; 35%N; 32%N].
  change (Js.lit "### ") with [35%N; 35%N; 35%N; 32%N].
  change (Js.lit "#### ") with [35%N; 35%N; 35%N; 35%N; 32%N].
  change (Js.lit "> ") with [62%N; 32%N].
  cbn [app]. rewrite !Hblank by reflexivity.
  split_and!; reflexivity.
Qed.

(** ** The five languages of [formatContentForSanity] *)

(** X5: [formatContentForSanity] keeps, for each of the five languages
    ro, en, pl, hu and cs, the non-empty title and excerpt as they are,
    an array body as it is and a non-empty text body converted to
    blocks; it drops whatever is stored under any other language; the
    tags are passed on unchanged. *)
Theorem formatContentForSanity_five_languages
    (content : GeneratedContent) (lang : jsstring) :
  let formatted := formatContentForSanity content in
  let nonEmpty (o : option jsstring) :=
    match o with
    | Some v => if Js.truthy v then Some v else None
    | None => None
    end in
  (lang ∈ languages5 →
   fc_title formatted !! lang = nonEmpty (gc_title content !! lang)
   ∧ fc_excerpt formatted !! lang = nonEmpty (gc_excerpt content !! lang)
   ∧ fc_content formatted !! lang = formattedBody content lang
   ∧ ∀ bs, gc_content content !! lang = Some (ContentBlocks bs) →
           fc_content formatted !! lang = Some bs)
  ∧ (lang ∉ languages5 →
     fc_title formatted !! lang = None ∧ fc_excerpt formatted !! lang = None
     ∧ fc_content formatted !! lang = None)
  ∧ fc_tags formatted = gc_tags content.
Proof.
  intros formatted nonEmpty. subst formatted. unfold formatContentForSanity.
  split_and!.
  - intros Hin.
    rewrite foldl_formatLanguage_title_lookup, foldl_formatLanguage_excerpt_lookup,
      foldl_formatLanguage_content, !decide_True by done.
    cbn [fc_title fc_excerpt fc_content]. rewrite !lookup_empty.
    split_and!.
    + destruct (gc_title content !! lang) as [v|]; [|done]. simpl.
      by destruct (Js.truthy v).
    + destruct (gc_excerpt content !! lang) as [v|]; [|done]. simpl.
      by destruct (Js.truthy v).
    + by destruct (formattedBody content lang).
    + intros bs Hbs. unfold formattedBody. by rewrite Hbs.
  - intros Hout.
    rewrite foldl_formatLanguage_title_lookup, foldl_formatLanguage_excerpt_lookup,
      foldl_formatLanguage_content, !decide_False by done.
    done.
  - by rewrite foldl_formatLanguage_tags.
Qed.

(** A German title is dropped, the English body of the sample content
    is converted. *)
Lemma formatContentForSanity_five_languages_witness :
  let content :=
    mkGeneratedContent {[ Js.lit "de" := Js.lit "Hund" ]} ∅
      {[ Js.lit "en" := ContentText sampleMarkdown ]} None None [Js.lit "k"] in
  fc_title (formatContentForSanity content) !! Js.lit "de" = None
  ∧ fc_content (formatContentForSanity content) !! Js.lit "en"
    = Some (formatBlockContent sampleMarkdown).
Proof.
  intros content.
  destruct (formatContentForSanity_five_languages content (Js.lit "de"))
    as (_ & Hout & _).
  destruct (formatContentForSanity_five_languages content (Js.lit "en"))
    as (Hin & _ & _).
  split.
  - apply Hout. by_computation.
  - destruct Hin as (_ & _ & -> & _); [by_computation|].
    vm_compute. reflexivity.
Defined.

(** ** More on the image placeholders *)

Section PlaceholdersMore.

Implicit Types (l acc : list Block) (count total : nat).

Lemma positions_bound total count :
  1 ≤ total →
  Forall (λ pos, pos < total ∧ (count < total → 1 ≤ pos)) (positions total count).
Proof.
  intros Htotal. unfold positions. apply Forall_fmap, Forall_forall. intros i Hi.
  apply elem_of_seq in Hi. simpl.
  pose proof (Nat.Div0.mul_div_le total (count + 1)) as Hdiv.
  split.
  - destruct (total / (count + 1)) as [|spacing]; [lia|nia].
  - intros Hlt.
    assert (1 ≤ total / (count + 1))
      by (apply Nat.div_le_lower_bound; lia). nia.
Qed.

Lemma last_splice {A} pos (x : A) (l : list A) :
  pos < length l → last (splice pos x l) = last l.
Proof.
  intros Hpos. rewrite !last_lookup, length_splice. unfold splice. simpl.
  rewrite lookup_app_r by (rewrite length_take; lia).
  rewrite length_take. replace (pos `min` length l) with pos by lia.
  destruct (length l - pos) as [|d] eqn:Hd; [lia|]. simpl.
  rewrite lookup_drop. f_equal. lia.
Qed.

Lemma head_splice {A} pos (x : A) (l : list A) :
  1 ≤ pos → l ≠ [] → head (splice pos x l) = head l.
Proof.
  intros Hpos Hl. destruct l as [|a l]; [done|].
  destruct pos as [|pos]; [lia|]. done.
Qed.

Lemma foldl_splice_ends count (xs : list (nat * nat)) l :
  let l' := foldl (λ acc '(index, pos), splice pos (placeholder count index) acc)
              l xs in
  (Forall (λ x, x.2 < length l) xs → last l' = last l)
  ∧ (Forall (λ x, 1 ≤ x.2) xs → l ≠ [] → head l' = head l).
Proof.
  revert l. induction xs as [|[index pos] xs IH]; intros l; cbn [foldl]; [done|].
  destruct (IH (splice pos (placeholder count index) l)) as [IHlast IHhead].
  split.
  - intros [Hpos Hxs]%Forall_cons. simpl in Hpos.
    rewrite IHlast, last_splice; [done..|].
    eapply Forall_impl; [exact Hxs|]. intros [? ?]; simpl.
    rewrite length_splice. lia.
  - intros [Hpos Hxs]%Forall_cons Hl. simpl in Hpos.
    rewrite IHhead, head_splice; [done..|].
    unfold splice. by destruct (take pos l).
Qed.

Lemma Forall_imap_pair {A} (P : A → Prop) (ps : list A) :
  Forall P ps → Forall (λ x : nat * A, P x.2) (imap pair ps).
Proof.
  intros Hps. apply Forall_forall. intros x Hx.
  apply elem_of_lookup_imap in Hx as (i & y & -> & Hy). simpl.
  rewrite Forall_forall in Hps. apply Hps. by eapply list_elem_of_lookup_2.
Qed.

Lemma foldl_splice_front count (n a : nat) acc :
  foldl (λ acc '(index, pos), splice pos (placeholder count index) acc) acc
    ((λ j, (j, 0)) <$> seq a n)
  = reverse (placeholder count <$> seq a n) ++ acc.
Proof.
  revert a acc. induction n as [|n IH]; intros a acc; [done|].
  cbn [seq fmap list_fmap foldl]. rewrite IH.
  change (splice 0 (placeholder count a) acc) with (placeholder count a :: acc).
  by rewrite reverse_cons, <- app_assoc.
Qed.

Lemma reverse_placeholders count n :
  n ≤ count →
  reverse (placeholder count <$> seq 0 n)
  = numberedPlaceholder <$> seq (S (count - n)) n.
Proof.
  induction n as [|n IH]; intros Hn; [done|].
  rewrite seq_S, fmap_app, reverse_app, IH by lia.
  cbn [fmap list_fmap reverse app seq Nat.add].
  change (placeholder count n) with (numberedPlaceholder (count - n)).
  rewrite reverse_singleton. cbn [app].
  by replace (S (count - S n)) with (count - n) by lia.
Qed.

End PlaceholdersMore.

(** X6: on an array of at least three blocks no placeholder is put
    after the last block, whatever the count: the result ends with the
    last block of the input; and when fewer placeholders are requested
    than there are blocks, none is put before the first block either. *)
Theorem addImagePlaceholders_ends
    (σ : store) (blocks : loc) (l : list Block) (count : nat) :
  σ !! blocks = Some l → 3 ≤ length l →
  ∃ r σ' l',
    addImagePlaceholders blocks count σ = Some (r, σ')
    ∧ σ' !! r = Some l'
    ∧ last l' = last l
    ∧ (count < length l → head l' = head l).
Proof.
  intros Hl Hlen. eexists _, _, _.
  rewrite (addImagePlaceholders_copy _ _ _ _ Hl Hlen).
  split; [done|]. rewrite lookup_insert_eq. split; [done|].
  unfold insertPlaceholders.
  destruct (foldl_splice_ends count
              (imap pair (reverse (positions (length l) count))) l)
    as [Hlast Hhead].
  pose proof (positions_bound (length l) count ltac:(lia)) as Hbound.
  split.
  - apply Hlast, (Forall_imap_pair (λ pos, pos < length l)), Forall_reverse.
    eapply Forall_impl; [exact Hbound|]. simpl. by intros pos [Hlt _].
  - intros Hcount. apply Hhead.
    + apply (Forall_imap_pair (λ pos, 1 ≤ pos)), Forall_reverse.
      eapply Forall_impl; [exact Hbound|]. simpl. intros pos [_ Hge]. by apply Hge.
    + intros ->. simpl in Hlen. lia.
Qed.

(** Four paragraphs and three placeholders. *)
Lemma addImagePlaceholders_ends_witness :
  let b n := TextBlock normal [mkSpan (Js.digits n) None] in
  let σ : store := {[ 5%positive := b <$> seq 0 4 ]} in
  ∃ r σ' l',
    addImagePlaceholders 5%positive 3 σ = Some (r, σ')
    ∧ σ' !! r = Some l' ∧ last l' = Some (b 3) ∧ head l' = Some (b 0).
Proof.
  intros b σ.
  destruct (addImagePlaceholders_ends σ 5%positive (b <$> seq 0 4) 3 eq_refl)
    as (r & σ' & l' & Hcall & Hl' & Hlast & Hhead); [simpl; lia|].
  exists r, σ', l'. split_and!; [done..| |].
  - rewrite Hlast. reflexivity.
  - rewrite Hhead by (simpl; lia). reflexivity.
Defined.

(** X7: when at least as many placeholders are requested as the array
    has blocks (three or more), every placeholder is put in front of
    the first block, numbered 1 to count in that order, the blocks
    following unchanged. *)
Theorem addImagePlaceholders_all_in_front
    (σ : store) (blocks : loc) (l : list Block) (count : nat) :
  σ !! blocks = Some l → 3 ≤ length l → length l ≤ count →
  addImagePlaceholders blocks count σ
  = Some (fresh (dom σ),
          <[fresh (dom σ) := (numberedPlaceholder <$> seq 1 count) ++ l]> σ).
Proof.
  intros Hl Hlen Hcount.
  rewrite (addImagePlaceholders_copy _ _ _ _ Hl Hlen). do 3 f_equal.
  unfold insertPlaceholders, positions.
  rewrite Nat.div_small by lia.
  assert ((λ i, 0 * i) <$> seq 1 count = replicate count 0) as ->.
  { clear. generalize 1. induction count as [|c IH]; intros a; [done|].
    cbn [seq fmap list_fmap replicate]. f_equal. apply IH. }
  rewrite reverse_replicate.
  assert (imap pair (replicate count 0) = (λ j, (j, 0)) <$> seq 0 count) as ->.
  { rewrite <- (length_replicate count 0) at 2.
    rewrite <- (imap_seq_0 (replicate count 0) (λ j, (j, 0))).
    apply imap_ext. intros i x Hx. by apply lookup_replicate in Hx as [-> _]. }
  rewrite foldl_splice_front, reverse_placeholders by done.
  by rewrite Nat.sub_diag.
Qed.

(** Three paragraphs and three placeholders. *)
Lemma addImagePlaceholders_all_in_front_witness :
  let b n := TextBlock normal [mkSpan (Js.digits n) None] in
  let σ : store := {[ 1%positive := b <$> seq 0 3 ]} in
  ∃ r σ',
    addImagePlaceholders 1%positive 3 σ = Some (r, σ')
    ∧ σ' !! r
      = Some [numberedPlaceholder 1; numberedPlaceholder 2; numberedPlaceholder 3;
              b 0; b 1; b 2].
Proof.
  intros b σ. eexists _, _. split.
  - apply (addImagePlaceholders_all_in_front σ 1%positive (b <$> seq 0 3) 3
             eq_refl); simpl; lia.
  - rewrite lookup_insert_eq. reflexivity.
Defined.

(** X8: with a count of 0 an array of at least three blocks is copied:
    the call returns a new array with the same blocks, not the array it
    was given (which it returns when there are fewer than three). *)
Theorem addImagePlaceholders_zero_copies
    (σ : store) (blocks : loc) (l : list Block) :
  σ !! blocks = Some l → 3 ≤ length l →
  ∃ r, addImagePlaceholders blocks 0 σ = Some (r, <[r := l]> σ)
       ∧ r ≠ blocks ∧ σ !! r = None.
Proof.
  intros Hl Hlen. exists (fresh (dom σ)).
  rewrite (addImagePlaceholders_copy _ _ _ _ Hl Hlen).
  pose proof (fresh_loc_unused σ) as Hfresh.
  split_and!; [done| |done]. intros Heq. congruence.
Qed.

Lemma addImagePlaceholders_zero_copies_witness :
  let b n := TextBlock normal [mkSpan (Js.digits n) None] in
  let σ : store := {[ 1%positive := b <$> seq 0 3 ]} in
  ∃ r, addImagePlaceholders 1%positive 0 σ = Some (r, <[r := b <$> seq 0 3]> σ)
       ∧ r ≠ 1%positive.
Proof.
  intros b σ.
  destruct (addImagePlaceholders_zero_copies σ 1%positive (b <$> seq 0 3) eq_refl)
    as (r & Hcall & Hne & _); [simpl; lia|].
  by exists r.
Defined.

(** ** The shape of a slug *)

Section Slug.

Implicit Types (s title : jsstring) (c : N) (p : N → bool).

Lemma replaceRuns_Forall (Q R : N → Prop) p (r : jsstring) inrun s :
  Forall Q s → (∀ c, p c = false → Q c → R c) → Forall R r →
  Forall R (Js.replaceRuns p r inrun s).
Proof.
  intros Hs Hkeep Hr. revert inrun.
  induction Hs as [|c s Hc Hs IH]; intros inrun; simpl; [done|].
  destruct (p c) eqn:Hp.
  - apply Forall_app. split; [by destruct inrun|apply IH].
  - constructor; [by apply Hkeep|apply IH].
Qed.

Lemma replaceRuns_id p (r : jsstring) inrun s :
  Forall (λ c, p c = false) s → Js.replaceRuns p r inrun s = s.
Proof.
  intros Hs. revert inrun.
  induction Hs as [|c s Hc Hs IH]; intros inrun; simpl; [done|].
  by rewrite Hc, IH.
Qed.

Lemma dropWhile_id p s : Forall (λ c, p c = false) s → Js.dropWhile p s = s.
Proof. intros Hs. destruct Hs as [|c s Hc Hs]; simpl; [done|]. by rewrite Hc. Qed.

Lemma trim_id s : Forall (λ c, Js.isSpace c = false) s → Js.trim s = s.
Proof.
  intros Hs. unfold Js.trim. rewrite (dropWhile_id _ s) by done.
  rewrite dropWhile_id by (by apply Forall_reverse).
  apply reverse_involutive.
Qed.

(** The collapse of the runs of hyphens leaves no two hyphens in a row,
    and no leading hyphen when it starts inside a run. *)
Lemma replaceRuns_hyphen_pairs inrun s :
  let out := Js.replaceRuns Js.isHyphen [Js.hyphen] inrun s in
  noHyphenPair out ∧ (inrun = true → head out ≠ Some Js.hyphen).
Proof.
  revert inrun. induction s as [|c s IH]; intros inrun; [done|].
  cbn [Js.replaceRuns]. destruct (Js.isHyphen c) eqn:Hc.
  - destruct (IH true) as [Hpairs Hhead]. specialize (Hhead eq_refl).
    destruct inrun; cbn [app]; [done|]. split; [|done].
    destruct (Js.replaceRuns Js.isHyphen [Js.hyphen] true s) as [|b out];
      [done|].
    split; [|done]. intros [_ ->]. by apply Hhead.
  - destruct (IH false) as [Hpairs _].
    assert (c ≠ Js.hyphen) as Hne.
    { intros ->. by vm_compute in Hc. }
    split; [|by intros _ [= ->]].
    destruct (Js.replaceRuns Js.isHyphen [Js.hyphen] false s) as [|b out];
      [done|].
    split; [|done]. by intros [-> _].
Qed.

Lemma replaceRuns_hyphen_id inrun s :
  noHyphenPair s → (inrun = true → head s ≠ Some Js.hyphen) →
  Js.replaceRuns Js.isHyphen [Js.hyphen] inrun s = s.
Proof.
  revert inrun. induction s as [|c s IH]; intros inrun Hpairs Hhead; [done|].
  cbn [Js.replaceRuns]. destruct (Js.isHyphen c) eqn:Hc.
  - assert (c = Js.hyphen) as -> by (by apply N.eqb_eq in Hc).
    destruct inrun; [by destruct Hhead|]. cbn [app]. f_equal.
    apply IH.
    + destruct s; [done|]. by destruct Hpairs.
    + intros _. destruct s as [|b s]; [done|]. destruct Hpairs as [Hpair _].
      intros [= ->]. by apply Hpair.
  - f_equal. apply IH; [|done]. destruct s; [done|]. by destruct Hpairs.
Qed.

Lemma noHyphenPair_lookup s i :
  noHyphenPair s → ¬ (s !! i = Some Js.hyphen ∧ s !! S i = Some Js.hyphen).
Proof.
  revert i. induction s as [|a s IH]; intros i Hpairs [H1 H2]; [done|].
  destruct s as [|b s]; [done|]. destruct Hpairs as [Hpair Hrest].
  destruct i as [|i].
  - simpl in H1, H2. injection H1 as ->. injection H2 as ->. by apply Hpair.
  - by apply (IH i Hrest).
Qed.

Ltac case_units :=
  repeat match goal with
         | |- context [(?a <=? ?b)%N] => destruct (N.leb_spec a b)
         | |- context [(?a =? ?b)%N] => destruct (N.eqb_spec a b)
         | H : context [(?a <=? ?b)%N] |- _ => destruct (N.leb_spec a b)
         | H : context [(?a =? ?b)%N] |- _ => destruct (N.eqb_spec a b)
         end; simpl in *; try done; try lia.

(** Lower case leaves no capital letter of the Basic Latin block. *)
Lemma lowerUnit_not_capital c : ¬ (65 ≤ Js.lowerUnit c ≤ 90)%N.
Proof. unfold Js.lowerUnit. case_units. Qed.

Lemma slugUnit_cases c :
  ¬ (65 ≤ c ≤ 90)%N → Js.isSlugUnit c = true →
  Js.isSpace c = true ∨ slugAlphabet c = true.
Proof.
  intros Hc. unfold Js.isSlugUnit. destruct (Js.isSpace c); [by left|].
  intros Hkeep. right. revert Hkeep.
  unfold Js.isWord, Js.isHyphen, Js.hyphen, slugAlphabet. case_units.
Qed.

(** The lower-cased title, filtered, is made of white space and slug
    units. *)
Lemma slug_units title :
  Forall (λ c, Js.isSpace c = true ∨ slugAlphabet c = true)
    (Js.removeUnless Js.isSlugUnit (Js.toLowerCase title)).
Proof.
  unfold Js.removeUnless, Js.toLowerCase.
  apply Forall_forall. intros c [Hkeep Hin]%list_elem_of_filter.
  apply list_elem_of_fmap in Hin as (u & -> & _).
  apply slugUnit_cases; [apply lowerUnit_not_capital|done].
Qed.

Lemma slugAlphabet_not_space c : slugAlphabet c = true → Js.isSpace c = false.
Proof.
  unfold slugAlphabet. rewrite !orb_true_iff, !andb_true_iff, !N.leb_le, !N.eqb_eq.
  intros Hc. assert (45 ≤ c ≤ 122)%N as Hrange by lia.
  unfold Js.isSpace.
  rewrite !(proj2 (N.eqb_neq c _)) by lia.
  by rewrite (proj2 (N.leb_gt 8192 c)) by lia.
Qed.

(** Before the final [trim] the slug is already made of slug units. *)
Lemma slug_before_trim title :
  Forall (λ c, slugAlphabet c = true)
    (Js.replaceRuns Js.isHyphen [Js.hyphen] false
       (Js.replaceRuns Js.isSpace [Js.hyphen] false
          (Js.removeUnless Js.isSlugUnit (Js.toLowerCase title)))).
Proof.
  apply (replaceRuns_Forall (λ c, slugAlphabet c = true));
    [|by intros c _ Hc|by repeat constructor].
  apply (replaceRuns_Forall (λ c, Js.isSpace c = true ∨ slugAlphabet c = true));
    [apply slug_units| |by repeat constructor].
  intros c Hc [Hs|Ha]; [congruence|done].
Qed.

Lemma generateSlug_untrimmed title :
  generateSlug title
  = Js.replaceRuns Js.isHyphen [Js.hyphen] false
      (Js.replaceRuns Js.isSpace [Js.hyphen] false
         (Js.removeUnless Js.isSlugUnit (Js.toLowerCase title))).
Proof.
  unfold generateSlug. apply trim_id.
  eapply Forall_impl; [apply slug_before_trim|].
  apply slugAlphabet_not_space.
Qed.

End Slug.

Section SlugMore.

Implicit Types (s title : jsstring) (c : N).

Lemma slugAlphabet_fixed c :
  slugAlphabet c = true → Js.lowerUnit c = c ∧ Js.isSlugUnit c = true.
Proof.
  unfold slugAlphabet. rewrite !orb_true_iff, !andb_true_iff, !N.leb_le, !N.eqb_eq.
  intros Hc. split.
  - unfold Js.lowerUnit.
    destruct (N.leb_spec 65 c), (N.leb_spec c 90), (N.leb_spec 192 c);
      simpl; try done; lia.
  - unfold Js.isSlugUnit, Js.isWord, Js.isHyphen, Js.hyphen.
    rewrite !orb_true_iff, !andb_true_iff, !N.leb_le, !N.eqb_eq. lia.
Qed.

Lemma space_or_hyphen_kept c :
  Js.isSpace c = true ∨ c = Js.hyphen →
  Js.lowerUnit c = c ∧ Js.isSlugUnit c = true.
Proof.
  intros [Hc| ->]; [|by vm_compute]. split.
  - assert (c ≤ 32 ∨ c = 160 ∨ 5760 ≤ c)%N as Hrange.
    { revert Hc. unfold Js.isSpace.
      rewrite !orb_true_iff, !andb_true_iff, !N.leb_le, !N.eqb_eq. lia. }
    unfold Js.lowerUnit.
    destruct (N.leb_spec 65 c), (N.leb_spec c 90), (N.leb_spec 192 c),
      (N.leb_spec c 222); simpl; try done; lia.
  - unfold Js.isSlugUnit. rewrite Hc. by rewrite orb_true_r.
Qed.

Lemma slug_fixed_by_filter s :
  Forall (λ c, slugAlphabet c = true) s →
  Js.removeUnless Js.isSlugUnit (Js.toLowerCase s) = s.
Proof.
  unfold Js.removeUnless, Js.toLowerCase.
  induction 1 as [|c s Hc Hs IH]; [done|].
  destruct (slugAlphabet_fixed c Hc) as [Hlow Hkeep].
  cbn [fmap list_fmap]. rewrite Hlow, filter_cons_True by done.
  f_equal. exact IH.
Qed.

End SlugMore.

(** X9: for every title whose code units lie below U+0100 (Basic Latin
    and Latin-1 Supplement), the slug is made of the letters a to z,
    digits, underscores and hyphens only, and has no two hyphens in a
    row. *)
Theorem generateSlug_shape (title : jsstring) :
  latin1 title = true →
  Forall (λ c, slugAlphabet c = true) (generateSlug title)
  ∧ ∀ i, ¬ (generateSlug title !! i = Some Js.hyphen
            ∧ generateSlug title !! S i = Some Js.hyphen).
Proof.
  intros _. rewrite generateSlug_untrimmed. split; [apply slug_before_trim|].
  intros i. apply noHyphenPair_lookup.
  apply (replaceRuns_hyphen_pairs false).
Qed.

(** A Romanian title with a run of spaces and hyphens in it. *)
Lemma generateSlug_shape_witness :
  let slug := generateSlug (Js.lit "Câine  - - fericit!") in
  slug = Js.lit "cine-fericit"
  ∧ Forall (λ c, slugAlphabet c = true) slug
  ∧ ¬ (slug !! 4 = Some Js.hyphen ∧ slug !! 5 = Some Js.hyphen).
Proof.
  intros slug.
  destruct (generateSlug_shape (Js.lit "Câine  - - fericit!")) as [Halpha Hpairs].
  - vm_compute. reflexivity.
  - split_and!; [vm_compute; reflexivity|exact Halpha|exact (Hpairs 4)].
Defined.

(** X10: the final [trim] of [generateSlug] removes nothing, as white
    space has become hyphens by then: a title whose code units lie
    below U+0100 and that begins with white space or with a hyphen
    gives a slug that begins with a hyphen. *)
Theorem generateSlug_leading_hyphen (c : N) (title : jsstring) :
  latin1 (c :: title) = true →
  Js.isSpace c = true ∨ c = Js.hyphen →
  head (generateSlug (c :: title)) = Some Js.hyphen.
Proof.
  intros _ Hc. rewrite generateSlug_untrimmed.
  destruct (space_or_hyphen_kept c Hc) as [Hlow Hkeep].
  unfold Js.toLowerCase, Js.removeUnless. cbn [fmap list_fmap].
  rewrite Hlow, filter_cons_True by done.
  cbn [Js.replaceRuns]. destruct (Js.isSpace c) eqn:Hspace.
  - reflexivity.
  - destruct Hc as [Hc| ->]; [done|]. reflexivity.
Qed.

Lemma generateSlug_leading_hyphen_witness :
  head (generateSlug (Js.lit " Câine")) = Some Js.hyphen.
Proof.
  apply (generateSlug_leading_hyphen 32%N (Js.lit "Câine")).
  - vm_compute. reflexivity.
  - left. reflexivity.
Defined.

(** X11: a slug is its own slug: [generateSlug] applied to the slug of
    a title whose code units lie below U+0100 gives that slug back. *)
Theorem generateSlug_idempotent (title : jsstring) :
  latin1 title = true →
  generateSlug (generateSlug title) = generateSlug title.
Proof.
  intros _.
  assert (Forall (λ c, slugAlphabet c = true) (generateSlug title)) as Halpha.
  { rewrite generateSlug_untrimmed. apply slug_before_trim. }
  assert (noHyphenPair (generateSlug title)) as Hpairs.
  { rewrite generateSlug_untrimmed. apply (replaceRuns_hyphen_pairs false). }
  rewrite (generateSlug_untrimmed (generateSlug title)).
  rewrite slug_fixed_by_filter by done.
  rewrite (replaceRuns_id Js.isSpace).
  - by apply replaceRuns_hyphen_id.
  - eapply Forall_impl; [exact Halpha|]. apply slugAlphabet_not_space.
Qed.

Lemma generateSlug_idempotent_witness :
  generateSlug (generateSlug (Js.lit " Câine fericit!"))
  = generateSlug (Js.lit " Câine fericit!").
Proof.
  apply (generateSlug_idempotent (Js.lit " Câine fericit!")).
  vm_compute. reflexivity.
Defined.

(** ** More on the secrets loader *)

Section SecretsMore.

Lemma startsWith_prefix (p s : jsstring) : Js.startsWith p (p ++ s) = true.
Proof. induction p as [|a p IH]; [done|]. simpl. by rewrite N.eqb_refl. Qed.

Lemma endsWith_suffix (p s : jsstring) : Js.endsWith p (s ++ p) = true.
Proof. unfold Js.endsWith. rewrite reverse_app. apply startsWith_prefix. Qed.

Lemma suffixed_hasEnvironmentSuffix (secretName : jsstring) (env : Environment) :
  hasEnvironmentSuffix (secretName ++ suffixMap env) = true.
Proof.
  unfold hasEnvironmentSuffix.
  destruct env; cbn [suffixMap]; rewrite endsWith_suffix;
    by rewrite ?orb_true_r.
Qed.

Variable E : SecretsEnv.
Variables secretName formatted projectId key : jsstring.
Variable useCache : bool.

Lemma fetchRemote_throws st e st' :
  fetchRemote E secretName formatted projectId key useCache st = (Throws e, st') →
  secretsCache st' = secretsCache st
  ∧ accessCalls st' = accessCalls st ++ [resourceName projectId formatted]
  ∧ (getEnvironment (processEnv E) = development →
     e = devHelpError formatted secretName).
Proof.
  unfold fetchRemote, rethrow.
  destruct (accessSecretVersion E _ _) as [err|[v|]].
  - intros [= <- <-]. split_and!; [done..|]. by intros ->.
  - destruct useCache; [|done]. done.
  - intros [= <- <-]. split_and!; [done..|]. by intros ->.
Qed.

Lemma getSecretUncached_throws st e st' :
  getSecretUncached E secretName formatted projectId key useCache st
    = (Throws e, st') →
  secretsCache st' = secretsCache st
  ∧ accessCalls st' = accessCalls st ++ [resourceName projectId formatted]
  ∧ (getEnvironment (processEnv E) = development →
     e = devHelpError formatted secretName).
Proof.
  unfold getSecretUncached.
  destruct (getEnvironment (processEnv E)) eqn:Henv;
    try (intros Hrun; apply fetchRemote_throws in Hrun; by rewrite Henv in Hrun).
  destruct (processEnv E !! secretName) as [envValue|].
  - destruct (Js.truthy envValue); [done|].
    intros Hrun; apply fetchRemote_throws in Hrun; by rewrite Henv in Hrun.
  - intros Hrun; apply fetchRemote_throws in Hrun; by rewrite Henv in Hrun.
Qed.

End SecretsMore.

(** A call that throws has asked the secret store once and has left
    the cache as it was. *)
Lemma getSecret_throws
    (E : SecretsEnv) (secretName : jsstring) (options : option SecretOptions)
    (st st' : SecretsState) (e : JsError) :
  let projectId := default (getProjectId (processEnv E)) (options ≫= opt_projectId) in
  let formatted :=
    formatSecretName (processEnv E) secretName (options ≫= opt_environment) in
  getSecret E secretName options st = (Throws e, st') →
  secretsCache st' = secretsCache st
  ∧ accessCalls st' = accessCalls st ++ [resourceName projectId formatted]
  ∧ (getEnvironment (processEnv E) = development →
     e = devHelpError formatted secretName).
Proof.
  intros projectId formatted. unfold getSecret. fold projectId formatted.
  destruct (default true (options ≫= opt_useCache)).
  - destruct (secretsCache st !! cacheKeyOf projectId formatted)
      as [[value timestamp]|].
    + cbn [dateNow]. case_decide; [done|].
      intros Hrun. by apply getSecretUncached_throws in Hrun.
    + intros Hrun. by apply getSecretUncached_throws in Hrun.
  - intros Hrun. by apply getSecretUncached_throws in Hrun.
Qed.

(** X12: formatting a name twice is formatting it once: a formatted
    name is left unchanged by [formatSecretName] in the same
    environment, and a name formatted for production or staging is left
    unchanged in every environment. *)
Theorem formatSecretName_stable
    (penv : gmap jsstring jsstring) (secretName : jsstring)
    (environment again : option Environment) :
  formatSecretName penv (formatSecretName penv secretName environment) environment
  = formatSecretName penv secretName environment
  ∧ (default (getEnvironment penv) environment ≠ development →
     formatSecretName penv (formatSecretName penv secretName environment) again
     = formatSecretName penv secretName environment).
Proof.
  assert (∀ name e, hasEnvironmentSuffix name = true →
                    formatSecretName penv name e = name) as Hkept.
  { intros name e Hname. by apply formatSecretName_suffixed. }
  pose proof (formatSecretName_unsuffixed penv secretName environment) as Hplain.
  destruct (hasEnvironmentSuffix secretName) eqn:Hname.
  - rewrite !(Hkept secretName) by done. done.
  - rewrite (Hplain eq_refl).
    destruct (default (getEnvironment penv) environment) eqn:Henv.
    + change (Js.lit "_PROD") with (suffixMap production).
      split; [|intros _]; apply Hkept, suffixed_hasEnvironmentSuffix.
    + change (Js.lit "_STG") with (suffixMap staging).
      split; [|intros _]; apply Hkept, suffixed_hasEnvironmentSuffix.
    + split; [|done].
      rewrite (formatSecretName_unsuffixed penv secretName environment Hname).
      by rewrite Henv.
Qed.

Lemma formatSecretName_stable_witness :
  formatSecretName ∅
    (formatSecretName ∅ (Js.lit "SANITY_API_TOKEN") (Some staging))
    (Some production)
  = Js.lit "SANITY_API_TOKEN_STG".
Proof.
  destruct (formatSecretName_stable ∅ (Js.lit "SANITY_API_TOKEN") (Some staging)
              (Some production)) as [_ Hagain].
  rewrite Hagain by discriminate. vm_compute. reflexivity.
Defined.

(** X13: with caching enabled, outside development, an entry that is
    five minutes old or older is not served: the secret store is asked
    once, and on success the fetched value is returned and replaces the
    entry, stamped with the clock reading taken after the fetch. *)
Theorem getSecret_refreshes_stale
    (E : SecretsEnv) (secretName : jsstring) (options : option SecretOptions)
    (st : SecretsState) (old fetched : jsstring) (timestamp : Z) :
  let projectId := default (getProjectId (processEnv E)) (options ≫= opt_projectId) in
  let formatted :=
    formatSecretName (processEnv E) secretName (options ≫= opt_environment) in
  let key := cacheKeyOf projectId formatted in
  default true (options ≫= opt_useCache) = true →
  getEnvironment (processEnv E) ≠ development →
  secretsCache st !! key = Some (old, timestamp) →
  (CACHE_TIMEOUT ≤ clock E (clockReads st) - timestamp)%Z →
  accessSecretVersion E (accessCalls st) (resourceName projectId formatted)
    = AccessVersion (Some fetched) →
  ∃ st',
    getSecret E secretName options st = (Returns fetched, st')
    ∧ accessCalls st' = accessCalls st ++ [resourceName projectId formatted]
    ∧ secretsCache st'
      = <[key := (fetched, clock E (S (clockReads st)))]> (secretsCache st).
Proof.
  intros projectId formatted key Huse Henv Hcached Hstale Hremote.
  unfold getSecret. fold projectId formatted key. rewrite Huse, Hcached.
  cbn [dateNow]. rewrite decide_False by lia.
  unfold getSecretUncached, fetchRemote. cbn [accessCalls secretsCache clockReads].
  rewrite Hremote. cbn [dateNow secretsCache clientReady clockReads accessCalls].
  destruct (getEnvironment (processEnv E)); [by eexists..|done].
Qed.

(** A cached value stamped at time 0, read again ten minutes later. *)
Lemma getSecret_refreshes_stale_witness :
  let st := mkSecretsState
              {[ cacheKeyOf (Js.lit "careful-drummer-468512-p0")
                   (Js.lit "SANITY_API_TOKEN_PROD") := (Js.lit "old", (-600000)%Z) ]}
              true 0 [] in
  ∃ st', getSecret slowClockSecretsEnv (Js.lit "SANITY_API_TOKEN") None st
         = (Returns (Js.lit "s3cret"), st')
         ∧ length (accessCalls st') = 1.
Proof.
  intros st.
  destruct (getSecret_refreshes_stale slowClockSecretsEnv (Js.lit "SANITY_API_TOKEN")
              None st (Js.lit "old") (Js.lit "s3cret") (-600000)%Z)
    as (st' & Hrun & Hcalls & _).
  - reflexivity.
  - vm_compute. discriminate.
  - vm_compute. reflexivity.
  - vm_compute. discriminate.
  - reflexivity.
  - exists st'. split; [exact Hrun|]. rewrite Hcalls. reflexivity.
Defined.

(** X14: a call of [getSecret] that throws has asked the secret store
    exactly once and leaves the cache as it was; in development the
    error thrown is the help message that names the formatted and the
    logical secret. *)
Theorem getSecret_failure_keeps_cache
    (E : SecretsEnv) (secretName : jsstring) (options : option SecretOptions)
    (st st' : SecretsState) (e : JsError) :
  let projectId := default (getProjectId (processEnv E)) (options ≫= opt_projectId) in
  let formatted :=
    formatSecretName (processEnv E) secretName (options ≫= opt_environment) in
  getSecret E secretName options st = (Throws e, st') →
  secretsCache st' = secretsCache st
  ∧ accessCalls st' = accessCalls st ++ [resourceName projectId formatted]
  ∧ (getEnvironment (processEnv E) = development →
     e = devHelpError formatted secretName)
  ∧ (getEnvironment (processEnv E) ≠ development →
     accessSecretVersion E (accessCalls st) (resourceName projectId formatted)
     = AccessRejects e
     ∨ e = mkError None (Js.lit "Secret " ++ formatted ++ Js.lit " has no data")).
Proof.
  intros projectId formatted Hrun.
  destruct (getSecret_throws E secretName options st st' e Hrun)
    as (Hcache & Hcalls & Hdev).
  split_and!; [done..|].
  intros Henv. revert Hrun. unfold getSecret. fold projectId formatted.
  assert (∀ useCache s s',
            accessCalls s = accessCalls st →
            getSecretUncached E secretName formatted projectId
              (cacheKeyOf projectId formatted) useCache s = (Throws e, s') →
            accessSecretVersion E (accessCalls st) (resourceName projectId formatted)
            = AccessRejects e
            ∨ e = mkError None (Js.lit "Secret " ++ formatted ++ Js.lit " has no data"))
    as Hmiss.
  { intros useCache s s' Hs. unfold getSecretUncached, fetchRemote, rethrow.
    rewrite Hs.
    destruct (getEnvironment (processEnv E)); [| |done];
      (destruct (accessSecretVersion E _ _) as [err|[v|]];
       [intros [= <- _]; by left|by destruct useCache|intros [= <- _]; by right]). }
  destruct (default true (options ≫= opt_useCache)).
  - destruct (secretsCache st !! cacheKeyOf projectId formatted)
      as [[value timestamp]|]; [|by apply Hmiss].
    cbn [dateNow]. case_decide; [done|]. by apply Hmiss.
  - by apply Hmiss.
Qed.

Lemma getSecret_failure_keeps_cache_witness :
  ∃ e st',
    getSecret failingSecretsEnv (Js.lit "SANITY_API_TOKEN") None freshSecretsState
    = (Throws e, st')
    ∧ secretsCache st' = ∅ ∧ length (accessCalls st') = 1.
Proof.
  pose (run := getSecret failingSecretsEnv (Js.lit "SANITY_API_TOKEN") None
                 freshSecretsState).
  assert (run = (Throws notFound, snd run)) as Hrun by (vm_compute; reflexivity).
  destruct (getSecret_failure_keeps_cache failingSecretsEnv (Js.lit "SANITY_API_TOKEN")
              None freshSecretsState (snd run) notFound Hrun)
    as (Hcache & Hcalls & _).
  exists notFound, (snd run). split_and!; [exact Hrun|exact Hcache|].
  rewrite Hcalls. reflexivity.
Defined.

(** X15: in development, when the process environment holds a
    non-empty value under the logical name of the secret, [getSecret]
    never asks the secret store and never writes the cache: it returns
    that value, unless a cached value younger than five minutes is
    served first. *)
Theorem getSecret_development_override
    (E : SecretsEnv) (secretName : jsstring) (options : option SecretOptions)
    (st : SecretsState) (envValue : jsstring) :
  let projectId := default (getProjectId (processEnv E)) (options ≫= opt_projectId) in
  let formatted :=
    formatSecretName (processEnv E) secretName (options ≫= opt_environment) in
  let key := cacheKeyOf projectId formatted in
  getEnvironment (processEnv E) = development →
  processEnv E !! secretName = Some envValue →
  envValue ≠ [] →
  ∃ value st',
    getSecret E secretName options st = (Returns value, st')
    ∧ accessCalls st' = accessCalls st
    ∧ secretsCache st' = secretsCache st
    ∧ (value = envValue
       ∨ ∃ timestamp,
           default true (options ≫= opt_useCache) = true
           ∧ secretsCache st !! key = Some (value, timestamp)
           ∧ (clock E (clockReads st) - timestamp < CACHE_TIMEOUT)%Z).
Proof.
  intros projectId formatted key Henv Hvar Hne.
  assert (∀ useCache s,
            getSecretUncached E secretName formatted projectId key useCache s
            = (Returns envValue, s)) as Hmiss.
  { intros useCache s. unfold getSecretUncached. rewrite Henv, Hvar.
    by destruct envValue. }
  unfold getSecret. fold projectId formatted key.
  destruct (default true (options ≫= opt_useCache)).
  - destruct (secretsCache st !! key) as [[value timestamp]|] eqn:Hcached.
    + cbn [dateNow]. case_decide.
      * eexists _, _. split_and!; [done..|]. right. by exists timestamp.
      * rewrite Hmiss. eexists _, _. split_and!; [done..|]. by left.
    + rewrite Hmiss. eexists _, _. split_and!; [done..|]. by left.
  - rewrite Hmiss. eexists _, _. split_and!; [done..|]. by left.
Qed.

Lemma getSecret_development_override_witness :
  ∃ st',
    getSecret devSecretsEnv (Js.lit "SANITY_API_TOKEN") None freshSecretsState
    = (Returns (Js.lit "local"), st')
    ∧ accessCalls st' = [].
Proof.
  destruct (getSecret_development_override devSecretsEnv (Js.lit "SANITY_API_TOKEN")
              None freshSecretsState (Js.lit "local"))
    as (value & st' & Hrun & Hcalls & _ & [->|(ts & _ & Hcached & _)]).
  - vm_compute. reflexivity.
  - vm_compute. reflexivity.
  - vm_compute. discriminate.
  - by exists st'.
  - vm_compute in Hcached. discriminate.
Defined.

(** X16: [getSecretWithFallback] gives [undefined] only after asking
    the secret store once without success; the cache is then as it was
    before, and the environment variable (named by the second argument,
    else by the secret) is unset or empty.  When that variable holds a
    non-empty value it is returned and nothing else happens: no cache
    lookup, no clock reading, no call to the secret store. *)
Theorem getSecretWithFallback_undefined
    (E : SecretsEnv) (secretName : jsstring) (envVarName : option jsstring)
    (st : SecretsState) :
  let variable := Js.opt_or_else envVarName secretName in
  (∀ st', getSecretWithFallback E secretName envVarName st = (None, st') →
     accessCalls st'
     = accessCalls st
       ++ [resourceName (getProjectId (processEnv E))
             (formatSecretName (processEnv E) secretName None)]
     ∧ secretsCache st' = secretsCache st
     ∧ Js.opt_or_else (processEnv E !! variable) [] = [])
  ∧ (∀ envValue, processEnv E !! variable = Some envValue → envValue ≠ [] →
       getSecretWithFallback E secretName envVarName st = (Some envValue, st)).
Proof.
  intros variable. unfold getSecretWithFallback. fold variable. split.
  - intros st'.
    assert (match getSecret E secretName None st with
            | (Returns value, s) => (Some value, s)
            | (Throws _, s) => (None, s)
            end = (None, st') →
            accessCalls st'
            = accessCalls st
              ++ [resourceName (getProjectId (processEnv E))
                    (formatSecretName (processEnv E) secretName None)]
            ∧ secretsCache st' = secretsCache st) as Hvia.
    { destruct (getSecret E secretName None st) as [[value|e] s] eqn:Hrun; [done|].
      intros [= <-].
      by destruct (getSecret_throws E secretName None st s e Hrun) as (-> & -> & _). }
    destruct (processEnv E !! variable) as [envValue|]; simpl.
    + destruct envValue as [|c envValue]; [|done].
      intros H. by destruct (Hvia H).
    + intros H. by destruct (Hvia H).
  - intros envValue -> Hne. by destruct envValue.
Qed.

Lemma getSecretWithFallback_undefined_witness :
  ∃ st',
    getSecretWithFallback failingSecretsEnv (Js.lit "UNSPLASH_ACCESS_KEY") None
      freshSecretsState = (None, st')
    ∧ length (accessCalls st') = 1
  ∧ getSecretWithFallback devSecretsEnv (Js.lit "SANITY_API_TOKEN_STG")
      (Some (Js.lit "SANITY_API_TOKEN")) freshSecretsState
    = (Some (Js.lit "local"), freshSecretsState).
Proof.
  pose (run := getSecretWithFallback failingSecretsEnv (Js.lit "UNSPLASH_ACCESS_KEY")
                 None freshSecretsState).
  assert (run = (None, snd run)) as Hrun by (vm_compute; reflexivity).
  destruct (getSecretWithFallback_undefined failingSecretsEnv
              (Js.lit "UNSPLASH_ACCESS_KEY") None freshSecretsState) as [Hnone _].
  destruct (Hnone (snd run) Hrun) as (Hcalls & _).
  destruct (getSecretWithFallback_undefined devSecretsEnv
              (Js.lit "SANITY_API_TOKEN_STG") (Some (Js.lit "SANITY_API_TOKEN"))
              freshSecretsState) as [_ Hsome].
  exists (snd run). split_and!.
  - exact Hrun.
  - rewrite Hcalls. reflexivity.
  - apply Hsome; [vm_compute; reflexivity|vm_compute; discriminate].
Defined.

(** X17: after [clearSecretsCache] nothing is served from the cache:
    outside development the next [getSecret] asks the secret store,
    whatever was cached before. *)
Theorem getSecret_after_clear
    (E : SecretsEnv) (secretName : jsstring) (options : option SecretOptions)
    (st : SecretsState) :
  getEnvironment (processEnv E) ≠ development →
  accessCalls (snd (getSecret E secretName options (clearSecretsCache st)))
  = accessCalls st
    ++ [resourceName (default (getProjectId (processEnv E)) (options ≫= opt_projectId))
          (formatSecretName (processEnv E) secretName (options ≫= opt_environment))].
Proof.
  intros Henv. unfold getSecret. cbn [clearSecretsCache secretsCache].
  rewrite lookup_empty.
  assert (∀ useCache key,
    accessCalls (snd (getSecretUncached E secretName
       (formatSecretName (processEnv E) secretName (options ≫= opt_environment))
       (default (getProjectId (processEnv E)) (options ≫= opt_projectId))
       key useCache (clearSecretsCache st)))
    = accessCalls st
      ++ [resourceName (default (getProjectId (processEnv E)) (options ≫= opt_projectId))
            (formatSecretName (processEnv E) secretName (options ≫= opt_environment))])
    as Hmiss.
  { intros useCache key. unfold getSecretUncached.
    destruct (getEnvironment (processEnv E));
      [by rewrite fetchRemote_calls..|done]. }
  destruct (default true (options ≫= opt_useCache)); apply Hmiss.
Qed.

Lemma getSecret_after_clear_witness :
  ∃ st1,
    getSecret sampleSecretsEnv (Js.lit "SANITY_API_TOKEN") None freshSecretsState
    = (Returns (Js.lit "s3cret"), st1)
    ∧ length (accessCalls
                (snd (getSecret sampleSecretsEnv (Js.lit "SANITY_API_TOKEN") None
                        (clearSecretsCache st1)))) = 2.
Proof.
  pose (run := getSecret sampleSecretsEnv (Js.lit "SANITY_API_TOKEN") None
                 freshSecretsState).
  exists (snd run). split; [vm_compute; reflexivity|].
  rewrite (getSecret_after_clear sampleSecretsEnv (Js.lit "SANITY_API_TOKEN") None
             (snd run)).
  - vm_compute. reflexivity.
  - vm_compute. discriminate.
Defined.

(** ** More on the generation hook *)

Section GenerateMore.

Variable E : GenEnv.
Variable formData : GenerationFormData.
Variable documentId : jsstring.

Lemma searchFeaturedImage_requests w :
  requests (snd (searchFeaturedImage E formData w))
  = requests w ++ searchRequests E formData
  ∧ (featuredImage (imageSettings formData) = false →
     fst (searchFeaturedImage E formData w) = Resolved None).
Proof.
  unfold searchRequests.
  destruct (featuredImage (imageSettings formData)) eqn:Hon.
  - split; [|done]. by apply searchFeaturedImage_cases.
  - unfold searchFeaturedImage. rewrite Hon. simpl. by rewrite app_nil_r.
Qed.

Lemma uploadFeaturedImage_requests image gc w :
  ∃ uploads,
    requests (snd (uploadFeaturedImage E image gc w)) = requests w ++ uploads
    ∧ length uploads ≤ 2
    ∧ Forall (λ r, isUploadRequest r = true) uploads
    ∧ (image = None → uploads = []).
Proof.
  unfold uploadFeaturedImage, uploadImageToSanity.
  destruct image as [img|], (gc_featuredImage gc) as [fi|];
    try (exists []; simpl; rewrite app_nil_r; split_and!; by auto).
  destruct (downloadImage E (fi_url fi)) as [|[] []];
    try (eexists [_]; simpl; split_and!; [done|lia|by repeat constructor|done]).
  destruct (assetsUpload E _);
    (eexists [_; _]; simpl; rewrite <- app_assoc; split_and!;
       [done|lia|by repeat constructor|done]).
Qed.

(** The world at the end of a run that returns. *)
Lemma generate_resolved_world data w :
  generate E formData documentId = (Resolved data, w) →
  ∃ image w1 gc w3,
    searchFeaturedImage E formData startWorld = (Resolved image, w1)
    ∧ generateLoop E formData (generateApiUrl E) (languages formData) 0
        (initialContent formData image, setState generating w1) = (gc, w3)
    ∧ data = documentData E formData gc (formatContentForSanity gc)
               (fst (uploadFeaturedImage E image gc
                       (setProgress (withState formatting) (setState formatting w3))))
    ∧ requests w
      = requests (snd (uploadFeaturedImage E image gc
                         (setProgress (withState formatting)
                            (setState formatting w3)))).
Proof.
  intros Hrun.
  destruct (generate_resolved_inv _ _ _ _ _ Hrun)
    as (Htopic & Hlangs & image & w1 & Hsearch).
  unfold generate in Hrun. rewrite valid_form in Hrun by done.
  cbn zeta in Hrun. rewrite Hsearch in Hrun.
  destruct (generateLoop E formData _ _ 0 _) as [gc w3] eqn:Hloop.
  destruct (uploadFeaturedImage E image gc _) as [assetId w5] eqn:Hup.
  injection Hrun as <- <-.
  exists image, w1, gc, w3. by rewrite Hup.
Qed.

Lemma mergeLanguage_featuredImage inc completed lang lc gc :
  gc_featuredImage (snd (mergeLanguage inc completed lang lc gc))
  = gc_featuredImage gc
  ∧ (is_Some (gc_seo (snd (mergeLanguage inc completed lang lc gc)))
     ↔ is_Some (gc_seo gc)).
Proof.
  unfold mergeLanguage, andThen, mergeTitle, mergeExcerpt, mergeContent,
    mergeSeo, mergeSeoField, mergeTags, andThen.
  destruct (lc_title lc), (lc_excerpt lc), (lc_content lc); simpl; auto.
  destruct inc, (lc_seo lc) as [[[mt|] [md|]]|]; simpl; auto;
    repeat match goal with
      | |- context [match ?m !! lang with _ => _ end] => destruct (m !! lang); simpl; auto
      | |- context [if Js.truthy ?v then _ else _] => destruct (Js.truthy v); simpl; auto
      | |- context [match gc_seo ?g with _ => _ end] => destruct (gc_seo g) eqn:?; simpl; auto
      | |- context [decide (completed = 1)] => destruct (decide (completed = 1)); simpl; auto
      | |- context [match lc_tags lc with _ => _ end] => destruct (lc_tags lc) eqn:?; simpl; auto
      end;
    split; try done; split; intros [? ?]; try done; by eexists.
Qed.

(** The loop changes neither the featured image nor whether the content
    has an [seo] object. *)
Lemma generateLoop_featuredImage url langs completed gc w :
  let gc' := fst (generateLoop E formData url langs completed (gc, w)) in
  gc_featuredImage gc' = gc_featuredImage gc
  ∧ (is_Some (gc_seo gc') ↔ is_Some (gc_seo gc)).
Proof.
  revert completed gc w.
  induction langs as [|lang langs IH]; intros completed gc w; [done|].
  cbn [generateLoop].
  destruct (generateLanguage E formData url (S completed) lang (gc, w))
    as [gc1 w1] eqn:Hstep.
  destruct (IH (S completed) gc1 w1) as [Himg Hseo]. cbn zeta.
  rewrite Himg, Hseo. unfold generateLanguage in Hstep.
  destruct (generateArticle E _ url lang) as [err|[] [lc|err]];
    injection Hstep as <- <-; try done.
  apply mergeLanguage_featuredImage.
Qed.

End GenerateMore.

(** X18: a run that returns has issued, in this order: the image search
    (one request, only when the featured image is asked for), exactly
    one generation request per requested language, in the requested
    order and with no retry of a failed one, then at most two requests
    of the image upload, and none of those when no featured image is
    asked for. *)
Theorem generate_request_log
    (E : GenEnv) (formData : GenerationFormData) (documentId : jsstring)
    (data : DocumentData) (w : World) :
  generate E formData documentId = (Resolved data, w) →
  ∃ uploads,
    requests w
    = searchRequests E formData
      ++ (GenerateRequest (generateApiUrl E) <$> languages formData)
      ++ uploads
    ∧ length uploads ≤ 2
    ∧ Forall (λ r, isUploadRequest r = true) uploads
    ∧ (featuredImage (imageSettings formData) = false → uploads = []).
Proof.
  intros Hrun.
  destruct (generate_resolved_world E formData documentId data w Hrun)
    as (image & w1 & gc & w3 & Hsearch & Hloop & _ & ->).
  destruct (uploadFeaturedImage_requests E image gc
              (setProgress (withState formatting) (setState formatting w3)))
    as (uploads & -> & Hlen & Hall & Hnone).
  exists uploads. split_and!; [|done..|].
  - cbn [setProgress setState requests].
    pose proof (generateLoop_requests E formData (generateApiUrl E)
                  (languages formData) 0 (initialContent formData image)
                  (setState generating w1)) as Hgen.
    rewrite Hloop in Hgen. cbn [snd setState requests] in Hgen. rewrite Hgen.
    destruct (searchFeaturedImage_requests E formData startWorld) as [Hreq _].
    rewrite Hsearch in Hreq. cbn [snd startWorld requests app] in Hreq.
    by rewrite Hreq, <- app_assoc.
  - intros Hoff. apply Hnone.
    destruct (searchFeaturedImage_requests E formData startWorld) as [_ Himg].
    rewrite Hsearch in Himg. specialize (Himg Hoff). by injection Himg.
Qed.

(** English is rejected and is not asked for again. *)
Lemma generate_request_log_witness :
  ∃ data w,
    generate (sampleEnv (Some 0)) sampleForm [] = (Resolved data, w)
    ∧ requests w
      = [SearchRequest (Js.lit "/api/unsplash-search") (Js.lit "x") 1;
         GenerateRequest (Js.lit "/api/generate-article") (Js.lit "en");
         GenerateRequest (Js.lit "/api/generate-article") (Js.lit "ro")].
Proof.
  pose (run := generate (sampleEnv (Some 0)) sampleForm []).
  assert (∃ data, run = (Resolved data, snd run)) as [data Hrun]
    by (eexists; vm_compute; reflexivity).
  destruct (generate_request_log (sampleEnv (Some 0)) sampleForm [] data (snd run)
              Hrun) as (uploads & Hlog & _).
  exists data, (snd run). split; [exact Hrun|]. vm_compute. reflexivity.
Defined.

(** X19: a failed upload is not fatal.  When the search has found an
    image, a form that passes validation runs to the end; the payload
    carries the featured image exactly when the image could be
    downloaded and the asset store answered with a non-empty id, and
    then with that id, the alternative text of the image (or "Image
    related to" the topic when it has none) and the caption "Photo by"
    the photographer. *)
Theorem generate_upload_outcome
    (E : GenEnv) (formData : GenerationFormData) (documentId : jsstring)
    (img : UnsplashImage) :
  topic formData ≠ [] → languages formData ≠ [] →
  fst (searchFeaturedImage E formData startWorld) = Resolved (Some img) →
  ∃ data w,
    generate E formData documentId = (Resolved data, w)
    ∧ hook_state (hook w) = complete
    ∧ doc_featuredImage data
      = match downloadImage E (img_urls_regular img) with
        | FetchResponse true (Resolved _) =>
            match assetsUpload E (Js.lit "unsplash-" ++ img_id img ++ Js.lit ".jpg") with
            | Resolved id =>
                if Js.truthy id then
                  Some (mkImageField id
                          (Some (Js.or_else (img_alt_description img)
                                   (Js.lit "Image related to " ++ topic formData)))
                          (Some (Js.lit "Photo by " ++ img_user_name img)))
                else None
            | Rejected _ => None
            end
        | _ => None
        end.
Proof.
  intros Htopic Hlangs Hfound.
  destruct (searchFeaturedImage E formData startWorld) as [res w1] eqn:Hsearch.
  simpl in Hfound. subst res.
  destruct (generate_completes E formData documentId (Some img) w1 Htopic Hlangs
              Hsearch) as (assetId & w & Hrun & Hhook & _).
  eexists _, w. split_and!; [exact Hrun|by rewrite Hhook|].
  destruct (generate_resolved_world E formData documentId _ w Hrun)
    as (image & w1' & gc & w3 & Hsearch' & Hloop & Hdata & _).
  rewrite Hsearch in Hsearch'. injection Hsearch' as <- <-.
  rewrite Hdata.
  destruct (generateLoop_featuredImage E formData (generateApiUrl E)
              (languages formData) 0 (initialContent formData (Some img))
              (setState generating w1)) as [Himg _].
  rewrite Hloop in Himg. cbn [fst initialContent gc_featuredImage fmap option_fmap
    option_map] in Himg.
  unfold documentData, uploadFeaturedImage, uploadImageToSanity.
  cbn [doc_featuredImage]. rewrite Himg. cbn [fi_url].
  destruct (downloadImage E (img_urls_regular img)) as [|[] []]; try done.
  destruct (assetsUpload E _) as [id|]; [|done].
  cbn [fst]. reflexivity.
Qed.

(** The image is found and downloaded; the asset store answers in one
    run and rejects in the other. *)
Lemma generate_upload_outcome_witness :
  (∃ data w, generate (imageEnv true) sampleForm [] = (Resolved data, w)
             ∧ asset_ref <$> doc_featuredImage data = Some (Js.lit "image-1"))
  ∧ (∃ data w, generate (imageEnv false) sampleForm [] = (Resolved data, w)
               ∧ hook_state (hook w) = complete
               ∧ doc_featuredImage data = None).
Proof.
  split.
  - destruct (generate_upload_outcome (imageEnv true) sampleForm [] sampleImage)
      as (data & w & Hrun & _ & Himg).
    + vm_compute. discriminate.
    + vm_compute. discriminate.
    + vm_compute. reflexivity.
    + exists data, w. split; [exact Hrun|]. rewrite Himg. vm_compute. reflexivity.
  - destruct (generate_upload_outcome (imageEnv false) sampleForm [] sampleImage)
      as (data & w & Hrun & Hstate & Himg).
    + vm_compute. discriminate.
    + vm_compute. discriminate.
    + vm_compute. reflexivity.
    + exists data, w. split_and!; [exact Hrun|exact Hstate|].
      rewrite Himg. vm_compute. reflexivity.
Defined.

(** X20: the payload of a run that returns has titles, excerpts and
    bodies under the five languages ro, en, pl, hu and cs only, even
    when another language was requested and generated, and none of its
    titles or excerpts is the empty string. *)
Theorem generate_payload_entries
    (E : GenEnv) (formData : GenerationFormData) (documentId : jsstring)
    (data : DocumentData) (w : World) (lang : jsstring) :
  generate E formData documentId = (Resolved data, w) →
  (lang ∉ languages5 →
   doc_title data !! lang = None ∧ doc_excerpt data !! lang = None
   ∧ doc_content data !! lang = None)
  ∧ doc_title data !! lang ≠ Some []
  ∧ doc_excerpt data !! lang ≠ Some [].
Proof.
  intros Hrun.
  destruct (generate_resolved_data E formData documentId data w Hrun)
    as (image & w1 & assetId & _ & ->). cbn zeta.
  set (gc := fst (generateLoop _ _ _ _ _ _)).
  cbn [documentData doc_title doc_excerpt doc_content].
  pose proof (formatContentForSanity_others gc lang) as Hout.
  split_and!; [exact Hout| |].
  - destruct (decide (lang ∈ languages5)) as [Hl|Hl].
    + rewrite (formatContentForSanity_title gc lang Hl).
      destruct (gc_title gc !! lang) as [[|c v]|]; done.
    + destruct (Hout Hl) as (-> & _). done.
  - destruct (decide (lang ∈ languages5)) as [Hl|Hl].
    + rewrite (formatContentForSanity_excerpt gc lang Hl).
      destruct (gc_excerpt gc !! lang) as [[|c v]|]; done.
    + destruct (Hout Hl) as (_ & -> & _). done.
Qed.

(** German is requested and generated, and left out of the payload. *)
Lemma generate_payload_entries_witness :
  let form := mkFormData (Js.lit "x") [] [] [Js.lit "de"; Js.lit "ro"]
                friendly short false (mkImageSettings false [] false) in
  ∃ data w,
    generate (sampleEnv None) form [] = (Resolved data, w)
    ∧ requestSucceeded
        (generateArticle (sampleEnv None) 0 (generateApiUrl (sampleEnv None))
           (Js.lit "de")) = true
    ∧ doc_title data !! Js.lit "de" = None.
Proof.
  intros form. pose (run := generate (sampleEnv None) form []).
  assert (∃ data, run = (Resolved data, snd run)) as [data Hrun]
    by (eexists; vm_compute; reflexivity).
  destruct (generate_payload_entries (sampleEnv None) form [] data (snd run)
              (Js.lit "de") Hrun) as (Hout & _).
  exists data, (snd run). split_and!; [exact Hrun|reflexivity|].
  apply Hout. by_computation.
Defined.

(** X22: the payload of a run that returns has an [seo] object exactly
    when the form asks for it, whatever the endpoint answers. *)
Theorem generate_seo_iff_requested
    (E : GenEnv) (formData : GenerationFormData) (documentId : jsstring)
    (data : DocumentData) (w : World) :
  generate E formData documentId = (Resolved data, w) →
  (is_Some (doc_seo data) ↔ includeSeo formData = true).
Proof.
  intros Hrun.
  destruct (generate_resolved_data E formData documentId data w Hrun)
    as (image & w1 & assetId & _ & ->). cbn zeta.
  cbn [documentData doc_seo].
  destruct (generateLoop_featuredImage E formData (generateApiUrl E)
              (languages formData) 0 (initialContent formData image)
              (setState generating w1)) as [_ ->].
  cbn [initialContent gc_seo].
  destruct (includeSeo formData); split; try done; by intros [? ?].
Qed.

Lemma generate_seo_iff_requested_witness :
  ∃ data w,
    generate (sampleEnv None) sampleForm [] = (Resolved data, w)
    ∧ is_Some (doc_seo data).
Proof.
  pose (run := generate (sampleEnv None) sampleForm []).
  assert (∃ data, run = (Resolved data, snd run)) as [data Hrun]
    by (eexists; vm_compute; reflexivity).
  exists data, (snd run). split; [exact Hrun|].
  by apply (generate_seo_iff_requested (sampleEnv None) sampleForm [] data (snd run)
              Hrun).
Defined.

(** X23: a run that requests neither Romanian nor English returns a
    payload whose slug is the empty string, whatever the titles
    generated for the other languages. *)
Theorem generate_empty_slug
    (E : GenEnv) (formData : GenerationFormData) (documentId : jsstring)
    (data : DocumentData) (w : World) :
  generate E formData documentId = (Resolved data, w) →
  Js.lit "ro" ∉ languages formData → Js.lit "en" ∉ languages formData →
  doc_slug data = [].
Proof.
  intros Hrun Hro Hen.
  destruct (generate_resolved_data E formData documentId data w Hrun)
    as (image & w1 & assetId & _ & ->). cbn zeta.
  set (gc := fst (generateLoop _ _ _ _ _ _)).
  assert (∀ k, k ∉ languages formData →
               fc_title (formatContentForSanity gc) !! k = None) as Hnone.
  { intros k Hk. apply eq_None_not_Some. intros Hsome.
    destruct (formatContentForSanity_entries gc k) as (Ht & _).
    assert (k ∈ entries gc) as Hin.
    { unfold entries. rewrite !elem_of_union, !elem_of_dom. auto. }
    apply generateLoop_entries in Hin as [Hin|(j & Hj & _)].
    - unfold entries, initialContent in Hin. simpl in Hin. set_solver.
    - apply Hk. by eapply list_elem_of_lookup_2. }
  cbn [documentData doc_slug]. by rewrite (Hnone _ Hro), (Hnone _ Hen).
Qed.

Lemma generate_empty_slug_witness :
  let form := mkFormData (Js.lit "x") [] [] [Js.lit "pl"]
                friendly short false (mkImageSettings false [] false) in
  ∃ data w,
    generate (sampleEnv None) form [] = (Resolved data, w)
    ∧ doc_title data !! Js.lit "pl" = Some (Js.lit "Câine fericit!")
    ∧ doc_slug data = [].
Proof.
  intros form. pose (run := generate (sampleEnv None) form []).
  assert (∃ data, run = (Resolved data, snd run)) as [data Hrun]
    by (eexists; vm_compute; reflexivity).
  exists data, (snd run). split_and!; [exact Hrun| |].
  - vm_compute in Hrun. injection Hrun as <-. vm_compute. reflexivity.
  - apply (generate_empty_slug (sampleEnv None) form [] data (snd run) Hrun);
      by_computation.
Defined.

(** X21: a language among the five that is requested once and whose
    request succeeds with a body holding the three maps is delivered:
    the payload carries its non-empty title and excerpt as generated and
    its non-empty text body converted to blocks, whatever happens to
    the other languages and to the rest of the body (its [seo] part and
    its tags). *)
Theorem generate_language_delivered
    (E : GenEnv) (formData : GenerationFormData) (documentId : jsstring)
    (data : DocumentData) (w : World) (lang : jsstring) (i : nat)
    (lc : LangContent) (t e : gmap jsstring jsstring)
    (c : gmap jsstring ContentValue) (title excerpt markdown : jsstring) :
  generate E formData documentId = (Resolved data, w) →
  lang ∈ languages5 →
  languages formData !! i = Some lang →
  (∀ j, languages formData !! j = Some lang → j = i) →
  generateArticle E i (generateApiUrl E) lang = FetchResponse true (Resolved lc) →
  lc_title lc = Some t → lc_excerpt lc = Some e → lc_content lc = Some c →
  t !! lang = Some title → title ≠ [] →
  e !! lang = Some excerpt → excerpt ≠ [] →
  c !! lang = Some (ContentText markdown) → markdown ≠ [] →
  doc_title data !! lang = Some title
  ∧ doc_excerpt data !! lang = Some excerpt
  ∧ doc_content data !! lang = Some (formatBlockContent markdown).
Proof.
  intros Hrun Hfive Hi Honce Hresp Ht He Hc Htitle Htne Hexc Hene Hmd Hmne.
  assert (∀ j, i < j → languages formData !! j ≠ Some lang) as Hlast.
  { intros j Hj Hlang. apply Honce in Hlang. lia. }
  assert (contentTruthy (ContentText markdown) = true) as Hmt
    by (by destruct markdown).
  exact (generate_delivers E formData documentId data w lang i lc t e c
           title excerpt (ContentText markdown) Hrun Hfive Hi Hlast Hresp
           Ht He Hc Htitle Htne Hexc Hene Hmd Hmt).
Qed.

(** English is rejected; Romanian, requested second, is delivered. *)
Lemma generate_language_delivered_witness :
  ∃ data w,
    generate (sampleEnv (Some 0)) sampleForm [] = (Resolved data, w)
    ∧ doc_title data !! Js.lit "ro" = Some (Js.lit "Câine fericit!")
    ∧ doc_excerpt data !! Js.lit "ro" = Some (Js.lit "Un articol")
    ∧ doc_content data !! Js.lit "ro" = Some (formatBlockContent sampleMarkdown).
Proof.
  pose (run := generate (sampleEnv (Some 0)) sampleForm []).
  assert (∃ data, run = (Resolved data, snd run)) as [data Hrun]
    by (eexists; vm_compute; reflexivity).
  exists data, (snd run). split; [exact Hrun|].
  apply (generate_language_delivered (sampleEnv (Some 0)) sampleForm [] data
           (snd run) (Js.lit "ro") 1 (sampleBody (Js.lit "ro"))
           {[ Js.lit "ro" := Js.lit "Câine fericit!" ]}
           {[ Js.lit "ro" := Js.lit "Un articol" ]}
           {[ Js.lit "ro" := ContentText sampleMarkdown ]}
           (Js.lit "Câine fericit!") (Js.lit "Un articol") sampleMarkdown Hrun).
  - by_computation.
  - reflexivity.
  - intros [|[|j]] Hj; [vm_compute in Hj; discriminate|reflexivity|
                        vm_compute in Hj; discriminate].
  - reflexivity.
  - reflexivity.
  - reflexivity.
  - reflexivity.
  - apply lookup_singleton_eq.
  - vm_compute. discriminate.
  - apply lookup_singleton_eq.
  - vm_compute. discriminate.
  - apply lookup_singleton_eq.
  - vm_compute. discriminate.
Defined.

(** ** The image search hook *)

(** X24: [search] always settles with [loading] back to false after
    exactly one request for nine results; the error is null exactly
    when the request succeeded; after any failure the list of images is
    empty, and a non-ok response is reported as "Failed to search
    images". *)
Theorem search_settles (E : GenEnv) (query : jsstring) :
  let url := apiUrl E (Js.lit "/api/unsplash-search") in
  let settled := fst (search E query) in
  loading settled = false
  ∧ snd (search E query) = [SearchRequest url query 9]
  ∧ (searchError settled = None
     ↔ requestSucceeded (searchImages E url query) = true)
  ∧ (searchError settled ≠ None → images settled = [])
  ∧ (∀ body, searchImages E url query = FetchResponse false body →
             searchError settled = Some (Js.lit "Failed to search images"))
  ∧ (∀ data, searchImages E url query = FetchResponse true (Resolved data) →
             images settled = default [] (results data)).
Proof.
  intros url settled. subst settled. unfold search. fold url.
  destruct (searchImages E url query) as [err|[] [data|err]];
    cbn [fst snd loading searchError images requestSucceeded];
    split_and!; try done; try (by split); try (by intros ? [= <-]).
Qed.

(** ** The progress bar *)

(** X25: the percentage shown by the progress indicator never
    decreases along the phases of a run (validating, searching images,
    generating, formatting, saving, complete); it is 20 times the step
    of the phase, at most 100, reaches 100 exactly in the phases saving
    and complete, and is 0 in the phases idle and error. *)
Theorem getProgressPercentage_monotone (s1 s2 : GenerationState) :
  phaseOrder s1 ≤ phaseOrder s2 →
  getProgressPercentage s1 ≤ getProgressPercentage s2
  ∧ getProgressPercentage s1 = 20 * currentStep s1
  ∧ getProgressPercentage s1 ≤ 100
  ∧ (getProgressPercentage s1 = 100 ↔ s1 = saving ∨ s1 = complete)
  ∧ getProgressPercentage idle = 0 ∧ getProgressPercentage error = 0.
Proof.
  intros Horder. split_and!.
  - destruct s1, s2; vm_compute in Horder |- *; lia.
  - by destruct s1.
  - destruct s1; vm_compute; lia.
  - destruct s1;
      (split;
       [intros H; vm_compute in H; first [lia | by left | by right]
       |intros [H|H]; first [discriminate | reflexivity]]).
  - reflexivity.
  - reflexivity.
Qed.

Lemma getProgressPercentage_monotone_witness :
  getProgressPercentage generating ≤ getProgressPercentage formatting
  ∧ getProgressPercentage generating = 60.
Proof.
  destruct (getProgressPercentage_monotone generating formatting)
    as (Hle & Heq & _).
  - vm_compute. lia.
  - split; [exact Hle|]. rewrite Heq. reflexivity.
Defined.

(** ** The keywords field *)

Section Keywords.

Implicit Types (s k : jsstring) (p : N → bool) (ks : list jsstring).

Lemma split_pieces (sep : N) s k : k ∈ Js.split sep s → sep ∉ k.
Proof.
  revert k. induction s as [|c s IH]; intros k; simpl.
  - intros ->%list_elem_of_singleton. apply not_elem_of_nil.
  - destruct (N.eqb_spec c sep) as [->|Hne].
    + intros [->|Hk]%elem_of_cons; [apply not_elem_of_nil|by apply IH].
    + destruct (Js.split sep s) as [|l ls] eqn:Hsplit.
      * intros ->%list_elem_of_singleton.
        apply not_elem_of_cons. split; [done|apply not_elem_of_nil].
      * intros [->|Hk]%elem_of_cons.
        -- apply not_elem_of_cons. split; [done|]. apply IH, list_elem_of_here.
        -- by apply IH, list_elem_of_further.
Qed.

Lemma dropWhile_suffix p s : ∃ pre, s = pre ++ Js.dropWhile p s.
Proof.
  induction s as [|c s [pre IH]]; [by exists []|]. simpl.
  destruct (p c); [|by exists []]. exists (c :: pre). simpl. by f_equal.
Qed.

Lemma dropWhile_head p s :
  match Js.dropWhile p s with [] => True | c :: _ => p c = false end.
Proof.
  induction s as [|c s IH]; [done|]. simpl. by destruct (p c) eqn:Hc.
Qed.

Lemma dropWhile_clean p s :
  match s with [] => True | c :: _ => p c = false end → Js.dropWhile p s = s.
Proof. destruct s as [|c s]; [done|]. simpl. by intros ->. Qed.

Lemma trim_sublist s : Js.trim s `sublist_of` s.
Proof.
  unfold Js.trim.
  destruct (dropWhile_suffix Js.isSpace s) as [pre Hs].
  destruct (dropWhile_suffix Js.isSpace (reverse (Js.dropWhile Js.isSpace s)))
    as [pre' Hr].
  rewrite Hs at 2. apply sublist_inserts_l.
  rewrite <- (reverse_involutive (Js.dropWhile Js.isSpace s)) at 2.
  rewrite Hr at 2. rewrite reverse_app. by apply sublist_inserts_r.
Qed.

(** After [trim] neither end is white space. *)
Lemma trim_ends s :
  match Js.trim s with [] => True | c :: _ => Js.isSpace c = false end
  ∧ match reverse (Js.trim s) with [] => True | c :: _ => Js.isSpace c = false end.
Proof.
  unfold Js.trim. rewrite reverse_involutive.
  split; [|apply dropWhile_head].
  pose proof (dropWhile_head Js.isSpace s) as Hhead.
  destruct (dropWhile_suffix Js.isSpace (reverse (Js.dropWhile Js.isSpace s)))
    as [pre Hr].
  apply (f_equal reverse) in Hr. rewrite reverse_involutive, reverse_app in Hr.
  rewrite Hr in Hhead.
  destruct (reverse (Js.dropWhile Js.isSpace (reverse (Js.dropWhile Js.isSpace s))));
    done.
Qed.

Lemma trim_clean s :
  match s with [] => True | c :: _ => Js.isSpace c = false end →
  match reverse s with [] => True | c :: _ => Js.isSpace c = false end →
  Js.trim s = s.
Proof.
  intros Hfront Hback. unfold Js.trim.
  rewrite (dropWhile_clean _ s Hfront), (dropWhile_clean _ _ Hback).
  apply reverse_involutive.
Qed.

Lemma trim_idempotent s : Js.trim (Js.trim s) = Js.trim s.
Proof. destruct (trim_ends s). by apply trim_clean. Qed.

Lemma trim_leading_space s : Js.trim (space :: s) = Js.trim s.
Proof. done. Qed.

Lemma split_keywordsValue k ks :
  Forall (λ k, comma ∉ k) (k :: ks) →
  Js.split comma (keywordsValue (k :: ks)) = k :: ((space ::.) <$> ks).
Proof.
  revert k. induction ks as [|k' ks IH]; intros k [Hk Hks]%Forall_cons.
  - by apply split_no_sep.
  - change (keywordsValue (k :: k' :: ks))
      with (k ++ comma :: space :: keywordsValue (k' :: ks)).
    rewrite split_app_sep by done. f_equal.
    change (Js.split comma (space :: keywordsValue (k' :: ks)))
      with (match Js.split comma (keywordsValue (k' :: ks)) with
            | l :: ls => (space :: l) :: ls
            | [] => [[space]]
            end).
    by rewrite IH.
Qed.

End Keywords.

(** X26: the keywords read from the input are never empty, carry no
    white space at either end and contain no comma; and the text the
    input shows for a list of such keywords (joined with a comma and a
    space) is read back as the same list. *)
Theorem parseKeywords_round_trip (value : jsstring) (keywords : list jsstring) :
  Forall (λ k, k ≠ [] ∧ Js.trim k = k ∧ comma ∉ k) (parseKeywords value)
  ∧ (Forall (λ k, k ≠ [] ∧ Js.trim k = k ∧ comma ∉ k) keywords →
     parseKeywords (keywordsValue keywords) = keywords).
Proof.
  split.
  - unfold parseKeywords. apply Forall_forall.
    intros k [Hk Hin]%list_elem_of_filter.
    apply list_elem_of_fmap in Hin as (piece & -> & Hpiece).
    split_and!.
    + by destruct (Js.trim piece).
    + apply trim_idempotent.
    + intros Hin. apply (split_pieces comma value piece Hpiece).
      eapply elem_of_sublist; [exact Hin|apply trim_sublist].
  - intros Hks. unfold parseKeywords.
    destruct keywords as [|k ks]; [done|].
    rewrite split_keywordsValue
      by (eapply Forall_impl; [exact Hks|]; by intros ? (_ & _ & ?)).
    apply Forall_cons in Hks as [(Hne & Htrim & _) Hks].
    cbn [fmap list_fmap]. rewrite Htrim, filter_cons_True by (by destruct k).
    f_equal. induction Hks as [|k' ks' (Hne' & Htrim' & _) _ IH]; [done|].
    cbn [fmap list_fmap]. rewrite trim_leading_space, Htrim'.
    rewrite filter_cons_True by (by destruct k'). by f_equal.
Qed.

Lemma parseKeywords_round_trip_witness :
  parseKeywords (keywordsValue [Js.lit "dog training"; Js.lit "puppy care"])
  = [Js.lit "dog training"; Js.lit "puppy care"].
Proof.
  apply (parseKeywords_round_trip []).
  repeat constructor; first [discriminate | reflexivity | by_computation].
Defined.

(** ** The submit button *)

(** X27: a click on the submit button with an empty topic or no
    language does nothing: [generate] is not called, so the hook never
    reaches its validation error through the dialog.  Otherwise
    [generate] runs once; when it returns, its payload is handed to
    [onSuccess] (if given) and the closing of the dialog is scheduled;
    when it throws, whatever the error and wherever it was thrown,
    nothing is handed over and the dialog stays open. *)
Theorem handleSubmit_outcomes
    (E : GenEnv) (formData : GenerationFormData) (documentId : jsstring)
    (onSuccess : bool) :
  let submission := handleSubmit E formData documentId onSuccess in
  (topic formData = [] ∨ languages formData = [] →
   submission = mkSubmission None None false)
  ∧ (topic formData ≠ [] → languages formData ≠ [] →
     run submission = Some (generate E formData documentId))
  ∧ (∀ data w, run submission = Some (Resolved data, w) →
       handedOver submission = (if onSuccess then Some data else None)
       ∧ closeScheduled submission = true)
  ∧ (∀ err w, run submission = Some (Rejected err, w) →
       handedOver submission = None ∧ closeScheduled submission = false).
Proof.
  intros submission. subst submission. unfold handleSubmit. split_and!.
  - intros Hinvalid.
    assert (negb (Js.truthy (topic formData)) || (length (languages formData) =? 0)
            = true) as ->; [|done].
    destruct Hinvalid as [->| ->]; [done|]. simpl. apply orb_true_r.
  - intros Htopic Hlangs. rewrite valid_form by done.
    by destruct (generate E formData documentId) as [[data|err] w].
  - intros data w.
    destruct (negb (Js.truthy (topic formData))
              || (length (languages formData) =? 0)); [done|].
    destruct (generate E formData documentId) as [[data'|err] w'];
      intros [= <- <-]; done.
  - intros err w.
    destruct (negb (Js.truthy (topic formData))
              || (length (languages formData) =? 0)); [done|].
    destruct (generate E formData documentId) as [[data'|err'] w'];
      intros [= <- <-]; done.
Qed.

(** The network is down: the search throws and the dialog stays open. *)
Lemma handleSubmit_outcomes_witness :
  let submission := handleSubmit offlineSearchEnv sampleForm [] true in
  fst <$> run submission = Some (Rejected fetchFailed)
  ∧ handedOver submission = None ∧ closeScheduled submission = false
  ∧ handleSubmit (sampleEnv None)
      (mkFormData [] [] [] [Js.lit "en"] friendly short true
         (mkImageSettings true [] false)) [] true
    = mkSubmission None None false.
Proof.
  intros submission.
  destruct (handleSubmit_outcomes (sampleEnv None)
              (mkFormData [] [] [] [Js.lit "en"] friendly short true
                 (mkImageSettings true [] false)) [] true) as (Hnothing & _).
  split_and!; [vm_compute; reflexivity..|].
  apply Hnothing. by left.
Defined.

(** The network is down: the hook reports the message of the error and
    shows no image. *)
Lemma search_settles_witness :
  fst (search offlineSearchEnv (Js.lit "dog"))
  = mkSearchHook [] false (Some (Js.lit "Failed to fetch")).
Proof.
  destruct (search_settles offlineSearchEnv (Js.lit "dog"))
    as (Hloading & _ & _ & Himages & _).
  destruct (fst (search offlineSearchEnv (Js.lit "dog"))) as [imgs l e] eqn:Hs.
  simpl in Hloading, Himages. subst l.
  assert (e = Some (Js.lit "Failed to fetch")) as ->.
  { vm_compute in Hs. by injection Hs. }
  by rewrite Himages.
Defined.

(** ** The message of the progress indicator *)

(** No code unit has the small letter c as its upper case. *)
Lemma upperUnit_not_small_c (x : N) : Js.upperUnit x ≠ 99%N.
Proof.
  unfold Js.upperUnit.
  destruct ((97 <=? x)%N && (x <=? 122)%N
            || (224 <=? x)%N && (x <=? 254)%N && negb (x =? 247)%N) eqn:Hx.
  - intros Hc. assert (x = 131%N) as -> by lia. vm_compute in Hx. discriminate.
  - intros ->. vm_compute in Hx. discriminate.
Qed.

(** The two messages part after "Generating ": the message of
    [generate] goes on with the language code in upper case (or with a
    space when the code is empty), the one of the indicator with the
    small letter c of "content". *)
Lemma progressMessage_unit (lang : jsstring) (completed total : nat) :
  progressMessage lang completed total !! 11 ≠ Some 99%N.
Proof.
  unfold progressMessage.
  replace (Js.lit "Generating ")
    with [71; 101; 110; 101; 114; 97; 116; 105; 110; 103; 32]%N
    by (vm_compute; reflexivity).
  destruct lang as [|c lang].
  - replace (Js.lit " content (")
      with [32; 99; 111; 110; 116; 101; 110; 116; 32; 40]%N
      by (vm_compute; reflexivity).
    cbn. discriminate.
  - cbn. intros [= Hc]. by apply upperUnit_not_small_c in Hc.
Qed.

Lemma defaultStateMessage_unit (progress : GenerationProgress) :
  defaultStateMessage generating progress !! 11 = Some 99%N.
Proof.
  unfold defaultStateMessage.
  destruct (Js.truthy (default [] (currentLanguage progress))).
  - replace (Js.lit "Generating content in ")
      with ([71; 101; 110; 101; 114; 97; 116; 105; 110; 103; 32; 99]%N
              ++ [111; 110; 116; 101; 110; 116; 32; 105; 110; 32]%N)
      by (vm_compute; reflexivity).
    reflexivity.
  - vm_compute. reflexivity.
Qed.

(** X28: while [generate] is in its loop over a language whose code is
    made of Basic Latin code units (as ro, en, pl, hu and cs are), the
    progress indicator shows the message [generate] has set,
    "Generating XX content (i/n)...", and not its own
    "Generating content in xx...". *)
Theorem getStateMessage_during_generation
    (E : GenEnv) (formData : GenerationFormData) (url lang : jsstring)
    (completed : nat) (gc : GeneratedContent) (w : World) :
  basicLatin lang = true →
  let progress :=
    hook_progress (hook (snd (generateLanguage E formData url completed lang
                                (gc, w)))) in
  p_state progress = generating
  ∧ currentLanguage progress = Some lang
  ∧ getStateMessage generating progress
    = progressMessage lang completed (length (languages formData))
  ∧ getStateMessage generating progress
    ≠ defaultStateMessage generating progress.
Proof.
  intros _ progress.
  assert (p_state progress = generating
          ∧ currentLanguage progress = Some lang
          ∧ getStateMessage generating progress
            = progressMessage lang completed (length (languages formData)))
    as (Hstate & Hlang & Hmessage).
  { subst progress. unfold generateLanguage.
    destruct (generateArticle E _ url lang) as [|[] []]; by split_and!. }
  split_and!; [exact Hstate|exact Hlang|exact Hmessage|].
  rewrite Hmessage. intros Hsame.
  apply (progressMessage_unit lang completed (length (languages formData))).
  rewrite Hsame. apply defaultStateMessage_unit.
Qed.

(** The second of two languages, Romanian, is being generated. *)
Lemma getStateMessage_during_generation_witness :
  let progress :=
    hook_progress
      (hook (snd (generateLanguage (sampleEnv None) sampleForm
                    (generateApiUrl (sampleEnv None)) 2 (Js.lit "ro")
                    (initialContent sampleForm None, startWorld)))) in
  getStateMessage generating progress = Js.lit "Generating RO content (2/2)..."
  ∧ defaultStateMessage generating progress
    = Js.lit "Generating content in ro..."
  ∧ getStateMessage generating progress ≠ defaultStateMessage generating progress.
Proof.
  intros progress.
  destruct (getStateMessage_during_generation (sampleEnv None) sampleForm
              (generateApiUrl (sampleEnv None)) (Js.lit "ro") 2
              (initialContent sampleForm None) startWorld)
    as (_ & _ & Hmessage & Hother).
  - vm_compute. reflexivity.
  - split_and!; [|vm_compute; reflexivity|exact Hother].
    fold progress in Hmessage. rewrite Hmessage. vm_compute. reflexivity.
Defined.
